(** * FlashKit: block interpolation ([flashkit.library.create_interp])

    A shallow embedding of [SimulationData] and [interp_blocks] and the
    properties of the block-overlap query, the index mapping, the local
    array reassembly and the clipped interpolation.

    Conventions of the embedding.
    - Coordinates are finite floating point numbers, modelled by rationals
      ([Q]); their comparisons ([<], [==]) agree with [Qlt] and [Qeq].
    - The elements of a field array are [double]s: NaN or a finite number.
      numpy's [minimum], [maximum], [max()] and [min()] give NaN as soon as
      one of their operands is NaN, and a comparison with NaN is false.
    - A numpy array is a shape together with a total indexing function; only
      the indices inside the shape are meaningful.
    - Python exceptions are values of [error]; a computation that may raise
      returns [result A]. *)

From Stdlib Require Import List String ZArith QArith Qminmax Lia Bool Arith
  Sorted SetoidList SetoidPermutation PeanoNat.
Import ListNotations.

Local Open Scope string_scope.
Local Open Scope list_scope.
Local Open Scope nat_scope.

(** ** Exceptions *)

Inductive error : Type :=
| LibraryError (msg : string)
| KeyError (key : string)
| IndexError
| TypeError
| ValueError
| IOError.

Definition result (A : Type) : Type := (error + A)%type.

Definition Ok {A : Type} (a : A) : result A := inr a.
Definition Raise {A : Type} (e : error) : result A := inl e.

Definition rbind {A B : Type} (r : result A) (k : A -> result B) : result B :=
  match r with
  | inl e => inl e
  | inr a => k a
  end.

Definition of_option {A : Type} (e : error) (o : option A) : result A :=
  match o with
  | Some a => Ok a
  | None => Raise e
  end.

(** [mapM f l]: a comprehension whose body may raise; the first exception
    (left to right) wins. *)
Fixpoint mapM {A B : Type} (f : A -> result B) (l : list A) : result (list B) :=
  match l with
  | [] => Ok []
  | a :: l' => rbind (f a) (fun b => rbind (mapM f l') (fun bs => Ok (b :: bs)))
  end.

(** ** Python and numpy primitives *)

(** [enumerate]. *)
Fixpoint enumerate_from {A : Type} (start : nat) (l : list A) : list (nat * A) :=
  match l with
  | [] => []
  | a :: l' => (start, a) :: enumerate_from (S start) l'
  end.

Definition enumerate {A : Type} (l : list A) : list (nat * A) := enumerate_from 0 l.

(** Fancy indexing [a[blocks]] of the leading axis by a list of indices;
    an index out of range raises [IndexError]. *)
Definition take_rows {A : Type} (a : list A) (blocks : list nat) : result (list A) :=
  mapM (fun b => of_option IndexError (nth_error a b)) blocks.

(** [a[sliced]] where [sliced] is [slice(None)] when no subset is given. *)
Definition sliced_rows {A : Type} (a : list A) (blocks : option (list nat)) : result (list A) :=
  match blocks with
  | None => Ok a
  | Some bs => take_rows a bs
  end.

(** [numpy.unique]: the sorted distinct elements, for a comparison [cmp]. *)
Section Unique.
Context {A : Type} (cmp : A -> A -> comparison).

Fixpoint insert_unique (x : A) (l : list A) : list A :=
  match l with
  | [] => [x]
  | y :: l' =>
      match cmp x y with
      | Lt => x :: l
      | Eq => l
      | Gt => y :: insert_unique x l'
      end
  end.

Definition unique_by (l : list A) : list A := fold_right insert_unique [] l.
End Unique.

Definition numpy_unique (l : list Q) : list Q := unique_by Qcompare l.
Definition numpy_unique_int (l : list nat) : list nat := unique_by Nat.compare l.

(** The comparisons [x < y] and [x > y] of two numbers. *)
Definition Qlt_bool (x y : Q) : bool :=
  match Qcompare x y with
  | Lt => true
  | _ => false
  end.

Definition Qgt_bool (x y : Q) : bool := Qlt_bool y x.

(** [numpy.where(a == x)[0][0]]: the first position holding [x]; indexing the
    empty result raises [IndexError]. *)
Fixpoint where_first (a : list Q) (x : Q) : option nat :=
  match a with
  | [] => None
  | y :: a' => if Qeq_bool y x then Some 0 else option_map S (where_first a' x)
  end.

(** ** Dictionaries keyed by strings (insertion ordered) *)

Section Dict.
Context {V : Type}.

Fixpoint dict_get (k : string) (d : list (string * V)) : option V :=
  match d with
  | [] => None
  | (k', v) :: d' => if String.eqb k k' then Some v else dict_get k d'
  end.

Fixpoint dict_set (k : string) (v : V) (d : list (string * V)) : list (string * V) :=
  match d with
  | [] => [(k, v)]
  | (k', v') :: d' =>
      if String.eqb k k' then (k, v) :: d' else (k', v') :: dict_set k v d'
  end.

(** A dict display [{k1: v1, k2: v2, ...}]: later items replace earlier
    ones with the same key. *)
Definition dict_of_items (items : list (string * V)) : list (string * V) :=
  fold_left (fun d kv => dict_set (fst kv) (snd kv) d) items [].

(** [d[k]], raising [KeyError]. *)
Definition dict_item (k : string) (d : list (string * V)) : result V :=
  of_option (KeyError k) (dict_get k d).
End Dict.

(** ** Grid topology: [SimulationData] *)

(** A bounding box: per axis, the pair (low, high). *)
Definition bbox : Type := list (Q * Q).

(** A block center: its coordinate on each of the three axes. *)
Definition center : Type := (Q * Q * Q)%type.

Definition center_axis (c : center) (axis : nat) : Q :=
  match c, axis with
  | (x, _, _), 0 => x
  | (_, y, _), 1 => y
  | (_, _, z), _ => z
  end.

(** [grids[location]]: per axis, a two-dimensional array whose row [p] holds
    the coordinates of the blocks in position [p] along that axis. *)
Definition axis_grids : Type := list (list (list Q)).

Record SimulationData : Type := mkSimulationData {
  axisNumProcs : list nat;
  blkPath : string;
  bndboxes : list bbox;
  centers : list center;
  grids : list (string * axis_grids);
  ndim : Z;
  numProcs : nat;
  ranges : list (Q * Q);
  shapes : list (string * list nat);
  sizes : nat * nat * nat
}.

Section Topology.
(** The three face-centered location names, [FACES[0]], [FACES[1]],
    [FACES[2]] of the configuration (which is not part of this module). *)
Variables FACES_0 FACES_1 FACES_2 : string.

Variable self : SimulationData.

Definition overlaps (ll lh hl hh : Q) : bool :=
  negb (Qlt_bool hh ll || Qgt_bool hl lh).

Definition blocks_from_bbox (box : bbox) : list nat :=
  map fst
    (filter (fun '(blk, bb) =>
               forallb (fun '((ll, lh), (hl, hh)) => overlaps ll lh hl hh)
                       (combine bb box))
            (enumerate (bndboxes self))).

Definition centers_unique (blocks : option (list nat)) : result (list (list Q)) :=
  rbind (sliced_rows (centers self) blocks) (fun rows =>
  Ok (map (fun axis => numpy_unique (map (fun c => center_axis c axis) rows))
          (seq 0 3))).

Definition extent_unique (blocks : option (list nat)) : result (list nat) :=
  rbind (centers_unique blocks) (fun u => Ok (map (@length Q) u)).

(** [index_unique] for an explicit list of blocks (the only use made of it). *)
Definition index_unique (blocks : list nat) : result (list (list nat)) :=
  rbind (centers_unique (Some blocks)) (fun unique =>
  rbind (take_rows (centers self) blocks) (fun rows =>
  mapM (fun block =>
          mapM (fun axis =>
                  of_option IndexError
                    (where_first (nth axis unique []) (center_axis block axis)))
               (seq 0 3))
       rows)).

Definition index_flatten (blocks : option (list nat)) : result (list (list nat)) :=
  rbind (sliced_rows (centers self) blocks) (fun rows =>
  mapM (fun axis =>
          rbind (mapM (fun coord =>
                         rbind (centers_unique None) (fun u =>
                         of_option IndexError
                           (where_first (nth axis u []) (center_axis coord axis))))
                      rows)
                (fun idx => Ok (numpy_unique_int idx)))
       (seq 0 3)).

Definition face_shift (face : string) : nat * nat * nat :=
  match dict_get face
          (dict_of_items [(FACES_0, (1, 0, 0)); (FACES_1, (0, 1, 0)); (FACES_2, (0, 0, 1))])
  with
  | Some s => s
  | None => (0, 0, 0)
  end.

Definition tuple3 {A : Type} (t : A * A * A) : list A :=
  let '(a, b, c) := t in [a; b; c].

(** [zip] of three sequences. *)
Fixpoint zip3 {A B C : Type} (la : list A) (lb : list B) (lc : list C) : list (A * B * C) :=
  match la, lb, lc with
  | a :: la', b :: lb', c :: lc' => (a, b, c) :: zip3 la' lb' lc'
  | _, _, _ => []
  end.

Definition face_flat_shape (blocks : option (list nat)) (face : string) : result (list nat) :=
  rbind (extent_unique blocks) (fun extents =>
  Ok (map (fun '(extent, shift, size) => extent * size + shift)
          (zip3 extents (tuple3 (face_shift face)) (tuple3 (sizes self))))).
End Topology.

(** ** Floating point values *)

Inductive double : Type :=
| NaN
| Finite (q : Q).

(** The scalar [minimum] and [maximum] of numpy: NaN when an operand is. *)
Definition dmin (x y : double) : double :=
  match x, y with
  | Finite a, Finite b => Finite (Qmin a b)
  | _, _ => NaN
  end.

Definition dmax (x y : double) : double :=
  match x, y with
  | Finite a, Finite b => Finite (Qmax a b)
  | _, _ => NaN
  end.

(** [x <= y], [x < y] and [x == y]: false when an operand is NaN. *)
Definition dle (x y : double) : Prop :=
  match x, y with
  | Finite a, Finite b => (a <= b)%Q
  | _, _ => False
  end.

Definition dlt (x y : double) : Prop :=
  match x, y with
  | Finite a, Finite b => (a < b)%Q
  | _, _ => False
  end.

Definition deq (x y : double) : Prop :=
  match x, y with
  | Finite a, Finite b => (a == b)%Q
  | _, _ => False
  end.

(** ** numpy arrays *)

Record ndarray : Type := mkArray {
  shape : list nat;
  item : list nat -> double
}.

(** All the indices of an array of a given shape, in row-major order. *)
Fixpoint indices (sh : list nat) : list (list nat) :=
  match sh with
  | [] => [[]]
  | d :: sh' => flat_map (fun i => map (cons i) (indices sh')) (seq 0 d)
  end.

Definition flatten (a : ndarray) : list double := map (item a) (indices (shape a)).

(** [a.max()] and [a.min()]; both raise [ValueError] on an array of size 0
    and give NaN when the array holds one. *)
Definition array_max (a : ndarray) : result double :=
  match flatten a with
  | [] => Raise ValueError
  | x :: l => Ok (fold_left dmax l x)
  end.

Definition array_min (a : ndarray) : result double :=
  match flatten a with
  | [] => Raise ValueError
  | x :: l => Ok (fold_left dmin l x)
  end.

(** [numpy.minimum(a, m)] and [numpy.maximum(a, m)] with a scalar [m]. *)
Definition numpy_minimum (a : ndarray) (m : double) : ndarray :=
  mkArray (shape a) (fun idx => dmin (item a idx) m).

Definition numpy_maximum (a : ndarray) (m : double) : ndarray :=
  mkArray (shape a) (fun idx => dmax (item a idx) m).

(** [a[None, ...]]: a new leading axis of length one. *)
Definition newaxis (a : ndarray) : ndarray :=
  mkArray (1 :: shape a) (fun idx => item a (tl idx)).

(** [a[i]] for an integer [i]. *)
Definition getitem (a : ndarray) (i : nat) : result ndarray :=
  match shape a with
  | [] => Raise IndexError
  | n :: sh => if i <? n then Ok (mkArray sh (fun idx => item a (i :: idx)))
               else Raise IndexError
  end.

(** Broadcasting of a value to the shape it is assigned to.  Shapes are
    aligned at their last axis; an axis of the value must have the target's
    length or length one, and leading axes the target lacks must have
    length one.  Both functions work on the reversed shapes. *)
Fixpoint broadcast_ok (rsrc rtgt : list nat) : bool :=
  match rsrc, rtgt with
  | [], _ => true
  | d :: rs, [] => (d =? 1) && broadcast_ok rs []
  | d :: rs, t :: rt => ((d =? t) || (d =? 1)) && broadcast_ok rs rt
  end.

Fixpoint broadcast_rev (rsrc ridx : list nat) : list nat :=
  match rsrc with
  | [] => []
  | d :: rs =>
      match ridx with
      | [] => 0 :: broadcast_rev rs []
      | i :: ri => (if d =? 1 then 0 else i) :: broadcast_rev rs ri
      end
  end.

Definition broadcastable (src tgt : list nat) : bool := broadcast_ok (rev src) (rev tgt).

(** The index of the value's element that lands at index [idx] of the target. *)
Definition broadcast_index (src : list nat) (idx : list nat) : list nat :=
  rev (broadcast_rev (rev src) (rev idx)).

(** Basic slices [lo:hi], one per leading axis. *)
Fixpoint in_slices (sh idx : list nat) (slices : list (nat * nat)) : bool :=
  match slices, sh, idx with
  | [], _, _ => true
  | (lo, hi) :: sl, d :: sh', i :: idx' =>
      (lo <=? i) && (i <? hi) && (i <? d) && in_slices sh' idx' sl
  | _, _, _ => false
  end.

Fixpoint slice_shape (sh : list nat) (slices : list (nat * nat)) : list nat :=
  match slices, sh with
  | (lo, hi) :: sl, d :: sh' => (Nat.min hi d - Nat.min lo d) :: slice_shape sh' sl
  | _, _ => sh
  end.

Fixpoint slice_offset (idx : list nat) (slices : list (nat * nat)) : list nat :=
  match slices, idx with
  | (lo, _) :: sl, i :: idx' => (i - lo) :: slice_offset idx' sl
  | _, _ => idx
  end.

(** [a[l0:h0, l1:h1, ...] = v]. *)
Definition setitem_slices (a : ndarray) (slices : list (nat * nat)) (v : ndarray) : result ndarray :=
  if length (shape a) <? length slices then Raise IndexError
  else if broadcastable (shape v) (slice_shape (shape a) slices) then
    Ok (mkArray (shape a)
          (fun idx =>
             if in_slices (shape a) idx slices
             then item v (broadcast_index (shape v) (slice_offset idx slices))
             else item a idx))
  else Raise ValueError.

(** [a[step] = v]. *)
Definition setitem_row (a : ndarray) (step : nat) (v : ndarray) : result ndarray :=
  match shape a with
  | [] => Raise IndexError
  | n :: row =>
      if step <? n then
        if broadcastable (shape v) row then
          Ok (mkArray (shape a)
                (fun idx =>
                   match idx with
                   | i :: rest =>
                       if i =? step then item v (broadcast_index (shape v) rest)
                       else item a idx
                   | [] => item a idx
                   end))
        else Raise ValueError
      else Raise IndexError
  end.

(** ** Storage operations and the state of a run *)

Inductive event : Type :=
| OpenFile (path mode : string) (keywords : list (string * bool))
| CloseFile (path : string)
| BarEnter (size : nat)
| BarExit
| CreateDataset (field : string) (shp : list nat)
| ReadDataset (path field : string)
| WritePartial (field : string) (data : ndarray) (block : nat)
| Progress.

Definition flow : Type := (string * (string * string * string))%type.

(** The objects a call of [interp_blocks] works on: the caller's
    [destination], [source] and [flows], the operations performed so far on
    the storage and the progress bar (oldest first), and the local [output]. *)
Record state : Type := mkState {
  st_destination : SimulationData;
  st_source : SimulationData;
  st_flows : list flow;
  st_io : list event;
  st_output : list (string * ndarray)
}.

Definition M (A : Type) : Type := state -> state * result A.

Definition ret {A : Type} (a : A) : M A := fun s => (s, Ok a).

Definition bind {A B : Type} (m : M A) (k : A -> M B) : M B :=
  fun s =>
    match m s with
    | (s', inl e) => (s', inl e)
    | (s', inr a) => k a s'
    end.

Definition raise {A : Type} (e : error) : M A := fun s => (s, Raise e).

Definition lift {A : Type} (r : result A) : M A := fun s => (s, r).

Definition gets {A : Type} (f : state -> A) : M A := fun s => (s, Ok (f s)).

Definition set_output (o : list (string * ndarray)) : M unit :=
  fun s => (mkState (st_destination s) (st_source s) (st_flows s) (st_io s) o, Ok tt).

Definition log (ev : event) (s : state) : state :=
  mkState (st_destination s) (st_source s) (st_flows s) (st_io s ++ [ev]) (st_output s).

Declare Scope monad_scope.
Delimit Scope monad_scope with monad.
Notation "x <- m ;; k" := (bind m (fun x => k))
  (at level 61, m at next level, right associativity) : monad_scope.
Notation "' p <- m ;; k" := (bind m (fun x => match x with p => k end))
  (at level 61, p pattern, m at next level, right associativity) : monad_scope.
Notation "m ;; k" := (bind m (fun _ => k))
  (at level 61, right associativity) : monad_scope.
Local Open Scope monad_scope.

(** A [for] loop whose body may raise. *)
Fixpoint forM_ {A : Type} (l : list A) (body : A -> M unit) : M unit :=
  match l with
  | [] => ret tt
  | a :: l' => body a ;; forM_ l' body
  end.

(** A [for] loop updating a local variable. *)
Fixpoint foldM {A S : Type} (body : S -> A -> M S) (l : list A) (acc : S) : M S :=
  match l with
  | [] => ret acc
  | a :: l' => acc' <- body acc a ;; foldM body l' acc'
  end.

(** ** The interpolation engine: [interp_blocks] *)

(** The blocks assigned to this worker ([Index] of [core.parallel]). *)
Record Index : Type := mkIndex {
  index_range : list nat;
  index_size : nat
}.

Section Engine.
Variables FACES_0 FACES_1 FACES_2 : string.

(** [METHOD], the interpolation method of the configuration. *)
Variable METHOD : string.

(** [Index.from_simple] and [Index.mesh_width] of [core.parallel]. *)
Variable from_simple : nat -> Index.
Variable mesh_width : Index -> list nat -> list (nat * nat * nat).

(** [scipy.interpolate.interpn(points, values, xi, method=METHOD,
    bounds_error=False, fill_value=None)]: the interpolation routine, which
    extrapolates outside the source coordinates; it may raise. *)
Variable interpn : string -> list (list Q) -> ndarray -> list (list Q) -> result ndarray.

(** What [numpy.empty] finds in memory for an array of a given shape. *)
Variable uninit : list nat -> list nat -> double.

(** [H5Manager.read]: the dataset stored under a name in a file. *)
Variable stored : string -> string -> result ndarray.

(** Whether an operation on the storage or the progress bar fails, given
    the operations performed before it. *)
Variable io_fails : list event -> event -> bool.

Definition numpy_empty (sh : list nat) : ndarray := mkArray sh (uninit sh).

Definition perform (ev : event) : M unit :=
  fun s => if io_fails (st_io s) ev then (s, Raise IOError) else (log ev s, Ok tt).

(** A [with] block: the resource is released on every way out. *)
Definition with_ {A : Type} (enter exit : event) (body : M A) : M A :=
  perform enter ;;
  (fun s => let (s', r) := body s in (log exit s', r)).

(** The value of [input_file.read(field)[i0, i1, ...]]. *)
Definition block_data (path field : string) (lead : list nat) : result ndarray :=
  rbind (stored path field) (fun a =>
  fold_left (fun r i => rbind r (fun b => getitem b i)) lead (Ok a)).

(** [input_file.read(field)[i0, i1, ...]], an operation on the storage. *)
Definition read_block (path field : string) (lead : list nat) : M ndarray :=
  perform (ReadDataset path field) ;;
  lift (block_data path field lead).

(** [numpy.unique(grids[face][axis][rows].flatten())], where [rows] is an
    entry of [index_flatten].  For an empty selection that entry is
    [numpy.unique([])], an empty array of floats, and an array of floats is
    not an index: the subscript raises [IndexError]. *)
Definition source_coords (sim : SimulationData) (face : string) (axis : nat)
    (rows : list nat) : result (list Q) :=
  rbind (dict_item face (grids sim)) (fun g =>
  rbind (of_option IndexError (nth_error g axis)) (fun ax =>
  match rows with
  | [] => Raise IndexError
  | _ :: _ => rbind (take_rows ax rows) (fun r => Ok (numpy_unique (concat r)))
  end)).

(** [grids[face][axis][w, ...]]: the coordinates of one block along an axis. *)
Definition destination_coords (sim : SimulationData) (face : string) (axis : nat)
    (w : nat) : result (list Q) :=
  rbind (dict_item face (grids sim)) (fun g =>
  rbind (of_option IndexError (nth_error g axis)) (fun ax =>
  of_option IndexError (nth_error ax w))).

(** The slices [kl:kh, jl:jh, il:ih] of the block with logical index (i, j, k). *)
Definition slices3 (sz sh : nat * nat * nat) (i j k : nat) : list (nat * nat) :=
  let '(sz0, sz1, sz2) := sz in
  let '(sh0, sh1, sh2) := sh in
  let il := i * sz0 in let ih := (i + 1) * sz0 + sh0 in
  let jl := j * sz1 in let jh := (j + 1) * sz1 + sh1 in
  let kl := k * sz2 in let kh := (k + 1) * sz2 + sh2 in
  [(kl, kh); (jl, jh); (il, ih)].

(** The slices [jl:jh, il:ih] used in two dimensions. *)
Definition slices2 (sz sh : nat * nat * nat) (i j : nat) : list (nat * nat) :=
  let '(sz0, sz1, _) := sz in
  let '(sh0, sh1, _) := sh in
  let il := i * sz0 in let ih := (i + 1) * sz0 + sh0 in
  let jl := j * sz1 in let jh := (j + 1) * sz1 + sh1 in
  [(jl, jh); (il, ih)].

(** One turn of the reassembly loop, once the block's array is read. *)
Definition place3 (sz sh : nat * nat * nat) (values : ndarray) (ijk : list nat)
    (data : ndarray) : result ndarray :=
  match ijk with
  | [i; j; k] => setitem_slices values (slices3 sz sh i j k) data
  | _ => Raise ValueError
  end.

Definition place2 (sz sh : nat * nat * nat) (values : ndarray) (ijk : list nat)
    (data : ndarray) : result ndarray :=
  match ijk with
  | [i; j; _] => setitem_slices values (slices2 sz sh i j) data
  | _ => Raise ValueError
  end.

(** The local source array in three dimensions (lines 188-193). *)
Definition local_values3 (source : SimulationData) (source_field : string)
    (source_shift : nat * nat * nat) (source_shape : list nat)
    (index_uniq : list (list nat)) (blocks : list nat) : M ndarray :=
  foldM (fun values '(ijk, source_block) =>
           data <- read_block (blkPath source) source_field [source_block] ;;
           lift (place3 (sizes source) source_shift values ijk data))
        (combine index_uniq blocks)
        (numpy_empty (rev source_shape)).

(** The local source array in two dimensions (lines 209-213). *)
Definition local_values2 (source : SimulationData) (source_field : string)
    (source_shift : nat * nat * nat) (source_shape : list nat)
    (index_uniq : list (list nat)) (blocks : list nat) : M ndarray :=
  foldM (fun values '(ijk, source_block) =>
           data <- read_block (blkPath source) source_field [source_block; 0] ;;
           lift (place2 (sizes source) source_shift values ijk data))
        (combine index_uniq blocks)
        (numpy_empty (rev (firstn 2 source_shape))).

(** [numpy.maximum(numpy.minimum(interpolated, values.max()), values.min())],
    the interpolated array being computed first. *)
Definition clip (interpolated : result ndarray) (values : ndarray) : result ndarray :=
  rbind interpolated (fun r =>
  rbind (array_max values) (fun vmax =>
  let low := numpy_minimum r vmax in
  rbind (array_min values) (fun vmin =>
  Ok (numpy_maximum low vmin)))).

(** [output[field][step] = data; output_file.write_partial(field,
    output[field][step], block=block, index=index)]. *)
Definition store_block (field : string) (step block : nat) (data : ndarray) : M unit :=
  output <- gets st_output ;;
  arr <- lift (dict_item field output) ;;
  arr' <- lift (setitem_row arr step data) ;;
  set_output (dict_set field arr' output) ;;
  row <- lift (getitem arr' step) ;;
  perform (WritePartial field row block).

(** The body of the loop over the fields, for one destination block. *)
Definition interp_field (destination source : SimulationData)
    (step block : nat) (width : nat * nat * nat)
    (blocks : list nat) (index_uniq index_flat : list (list nat)) (fl : flow) : M unit :=
  let '(field, (face, source_field, source_face)) := fl in
  let source_shift := face_shift FACES_0 FACES_1 FACES_2 source_face in
  source_shape <- lift (face_flat_shape FACES_0 FACES_1 FACES_2 source (Some blocks) source_face) ;;
  if (ndim source =? 3)%Z then
    flat0 <- lift (of_option IndexError (nth_error index_flat 0)) ;;
    xxx <- lift (source_coords source source_face 0 flat0) ;;
    flat1 <- lift (of_option IndexError (nth_error index_flat 1)) ;;
    yyy <- lift (source_coords source source_face 1 flat1) ;;
    flat2 <- lift (of_option IndexError (nth_error index_flat 2)) ;;
    zzz <- lift (source_coords source source_face 2 flat2) ;;
    values <- local_values3 source source_field source_shift source_shape index_uniq blocks ;;
    let '(w0, w1, w2) := width in
    x <- lift (destination_coords destination face 0 w0) ;;
    y <- lift (destination_coords destination face 1 w1) ;;
    z <- lift (destination_coords destination face 2 w2) ;;
    data <- lift (clip (interpn METHOD [zzz; yyy; xxx] values [z; y; x]) values) ;;
    store_block field step block data
  else if (ndim source =? 2)%Z then
    flat0 <- lift (of_option IndexError (nth_error index_flat 0)) ;;
    xxx <- lift (source_coords source source_face 0 flat0) ;;
    flat1 <- lift (of_option IndexError (nth_error index_flat 1)) ;;
    yyy <- lift (source_coords source source_face 1 flat1) ;;
    values <- local_values2 source source_field source_shift source_shape index_uniq blocks ;;
    let '(w0, w1, _) := width in
    x <- lift (destination_coords destination face 0 w0) ;;
    y <- lift (destination_coords destination face 1 w1) ;;
    data <- lift (clip (interpn METHOD [yyy; xxx] values [y; x]) values) ;;
    store_block field step block (newaxis data)
  else
    ret tt.

(** The body of the loop over the destination blocks. *)
Definition interp_block (destination source : SimulationData) (flows : list flow)
    (it : nat * (nat * (nat * nat * nat) * bbox)) : M unit :=
  let '(step, (block, width, box)) := it in
  let blocks := blocks_from_bbox source box in
  index_uniq <- lift (index_unique source blocks) ;;
  index_flat <- lift (index_flatten source (Some blocks)) ;;
  forM_ flows (interp_field destination source step block width blocks index_uniq index_flat) ;;
  perform Progress.

(** The creation of the datasets, for one field. *)
Definition create_field (destination : SimulationData) (index : Index) (fl : flow) : M unit :=
  let '(field, (location, _, _)) := fl in
  shp <- lift (dict_item location (shapes destination)) ;;
  perform (CreateDataset field shp) ;;
  output <- gets st_output ;;
  set_output (dict_set field (numpy_empty (index_size index :: tl shp)) output).

(** The body of [interp_blocks], given the objects its arguments refer to. *)
Definition interp_blocks_body (destination source : SimulationData) (flows : list flow)
    (nofile : bool) : M (list (string * ndarray)) :=
  let index := from_simple (numProcs destination) in
  let widths := mesh_width index (axisNumProcs destination) in
  if negb (ndim destination =? ndim source)%Z then
    raise (LibraryError "Incompatible source and destination grids for interpolation!")
  else
    with_ (OpenFile (blkPath source) "r" [("force", true)]) (CloseFile (blkPath source))
    (with_ (OpenFile (blkPath destination) "w-" [("clean", true); ("nofile", nofile)])
           (CloseFile (blkPath destination))
    (with_ (BarEnter (index_size index)) BarExit
      (set_output [] ;;
       forM_ flows (create_field destination index) ;;
       boxes <- lift (take_rows (bndboxes destination) (index_range index)) ;;
       forM_ (enumerate (zip3 (index_range index) widths boxes))
             (interp_block destination source flows) ;;
       gets st_output))).

Definition interp_blocks (nofile : bool) : M (list (string * ndarray)) :=
  destination <- gets st_destination ;;
  source <- gets st_source ;;
  flows <- gets st_flows ;;
  interp_blocks_body destination source flows nofile.
End Engine.

(** ** Construction of a destination topology: [SimulationData.from_options] *)

(** [Coords]: per axis the coordinates of the grid, or [None]. *)
Definition Coords : Type := (option (list Q) * option (list Q) * option (list Q))%type.

(** [a[0]] and [a[-1]] of an optional coordinate array. *)
Definition coord_first (a : option (list Q)) : result Q :=
  match a with
  | None => Raise TypeError
  | Some l => of_option IndexError (hd_error l)
  end.

Definition coord_last (a : option (list Q)) : result Q :=
  match a with
  | None => Raise TypeError
  | Some l => of_option IndexError (hd_error (rev l))
  end.

Section FromOptions.
(** [BNAME], the default block file name of the configuration. *)
Variable BNAME : string.

(** [os.path.join]. *)
Variable path_join : string -> string -> string.

(** The helpers of [support.grid] and [library.create_grid], which are not
    part of this module: [axisMesh] (whose second component is not used
    here), [read_coords], [get_shapes], [get_grids] and [get_blocks]. *)
Variable Mesh : Type.
Variable axisMesh : nat -> nat -> nat -> list nat * Mesh.
Variable read_coords : string -> Z -> result Coords.
Variable get_shapes : Z -> nat * nat * nat -> nat * nat * nat -> list (string * list nat).
Variable get_grids :
  Coords -> Z -> nat * nat * nat -> nat * nat * nat -> list (string * axis_grids).
Variable get_blocks :
  Coords -> Z -> nat * nat * nat -> nat * nat * nat -> list center * list bbox.

Definition from_options (block : option string) (coords : option Coords) (ndim : Z)
    (path : string) (procs : nat * nat * nat) (sizes : nat * nat * nat)
    : result SimulationData :=
  let blockfile := path_join path (match block with None => BNAME | Some b => b end) in
  let '(p0, p1, p2) := procs in
  let '(axisNumProcs, _) := axisMesh p0 p1 p2 in
  let numProcs := fold_right Nat.mul 1 axisNumProcs in
  rbind (match coords with None => read_coords path ndim | Some c => Ok c end) (fun coords =>
  let '(c0, c1, c2) := coords in
  rbind (coord_first c0) (fun x0 =>
  rbind (coord_last c0) (fun x1 =>
  rbind (coord_first c1) (fun y0 =>
  rbind (coord_last c1) (fun y1 =>
  rbind (if (ndim =? 2)%Z then Ok (0%Q, 1%Q)
         else rbind (coord_first c2) (fun z0 =>
              rbind (coord_last c2) (fun z1 => Ok (z0, z1)))) (fun zrange =>
  let ranges := [(x0, x1); (y0, y1); zrange] in
  let shapes := get_shapes ndim procs sizes in
  let grids := get_grids coords ndim procs sizes in
  let '(centers, boxes) := get_blocks coords ndim procs sizes in
  Ok (mkSimulationData axisNumProcs blockfile boxes centers grids ndim numProcs
                       ranges shapes sizes))))))).
End FromOptions.

(** Modelled from the spec: [axisMesh] of [support.grid] is missing.  The
    topology's [axisProcessCounts] are the number of blocks along each axis
    of the requested decomposition, and [numBlocks] is their product; the
    block mesh that comes with them is left out. *)
Definition axisMesh_requested (i j k : nat) : list nat * unit := ([i; j; k], tt).

(** ** Specification predicates *)

(** The closed interval test of the overlap query, on every axis that both
    boxes have: [overlap(l1,h1,l2,h2) = !(h2 < l1 || l2 > h1)]. *)
Definition axes_overlap (bb box : bbox) : Prop :=
  forall axis l1 h1 l2 h2,
    nth_error bb axis = Some (l1, h1) ->
    nth_error box axis = Some (l2, h2) ->
    ~ (h2 < l1 \/ l2 > h1)%Q.

(** The distinct values of a list of numbers (first occurrences dropped when
    the value occurs again later), and how many there are. *)
Fixpoint distinct (l : list Q) : list Q :=
  match l with
  | [] => []
  | x :: l' => if existsb (Qeq_bool x) l' then distinct l' else x :: distinct l'
  end.

Definition distinct_count (l : list Q) : nat := length (distinct l).

(** The face shift in the words of the specification: one along the axis
    whose face-centered location is [face], zero along the others. *)
Definition spec_shift (F0 F1 F2 face : string) (axis : nat) : nat :=
  if String.eqb face (nth axis [F0; F1; F2] face) then
    if axis <? 3 then 1 else 0
  else 0.

(** What a computation leaves behind: the caller's objects as they were, and
    the operations logged before followed by new ones. *)
Definition frame (s s' : state) (new : list event) : Prop :=
  st_destination s' = st_destination s
  /\ st_source s' = st_source s
  /\ st_flows s' = st_flows s
  /\ st_io s' = (st_io s ++ new)%list.

(** A specification of a computation [m]: started with a local [output]
    satisfying [I], every run keeps the caller's objects, logs only
    operations that satisfy [P], leaves an [output] satisfying [I], and
    returns, when it does not raise, a value satisfying [Q]. *)
Definition run {A : Type} (P : event -> Prop) (I : list (string * ndarray) -> Prop)
    (Q : A -> Prop) (m : M A) : Prop :=
  forall s,
    I (st_output s) ->
    exists new,
      frame s (fst (m s)) new
      /\ Forall P new
      /\ I (st_output (fst (m s)))
      /\ (forall a, snd (m s) = Ok a -> Q a).

Definition is_write (ev : event) : Prop :=
  match ev with
  | WritePartial _ _ _ => True
  | _ => False
  end.

(** A 2 x 3 x 1 decomposition of the unit cube into blocks of 8 x 8 x 1 cells. *)
Definition grid_2x3x1 : SimulationData :=
  mkSimulationData [2; 3; 1] "source"
    [ [(0, 1#2); (0, 1#3); (0, 1)];     [(1#2, 1); (0, 1#3); (0, 1)];
      [(0, 1#2); (1#3, 2#3); (0, 1)];   [(1#2, 1); (1#3, 2#3); (0, 1)];
      [(0, 1#2); (2#3, 1); (0, 1)];     [(1#2, 1); (2#3, 1); (0, 1)] ]%Q
    [ (1#4, 1#6, 1#2); (3#4, 1#6, 1#2);
      (1#4, 1#2, 1#2); (3#4, 1#2, 1#2);
      (1#4, 5#6, 1#2); (3#4, 5#6, 1#2) ]%Q
    [] 3 6 [(0, 1); (0, 1); (0, 1)]%Q [] (8, 8, 1).

(** The reassembly loop as a function of what is read for each block:
    [read b] is the array stored for source block [b], [place] one turn of
    the loop. *)
Fixpoint gather (place : ndarray -> list nat -> ndarray -> result ndarray)
    (read : nat -> result ndarray) (pairs : list (list nat * nat)) (values : ndarray)
    : result ndarray :=
  match pairs with
  | [] => Ok values
  | (ijk, b) :: rest =>
      rbind (read b) (fun data =>
      rbind (place values ijk data) (fun values' =>
      gather place read rest values'))
  end.

(** [x] lies within [[vmin, vmax]]. *)
Definition in_range (vmin vmax x : double) : Prop :=
  dle vmin x /\ dle x vmax.

(** What the clip to [[vmin, vmax]] leaves: NaN, or a value within the
    range. *)
Definition clipped_value (vmin vmax x : double) : Prop :=
  x = NaN \/ in_range vmin vmax x.

Section LocalArray.
Variables FACES_0 FACES_1 FACES_2 : string.
Variable uninit : list nat -> list nat -> double.
Variable stored : string -> string -> result ndarray.

(** The local source array of a destination block with bounding box [box]:
    the array [values] that [interp_blocks] assembles from the source blocks
    that [blocks_from_bbox] returns for [box]. *)
Definition local_array (source : SimulationData) (box : bbox)
    (source_field source_face : string) : result ndarray :=
  let blocks := blocks_from_bbox source box in
  let source_shift := face_shift FACES_0 FACES_1 FACES_2 source_face in
  rbind (index_unique source blocks) (fun index_uniq =>
  rbind (face_flat_shape FACES_0 FACES_1 FACES_2 source (Some blocks) source_face)
        (fun source_shape =>
  if (ndim source =? 3)%Z then
    gather (place3 (sizes source) source_shift)
           (fun b => block_data stored (blkPath source) source_field [b])
           (combine index_uniq blocks)
           (numpy_empty uninit (rev source_shape))
  else
    gather (place2 (sizes source) source_shift)
           (fun b => block_data stored (blkPath source) source_field [b; 0])
           (combine index_uniq blocks)
           (numpy_empty uninit (rev (firstn 2 source_shape))))).

(** [vmin] and [vmax] are the least and greatest value of the local source
    array of destination block [block], for a mapping of [field]. *)
Definition local_range (destination source : SimulationData) (flows : list flow)
    (field : string) (block : nat) (vmin vmax : double) : Prop :=
  exists box face source_field source_face values,
    nth_error (bndboxes destination) block = Some box
    /\ In (field, (face, source_field, source_face)) flows
    /\ local_array source box source_field source_face = Ok values
    /\ array_min values = Ok vmin
    /\ array_max values = Ok vmax.


(** A write to the output storage holds NaN and values within the local
    range only, and happens in two or three dimensions only. *)
Definition clipped_write (destination source : SimulationData) (flows : list flow)
    (ev : event) : Prop :=
  match ev with
  | WritePartial field data block =>
      (ndim source = 2%Z \/ ndim source = 3%Z)
      /\ exists vmin vmax,
           local_range destination source flows field block vmin vmax
           /\ forall idx, clipped_value vmin vmax (item data idx)
  | _ => True
  end.

(** Every element of the arrays of [output] is as [numpy.empty] left it, or
    belongs to the row of a destination block of the worker and is NaN or
    lies within the local range of that block. *)
Definition clipped_output (index : Index) (destination source : SimulationData)
    (flows : list flow) (output : list (string * ndarray)) : Prop :=
  forall field arr,
    dict_get field output = Some arr ->
    forall idx,
      item arr idx = uninit (shape arr) idx
      \/ (ndim source = 2%Z \/ ndim source = 3%Z)
         /\ exists step rest block vmin vmax,
              idx = step :: rest
              /\ nth_error (index_range index) step = Some block
              /\ local_range destination source flows field block vmin vmax
              /\ clipped_value vmin vmax (item arr idx).
End LocalArray.

(** [m] returns normally from every state. *)
Definition returns {A : Type} (m : M A) : Prop :=
  forall s, exists a, snd (m s) = Ok a.

(** The layout of the local source array, in the words of the
    specification: the block with logical index (i, j, k) starts at the
    offset (i, j, k) times the block size and extends over one block size
    plus the face shift; the array axes are in (z, y, x) order, or (y, x) in
    two dimensions. *)
Definition offset3 (sz : nat * nat * nat) (ijk : list nat) : list nat :=
  let '(sz0, sz1, sz2) := sz in
  match ijk with
  | [i; j; k] => [k * sz2; j * sz1; i * sz0]
  | _ => []
  end.

Definition extent3 (sz sh : nat * nat * nat) : list nat :=
  let '(sz0, sz1, sz2) := sz in
  let '(sh0, sh1, sh2) := sh in
  [sz2 + sh2; sz1 + sh1; sz0 + sh0].

Definition offset2 (sz : nat * nat * nat) (ijk : list nat) : list nat :=
  let '(sz0, sz1, _) := sz in
  match ijk with
  | [i; j; _] => [j * sz1; i * sz0]
  | _ => []
  end.

Definition extent2 (sz sh : nat * nat * nat) : list nat :=
  let '(sz0, sz1, _) := sz in
  let '(sh0, sh1, _) := sh in
  [sz1 + sh1; sz0 + sh0].

(** The slices that the loop assigns for a logical index. *)
Definition slices_of3 (sz sh : nat * nat * nat) (ijk : list nat) : list (nat * nat) :=
  match ijk with
  | [i; j; k] => slices3 sz sh i j k
  | _ => []
  end.

Definition slices_of2 (sz sh : nat * nat * nat) (ijk : list nat) : list (nat * nat) :=
  match ijk with
  | [i; j; _] => slices2 sz sh i j
  | _ => []
  end.

Definition add_offsets (origin off : list nat) : list nat :=
  map (fun '(o, d) => o + d) (combine origin off).

(** [idx] is an index of an array of shape [shp]. *)
Definition within (idx shp : list nat) : Prop := Forall2 lt idx shp.

(** The block whose array is [data] occupies the part of [values] that
    starts at [origin] and has the extent [extent]: that part lies inside
    [values], and each of its elements holds the block's element at the same
    relative position, unless the slices of a block placed later ([later])
    contain it too. *)
Definition occupies (values : ndarray) (later : list (list (nat * nat)))
    (origin extent : list nat) (data : ndarray) : Prop :=
  forall off,
    within off extent ->
    within (add_offsets origin off) (shape values)
    /\ ((forall slices, In slices later ->
           in_slices (shape values) (add_offsets origin off) slices = false) ->
        item values (add_offsets origin off) = item data (broadcast_index (shape data) off)).

(** The local array [values] of shape [shp] is reassembled from the arrays
    [read b] of the blocks [blocks], each at the place of its logical index. *)
Definition reassembled (values : ndarray) (shp : list nat) (blocks : list nat)
    (index_uniq : list (list nat)) (read : nat -> result ndarray)
    (slices_of : list nat -> list (nat * nat)) (offset_of : list nat -> list nat)
    (extent : list nat) : Prop :=
  shape values = shp
  /\ forall p b,
       nth_error blocks p = Some b ->
       exists ijk data,
         nth_error index_uniq p = Some ijk
         /\ length ijk = 3
         /\ read b = Ok data
         /\ occupies values (map slices_of (skipn (S p) index_uniq))
                     (offset_of ijk) extent data.

(** ** A small scenario

    A coarse grid of two blocks of 2 x 1 x 1 cells side by side along x, and
    a fine grid of one block of 4 x 1 x 1 cells over the same domain. *)
Definition coarse : SimulationData :=
  mkSimulationData [2; 1; 1] "coarse"
    [ [(0, 1); (0, 1); (0, 1)]; [(1, 2); (0, 1); (0, 1)] ]%Q
    [ (1#2, 1#2, 1#2); (3#2, 1#2, 1#2) ]%Q
    [ ("center", [ [[1#4; 3#4]; [5#4; 7#4]]; [[1#2]]; [[1#2]] ]%Q) ]
    3 2 [(0, 2); (0, 1); (0, 1)]%Q
    [ ("center", [2; 1; 1; 2]) ]
    (2, 1, 1).

Definition fine : SimulationData :=
  mkSimulationData [1; 1; 1] "fine"
    [ [(0, 2); (0, 1); (0, 1)] ]%Q
    [ (1, 1#2, 1#2) ]%Q
    [ ("center", [ [[1#4; 3#4; 5#4; 7#4]]; [[1#2]]; [[1#2]] ]%Q) ]
    3 1 [(0, 2); (0, 1); (0, 1)]%Q
    [ ("center", [1; 1; 1; 4]) ]
    (4, 1, 1).

Definition set_ndim (n : Z) (sim : SimulationData) : SimulationData :=
  mkSimulationData (axisNumProcs sim) (blkPath sim) (bndboxes sim) (centers sim)
    (grids sim) n (numProcs sim) (ranges sim) (shapes sim) (sizes sim).

Definition example_flows : list flow := [("dens", ("center", "dens", "center"))].

(** The coarse file stores the field "dens" with the values 1, 2 in the
    first block and 3, 4 in the second. *)
Definition example_stored (path field : string) : result ndarray :=
  if String.eqb path "coarse" && String.eqb field "dens" then
    Ok (mkArray [2; 1; 1; 2]
          (fun idx =>
             match idx with
             | [b; _; _; i] => Finite (inject_Z (Z.of_nat (2 * b + i + 1)))
             | _ => Finite 0
             end))
  else Raise (KeyError field).

(** An interpolation routine that overshoots: -5, 5, 15, 25, ... along the
    last axis. *)
Definition example_interpn (method : string) (points : list (list Q)) (values : ndarray)
    (xi : list (list Q)) : result ndarray :=
  Ok (mkArray (map (@length Q) xi)
        (fun idx => Finite (10 * inject_Z (Z.of_nat (last idx 0%nat)) - 5))).


Definition example_from_simple (tasks : nat) : Index := mkIndex (seq 0 tasks) tasks.

Definition example_mesh_width (index : Index) (axis : list nat) : list (nat * nat * nat) :=
  map (fun _ => (0, 0, 0)) (index_range index).

Definition example_uninit (shp idx : list nat) : double := Finite 0.

Definition example_io (history : list event) (ev : event) : bool := false.

Definition example_run (s : state) : state * result (list (string * ndarray)) :=
  interp_blocks "facex" "facey" "facez" "linear" example_from_simple example_mesh_width
    example_interpn example_uninit example_stored example_io false s.


(** [u] lists the distinct values of [l] in increasing order. *)
Definition unique_of (u l : list Q) : Prop :=
  StronglySorted Qlt u /\ forall v, InA Qeq v u <-> InA Qeq v l.

(** Two centers are the same point. *)
Definition same_center (c c' : center) : Prop :=
  (center_axis c 0 == center_axis c' 0
   /\ center_axis c 1 == center_axis c' 1
   /\ center_axis c 2 == center_axis c' 2)%Q.

(** Position [i] of [u] holds the value [v]. *)
Definition holds_at (u : list Q) (i : nat) (v : Q) : Prop :=
  exists y, nth_error u i = Some y /\ (y == v)%Q.

(** ** The log of a run *)

(** Nothing at all, or [enter], then operations described by [inner], then
    [exit]. *)
Definition bracketed (enter exit : event) (inner : list event -> Prop)
    (new : list event) : Prop :=
  new = [] \/ exists mid, new = enter :: mid ++ [exit] /\ inner mid.

Definition is_create (ev : event) : Prop :=
  match ev with
  | CreateDataset _ _ => True
  | _ => False
  end.

Definition is_work (ev : event) : Prop :=
  match ev with
  | ReadDataset _ _ | WritePartial _ _ _ | Progress => True
  | _ => False
  end.

(** A dataset is created for a field of [flows], with the shape that the
    destination gives for the field's location. *)
Definition created (destination : SimulationData) (flows : list flow) (ev : event) : Prop :=
  match ev with
  | CreateDataset field shp =>
      exists location source_field source_face,
        In (field, (location, source_field, source_face)) flows
        /\ dict_get location (shapes destination) = Some shp
  | _ => False
  end.

(** The operations of the loop over the blocks: a read is of a source field
    of [flows] in the source file; a write is for a block of the worker's
    range and a field of [flows], and has the shape of one block of the
    field's dataset; the rest are progress notifications. *)
Definition worked (index : Index) (destination source : SimulationData)
    (flows : list flow) (ev : event) : Prop :=
  match ev with
  | ReadDataset path source_field =>
      path = blkPath source
      /\ exists field face source_face, In (field, (face, source_field, source_face)) flows
  | WritePartial field data block =>
      In block (index_range index)
      /\ exists location source_field source_face shp,
           In (field, (location, source_field, source_face)) flows
           /\ dict_get location (shapes destination) = Some shp
           /\ shape data = tl shp
  | Progress => True
  | _ => False
  end.

(** Every array of [output] belongs to a field of [flows] and has one row
    per block of the worker, each of the shape of one block of the field's
    dataset. *)
Definition shaped_output (index : Index) (destination : SimulationData)
    (flows : list flow) (output : list (string * ndarray)) : Prop :=
  forall field arr,
    dict_get field output = Some arr ->
    exists location source_field source_face shp,
      In (field, (location, source_field, source_face)) flows
      /\ dict_get location (shapes destination) = Some shp
      /\ shape arr = index_size index :: tl shp.

(** The datasets are declared first, then the blocks are worked on. *)
Definition schema_then_work (P_create P_work : event -> Prop) (mid : list event) : Prop :=
  exists creates work,
    mid = creates ++ work /\ Forall P_create creates /\ Forall P_work work.

(** The log of a run of [interp_blocks]: the source file, the destination
    file and the progress bar are entered in this order and left in the
    reverse order. *)
Definition interp_log (index : Index) (destination source : SimulationData)
    (nofile : bool) (P_create P_work : event -> Prop) (new : list event) : Prop :=
  bracketed (OpenFile (blkPath source) "r" [("force", true)]) (CloseFile (blkPath source))
    (bracketed (OpenFile (blkPath destination) "w-" [("clean", true); ("nofile", nofile)])
               (CloseFile (blkPath destination))
       (bracketed (BarEnter (index_size index)) BarExit
          (schema_then_work P_create P_work)))
    new.

(** Where a logged storage operation comes from: see [created] and [worked]. *)
Definition sourced (index : Index) (destination source : SimulationData)
    (flows : list flow) (ev : event) : Prop :=
  match ev with
  | CreateDataset _ _ => created destination flows ev
  | ReadDataset _ _ | WritePartial _ _ _ => worked index destination source flows ev
  | _ => True
  end.

(** The dataset creation logged for a field mapping whose destination
    location has a shape. *)
Definition declared (destination : SimulationData) (fl : flow) : list event :=
  let '(field, (location, _, _)) := fl in
  match dict_get location (shapes destination) with
  | Some shp => [CreateDataset field shp]
  | None => []
  end.

(** The destination location of a field mapping. *)
Definition flow_location (fl : flow) : string := fst (fst (snd fl)).

(** Counting the logged operations of one kind. *)
Definition count_if (f : event -> bool) (l : list event) : nat := length (filter f l).

Definition is_createb (ev : event) : bool :=
  match ev with
  | CreateDataset _ _ => true
  | _ => false
  end.

Definition is_writeb (ev : event) : bool :=
  match ev with
  | WritePartial _ _ _ => true
  | _ => false
  end.

Definition is_progressb (ev : event) : bool :=
  match ev with
  | Progress => true
  | _ => false
  end.

(** When [m] returns, it has logged [n] operations that [f] selects. *)
Definition tally {A : Type} (f : event -> bool) (n : nat) (m : M A) : Prop :=
  forall s a,
    snd (m s) = Ok a ->
    exists new, st_io (fst (m s)) = st_io s ++ new /\ count_if f new = n.

(** Whether fields are interpolated for a dimensionality. *)
Definition interpolates (nd : Z) : nat :=
  if (nd =? 3)%Z then 1 else if (nd =? 2)%Z then 1 else 0.

(** Field mappings for a cell-centered and a face-centered field. *)
Definition example_flows2 : list flow :=
  [("dens", ("center", "dens", "center")); ("velx", ("facex", "velx", "facex"))].

(** [output] has an array for every field of [flows]. *)
Definition has_fields (flows : list flow) (output : list (string * ndarray)) : Prop :=
  forall field, In field (map fst flows) -> dict_get field output <> None.

(** What [index_flatten] returns for one axis: the positions, among the
    unique centers of all the blocks, of the centers of the selected blocks
    [rows], in increasing order and as many as the extent [e] of the
    selection. *)
Definition flat_axis (self : SimulationData) (rows : list center) (axis : nat)
    (flat : list nat) (e : nat) : Prop :=
  StronglySorted lt flat
  /\ length flat = e
  /\ forall i,
       In i flat
       <-> exists c,
             In c rows
             /\ where_first (numpy_unique (map (fun c' => center_axis c' axis) (centers self)))
                            (center_axis c axis) = Some i.

(** * Properties *)

(** ** Results and comprehensions *)

Lemma rbind_Ok {A B : Type} (r : result A) (k : A -> result B) (b : B) :
  rbind r k = Ok b -> exists a, r = Ok a /\ k a = Ok b.
Proof.
  destruct r as [e | a]; simpl; intros H.
  - discriminate H.
  - exists a. split; [reflexivity | exact H].
Qed.

Lemma mapM_Ok_Forall2 {A B : Type} (f : A -> result B) (l : list A) (bs : list B) :
  mapM f l = Ok bs -> Forall2 (fun a b => f a = Ok b) l bs.
Proof.
  revert bs. induction l as [| a l IH]; simpl; intros bs H.
  - inversion H. constructor.
  - apply rbind_Ok in H. destruct H as [b [Hb H]].
    apply rbind_Ok in H. destruct H as [bs' [Hbs H]].
    inversion H; subst. constructor; auto.
Qed.

Lemma mapM_total {A B : Type} (f : A -> result B) (l : list A) :
  Forall (fun a => exists b, f a = Ok b) l -> exists bs, mapM f l = Ok bs.
Proof.
  induction 1 as [| a l [b Hb] _ [bs Hbs]]; simpl.
  - exists []. reflexivity.
  - exists (b :: bs). rewrite Hb. simpl. rewrite Hbs. reflexivity.
Qed.

Lemma mapM_length {A B : Type} (f : A -> result B) (l : list A) (bs : list B) :
  mapM f l = Ok bs -> length bs = length l.
Proof.
  intros H. apply mapM_Ok_Forall2 in H. symmetry. eapply Forall2_length; eauto.
Qed.

(** ** The overlap query *)

Lemma Qlt_bool_iff (x y : Q) : Qlt_bool x y = true <-> (x < y)%Q.
Proof.
  unfold Qlt_bool. rewrite Qlt_alt. destruct (x ?= y)%Q; split; congruence.
Qed.

Lemma overlaps_iff (ll lh hl hh : Q) :
  overlaps ll lh hl hh = true <-> ~ (hh < ll \/ hl > lh)%Q.
Proof.
  unfold overlaps, Qgt_bool.
  rewrite negb_true_iff, orb_false_iff.
  rewrite <- !not_true_iff_false, !Qlt_bool_iff. tauto.
Qed.

Lemma forallb_combine_overlap (bb box : bbox) :
  forallb (fun '((ll, lh), (hl, hh)) => overlaps ll lh hl hh) (combine bb box) = true
  <-> axes_overlap bb box.
Proof.
  unfold axes_overlap. revert box.
  induction bb as [| [l1 h1] bb IH]; intros box; simpl.
  - split; [| reflexivity]. intros _ axis ? ? ? ? H. destruct axis; discriminate H.
  - destruct box as [| [l2 h2] box]; simpl.
    + split; [| reflexivity]. intros _ axis ? ? ? ? _ H. destruct axis; discriminate H.
    + rewrite andb_true_iff, overlaps_iff, IH. split.
      * intros [H0 Hs] axis a b c d Ha Hb. destruct axis as [| axis]; simpl in Ha, Hb.
        -- inversion Ha; inversion Hb; subst. exact H0.
        -- eapply Hs; eauto.
      * intros H. split.
        -- apply (H 0); reflexivity.
        -- intros axis a b c d Ha Hb. apply (H (S axis)); assumption.
Qed.

Lemma in_enumerate_from {A : Type} (l : list A) (start n : nat) (a : A) :
  In (n, a) (enumerate_from start l) <-> start <= n /\ nth_error l (n - start) = Some a.
Proof.
  revert start. induction l as [| x l IH]; intros start; simpl.
  - split; [tauto |]. intros [_ H]. destruct (n - start); discriminate H.
  - rewrite IH. split.
    + intros [H | [Hle H]].
      * inversion H; subst. rewrite Nat.sub_diag. auto.
      * split; [lia |]. replace (n - start) with (S (n - S start)) by lia. exact H.
    + intros [Hle H]. destruct (Nat.eq_dec start n) as [-> | Hne].
      * rewrite Nat.sub_diag in H. simpl in H. inversion H. auto.
      * right. split; [lia |].
        replace (n - start) with (S (n - S start)) in H by lia. exact H.
Qed.

Lemma filter_enumerate_sorted {A : Type} (f : nat * A -> bool) (l : list A) (start : nat) :
  StronglySorted lt (map fst (filter f (enumerate_from start l)))
  /\ Forall (fun b => start <= b < start + length l)
            (map fst (filter f (enumerate_from start l))).
Proof.
  revert start. induction l as [| x l IH]; intros start; simpl.
  - split; constructor.
  - destruct (IH (S start)) as [Hs Hb].
    assert (Hb' : Forall (fun b => start <= b < start + S (length l))
                         (map fst (filter f (enumerate_from (S start) l)))).
    { eapply Forall_impl; [| exact Hb]. simpl. intros; lia. }
    destruct (f (start, x)); simpl.
    + split.
      * constructor; [exact Hs |].
        eapply Forall_impl; [| exact Hb]. simpl. intros; lia.
      * constructor; [lia | exact Hb'].
    + split; assumption.
Qed.

Lemma StronglySorted_lt_NoDup (l : list nat) : StronglySorted lt l -> NoDup l.
Proof.
  induction 1 as [| a l _ IH Hall]; constructor; [| exact IH].
  intros Hin. rewrite Forall_forall in Hall. specialize (Hall a Hin). lia.
Qed.

(** C2. [blocks_from_bbox] returns exactly the indices of the blocks whose
    bounding box overlaps the query box on every axis under the closed test
    [!(h2 < l1 || l2 > h1)]; a block whose interval only touches the query
    interval ([l1 <= h2] and [l2 <= h1] on every axis) is therefore returned. *)
Theorem blocks_from_bbox_exact (self : SimulationData) (box : bbox) (blk : nat) :
  (In blk (blocks_from_bbox self box)
   <-> exists bb, nth_error (bndboxes self) blk = Some bb /\ axes_overlap bb box)
  /\ (forall bb,
        nth_error (bndboxes self) blk = Some bb ->
        (forall axis l1 h1 l2 h2,
            nth_error bb axis = Some (l1, h1) ->
            nth_error box axis = Some (l2, h2) ->
            (l1 <= h2 /\ l2 <= h1)%Q) ->
        In blk (blocks_from_bbox self box)).
Proof.
  assert (Hiff : In blk (blocks_from_bbox self box)
                 <-> exists bb, nth_error (bndboxes self) blk = Some bb /\ axes_overlap bb box).
  { unfold blocks_from_bbox, enumerate. rewrite in_map_iff. split.
    - intros [[n bb] [Hn Hin]]. simpl in Hn. subst n.
      apply filter_In in Hin. destruct Hin as [Hin Hf].
      apply in_enumerate_from in Hin. rewrite Nat.sub_0_r in Hin.
      exists bb. split; [tauto |]. apply forallb_combine_overlap. exact Hf.
    - intros [bb [Hnth Hov]]. exists (blk, bb). split; [reflexivity |].
      apply filter_In. split.
      + apply in_enumerate_from. rewrite Nat.sub_0_r. split; [lia | exact Hnth].
      + apply forallb_combine_overlap. exact Hov. }
  split; [exact Hiff |].
  intros bb Hnth Htouch. apply Hiff. exists bb. split; [exact Hnth |].
  intros axis l1 h1 l2 h2 Ha Hb [H | H];
    destruct (Htouch axis l1 h1 l2 h2 Ha Hb) as [H1 H2].
  - apply (Qlt_not_le _ _ H). exact H1.
  - apply (Qlt_not_le _ _ H). exact H2.
Qed.

Lemma blocks_from_bbox_lt (self : SimulationData) (box : bbox) :
  Forall (fun blk => blk < length (bndboxes self)) (blocks_from_bbox self box).
Proof.
  unfold blocks_from_bbox, enumerate.
  match goal with
  | |- context [filter ?f _] =>
      destruct (filter_enumerate_sorted f (bndboxes self) 0) as [_ Hb]
  end.
  eapply Forall_impl; [| exact Hb]. simpl. intros a [_ Ha]. exact Ha.
Qed.

(** C10. The list returned by [blocks_from_bbox] is strictly increasing, has
    no duplicates, and each of its elements is an index of a stored bounding
    box. *)
Theorem blocks_from_bbox_increasing (self : SimulationData) (box : bbox) :
  StronglySorted lt (blocks_from_bbox self box)
  /\ NoDup (blocks_from_bbox self box)
  /\ Forall (fun blk => blk < length (bndboxes self)) (blocks_from_bbox self box).
Proof.
  unfold blocks_from_bbox, enumerate.
  match goal with
  | |- context [filter ?f _] =>
      destruct (filter_enumerate_sorted f (bndboxes self) 0) as [Hs Hb]
  end.
  split; [exact Hs |]. split.
  - apply StronglySorted_lt_NoDup. exact Hs.
  - apply blocks_from_bbox_lt.
Qed.

(** ** Dictionaries *)

Lemma dict_get_set {V : Type} (k k' : string) (v : V) (d : list (string * V)) :
  dict_get k (dict_set k' v d) = if String.eqb k k' then Some v else dict_get k d.
Proof.
  induction d as [| [k0 v0] d IH]; simpl.
  - reflexivity.
  - destruct (String.eqb k' k0) eqn:E0; simpl.
    + apply String.eqb_eq in E0. subst k0.
      destruct (String.eqb k k'); reflexivity.
    + destruct (String.eqb k k0) eqn:E1.
      * apply String.eqb_eq in E1. subst k0.
        rewrite String.eqb_sym in E0. rewrite E0. reflexivity.
      * exact IH.
Qed.

(** ** Face shifts *)

Section FaceShift.
Variables FACES_0 FACES_1 FACES_2 : string.

Lemma face_shift_cases (face : string) :
  face_shift FACES_0 FACES_1 FACES_2 face =
    if String.eqb face FACES_2 then (0, 0, 1)
    else if String.eqb face FACES_1 then (0, 1, 0)
    else if String.eqb face FACES_0 then (1, 0, 0)
    else (0, 0, 0).
Proof.
  unfold face_shift, dict_of_items. cbn [fold_left fst snd].
  rewrite !dict_get_set. cbn [dict_get].
  destruct (String.eqb face FACES_2); [reflexivity |].
  destruct (String.eqb face FACES_1); [reflexivity |].
  destruct (String.eqb face FACES_0); reflexivity.
Qed.

Lemma face_shift_spec_shift (face : string) :
  NoDup [FACES_0; FACES_1; FACES_2] ->
  face_shift FACES_0 FACES_1 FACES_2 face =
    (spec_shift FACES_0 FACES_1 FACES_2 face 0,
     spec_shift FACES_0 FACES_1 FACES_2 face 1,
     spec_shift FACES_0 FACES_1 FACES_2 face 2).
Proof.
  intros Hnd. rewrite face_shift_cases. unfold spec_shift. simpl.
  inversion Hnd as [| ? ? H0 Hnd1]; subst.
  inversion Hnd1 as [| ? ? H1 _]; subst.
  simpl in H0, H1.
  destruct (String.eqb_spec face FACES_2) as [-> | N2].
  - destruct (String.eqb_spec FACES_2 FACES_1) as [E | _]; [exfalso; auto |].
    destruct (String.eqb_spec FACES_2 FACES_0) as [E | _]; [exfalso; auto |].
    reflexivity.
  - destruct (String.eqb_spec face FACES_1) as [-> | N1].
    + destruct (String.eqb_spec FACES_1 FACES_0) as [E | _]; [exfalso; auto |].
      reflexivity.
    + destruct (String.eqb_spec face FACES_0); reflexivity.
Qed.
End FaceShift.

(** C9. For every location name that is none of the three face-centered
    names (the cell-center name and any unknown name alike), [face_shift]
    returns (0, 0, 0). *)
Theorem face_shift_default (FACES_0 FACES_1 FACES_2 face : string) :
  face <> FACES_0 -> face <> FACES_1 -> face <> FACES_2 ->
  face_shift FACES_0 FACES_1 FACES_2 face = (0, 0, 0).
Proof.
  intros H0 H1 H2. rewrite face_shift_cases.
  apply String.eqb_neq in H0, H1, H2. rewrite H0, H1, H2. reflexivity.
Qed.

Lemma face_shift_default_witness :
  face_shift "facex" "facey" "facez" "center" = (0, 0, 0)
  /\ face_shift "facex" "facey" "facez" "vertex" = (0, 0, 0).
Proof.
  split; apply face_shift_default; discriminate.
Defined.

(** ** [numpy.unique] *)

Lemma insert_unique_InA (x y : Q) (l : list Q) :
  InA Qeq y (insert_unique Qcompare x l) <-> (y == x)%Q \/ InA Qeq y l.
Proof.
  induction l as [| z l IH]; simpl.
  - rewrite InA_cons. reflexivity.
  - destruct (Qcompare x z) eqn:E.
    + apply Qeq_alt in E. rewrite InA_cons. split; [tauto |].
      intros [H | H]; [| exact H]. left. rewrite H. exact E.
    + rewrite InA_cons. reflexivity.
    + rewrite !InA_cons, IH. tauto.
Qed.

Lemma insert_unique_Forall {A : Type} (cmp : A -> A -> comparison) (P : A -> Prop)
    (x : A) (l : list A) :
  P x -> Forall P l -> Forall P (insert_unique cmp x l).
Proof.
  intros Hx Hl. induction Hl as [| z l Hz Hl IH]; simpl.
  - constructor; [exact Hx | constructor].
  - destruct (cmp x z); repeat constructor; assumption.
Qed.

Lemma insert_unique_sorted (x : Q) (l : list Q) :
  StronglySorted Qlt l -> StronglySorted Qlt (insert_unique Qcompare x l).
Proof.
  induction 1 as [| z l Hs IH Hall]; simpl.
  - constructor; constructor.
  - destruct (Qcompare x z) eqn:E.
    + constructor; assumption.
    + apply Qlt_alt in E. constructor.
      * constructor; assumption.
      * constructor; [exact E |].
        eapply Forall_impl; [| exact Hall]. intros a Ha. eapply Qlt_trans; eauto.
    + apply Qgt_alt in E. constructor; [exact IH |].
      apply insert_unique_Forall; assumption.
Qed.

Lemma numpy_unique_sorted (l : list Q) : StronglySorted Qlt (numpy_unique l).
Proof.
  unfold numpy_unique, unique_by. induction l as [| x l IH]; simpl.
  - constructor.
  - apply insert_unique_sorted. exact IH.
Qed.

Lemma numpy_unique_InA (l : list Q) (y : Q) :
  InA Qeq y (numpy_unique l) <-> InA Qeq y l.
Proof.
  unfold numpy_unique, unique_by. induction l as [| x l IH]; simpl.
  - reflexivity.
  - rewrite insert_unique_InA, InA_cons, IH. reflexivity.
Qed.

Lemma sorted_NoDupA (l : list Q) : StronglySorted Qlt l -> NoDupA Qeq l.
Proof.
  induction 1 as [| z l Hs IH Hall]; constructor; [| exact IH].
  intros Hin. apply InA_alt in Hin. destruct Hin as [y [Hy Hin]].
  rewrite Forall_forall in Hall. specialize (Hall y Hin).
  rewrite Hy in Hall. exact (Qlt_irrefl _ Hall).
Qed.

Lemma existsb_Qeq_InA (x : Q) (l : list Q) :
  existsb (Qeq_bool x) l = true <-> InA Qeq x l.
Proof.
  induction l as [| z l IH]; simpl.
  - rewrite InA_nil. split; [discriminate | tauto].
  - rewrite orb_true_iff, InA_cons, IH, Qeq_bool_iff. reflexivity.
Qed.

Lemma distinct_InA (l : list Q) (y : Q) : InA Qeq y (distinct l) <-> InA Qeq y l.
Proof.
  induction l as [| x l IH]; simpl.
  - reflexivity.
  - destruct (existsb (Qeq_bool x) l) eqn:E.
    + apply existsb_Qeq_InA in E. rewrite InA_cons, IH. split; [tauto |].
      intros [H | H]; [| exact H]. rewrite H. exact E.
    + rewrite !InA_cons, IH. reflexivity.
Qed.

Lemma distinct_NoDupA (l : list Q) : NoDupA Qeq (distinct l).
Proof.
  induction l as [| x l IH]; simpl.
  - constructor.
  - destruct (existsb (Qeq_bool x) l) eqn:E; [exact IH |].
    constructor; [| exact IH].
    rewrite distinct_InA, <- existsb_Qeq_InA, E. discriminate.
Qed.

Lemma PermutationA_Qeq_length (l1 l2 : list Q) :
  PermutationA Qeq l1 l2 -> length l1 = length l2.
Proof.
  induction 1; simpl; congruence.
Qed.

(** The length of [numpy.unique(l)] is the number of distinct values of [l]. *)
Lemma numpy_unique_length (l : list Q) : length (numpy_unique l) = distinct_count l.
Proof.
  unfold distinct_count. apply PermutationA_Qeq_length.
  apply NoDupA_equivlistA_PermutationA.
  - exact Q_Setoid.
  - apply sorted_NoDupA, numpy_unique_sorted.
  - apply distinct_NoDupA.
  - intros y. rewrite numpy_unique_InA, distinct_InA. reflexivity.
Qed.

(** ** The flattened shape *)

(** C4. For every subset of blocks (or all the blocks) and every location
    name, [face_flat_shape] is, per axis, the number of distinct center
    coordinates of the subset along that axis times the block size plus the
    shift, where the shift is one along the axis whose face-centered name the
    location is and zero elsewhere -- the three face names being distinct.
    For 2 x 3 x 1 blocks of size (8, 8, 1) at the x face: (17, 24, 1). *)
Theorem face_flat_shape_extent (FACES_0 FACES_1 FACES_2 : string)
    (self : SimulationData) (blocks : option (list nat)) (face : string)
    (rows : list center) :
  NoDup [FACES_0; FACES_1; FACES_2] ->
  sliced_rows (centers self) blocks = Ok rows ->
  face_flat_shape FACES_0 FACES_1 FACES_2 self blocks face =
    Ok (map (fun axis =>
               distinct_count (map (fun c => center_axis c axis) rows)
               * nth axis (tuple3 (sizes self)) 0
               + spec_shift FACES_0 FACES_1 FACES_2 face axis)
            [0; 1; 2]).
Proof.
  intros Hnd Hrows.
  unfold face_flat_shape, extent_unique, centers_unique.
  rewrite Hrows. simpl.
  rewrite (face_shift_spec_shift _ _ _ face Hnd).
  rewrite !numpy_unique_length.
  destruct (sizes self) as [[s0 s1] s2]. reflexivity.
Qed.

Lemma face_flat_shape_extent_witness :
  face_flat_shape "facex" "facey" "facez" grid_2x3x1 None "facex" = Ok [17; 24; 1].
Proof.
  rewrite (face_flat_shape_extent "facex" "facey" "facez" grid_2x3x1 None "facex"
             (centers grid_2x3x1)).
  - reflexivity.
  - repeat constructor; simpl; intuition discriminate.
  - reflexivity.
Defined.

(** ** Construction from a requested grid *)

(** C6 (amended). When [from_options] builds a topology for dimensionality 2,
    the physical range of the third axis is (0, 1); the process counts are
    those [axisMesh] derives from the requested counts alone, whatever the
    dimensionality. *)
Theorem from_options_2d (BNAME : string) (path_join : string -> string -> string)
    (Mesh : Type) (axisMesh : nat -> nat -> nat -> list nat * Mesh)
    (read_coords : string -> Z -> result Coords)
    (get_shapes : Z -> nat * nat * nat -> nat * nat * nat -> list (string * list nat))
    (get_grids : Coords -> Z -> nat * nat * nat -> nat * nat * nat -> list (string * axis_grids))
    (get_blocks : Coords -> Z -> nat * nat * nat -> nat * nat * nat -> list center * list bbox)
    (block : option string) (coords : option Coords) (path : string)
    (p0 p1 p2 : nat) (sizes : nat * nat * nat) (sim : SimulationData) :
  from_options BNAME path_join Mesh axisMesh read_coords get_shapes get_grids get_blocks
               block coords 2 path (p0, p1, p2) sizes = Ok sim ->
  nth_error (ranges sim) 2 = Some (0, 1)%Q
  /\ axisNumProcs sim = fst (axisMesh p0 p1 p2)
  /\ forall ndim' sim',
       from_options BNAME path_join Mesh axisMesh read_coords get_shapes get_grids get_blocks
                    block coords ndim' path (p0, p1, p2) sizes = Ok sim' ->
       axisNumProcs sim' = axisNumProcs sim.
Proof.
  assert (Hcounts : forall nd sm,
             from_options BNAME path_join Mesh axisMesh read_coords get_shapes get_grids
                          get_blocks block coords nd path (p0, p1, p2) sizes = Ok sm ->
             axisNumProcs sm = fst (axisMesh p0 p1 p2)
             /\ (nd = 2%Z -> nth_error (ranges sm) 2 = Some (0, 1)%Q)).
  { intros nd sm H. unfold from_options in H.
    destruct (axisMesh p0 p1 p2) as [counts mesh].
    apply rbind_Ok in H. destruct H as [[[c0 c1] c2] [_ H]].
    do 4 (apply rbind_Ok in H; destruct H as [? [_ H]]).
    apply rbind_Ok in H. destruct H as [zr [Hz H]].
    destruct (get_blocks (c0, c1, c2) nd (p0, p1, p2) sizes) as [cs bs].
    inversion H; subst sm; simpl. split; [reflexivity |].
    intros ->. simpl in Hz. inversion Hz. reflexivity. }
  intros H. destruct (Hcounts _ _ H) as [Hc Hr].
  split; [auto |]. split; [exact Hc |].
  intros nd sm Hsm. destruct (Hcounts _ _ Hsm) as [Hc' _]. congruence.
Qed.

Lemma from_options_2d_witness :
  exists sim,
    from_options "block" String.append unit axisMesh_requested
      (fun _ _ => Raise IOError) (fun _ _ _ => []) (fun _ _ _ _ => [])
      (fun _ _ _ _ => ([], []))
      None (Some (Some [0; 1#2; 1], Some [0; 1#2; 1], None)%Q) 2 "." (2, 2, 1) (8, 8, 1)
    = Ok sim
    /\ nth_error (ranges sim) 2 = Some (0, 1)%Q.
Proof.
  eexists. split; [reflexivity |].
  eapply (from_options_2d "block" String.append unit axisMesh_requested
            (fun _ _ => Raise IOError) (fun _ _ _ => []) (fun _ _ _ _ => [])
            (fun _ _ _ _ => ([], []))
            None (Some (Some [0; 1#2; 1], Some [0; 1#2; 1], None)%Q) "." 2 2 1 (8, 8, 1)).
  reflexivity.
Defined.

(** With the process counts of the request passed on as they are, a 2D
    request for (2, 2, 2) processes yields a third-axis count of 2. *)
Lemma from_options_2d_procs_counterexample :
  exists sim,
    from_options "block" String.append unit axisMesh_requested
      (fun _ _ => Raise IOError) (fun _ _ _ => []) (fun _ _ _ _ => [])
      (fun _ _ _ _ => ([], []))
      None (Some (Some [0; 1#2; 1], Some [0; 1#2; 1], None)%Q) 2 "." (2, 2, 2) (8, 8, 1)
    = Ok sim
    /\ nth_error (axisNumProcs sim) 2 = Some 2
    /\ nth_error (axisNumProcs sim) 2 <> Some 1.
Proof.
  eexists. split; [reflexivity |]. split; [reflexivity | discriminate].
Qed.

(** ** Runs of the engine: what is logged and what is left untouched *)

Lemma frame_refl (s : state) : frame s s [].
Proof.
  unfold frame. rewrite app_nil_r. auto.
Qed.

Lemma frame_trans (s s1 s2 : state) (n1 n2 : list event) :
  frame s s1 n1 -> frame s1 s2 n2 -> frame s s2 (n1 ++ n2).
Proof.
  unfold frame. intros (Hd1 & Hs1 & Hf1 & Hi1) (Hd2 & Hs2 & Hf2 & Hi2).
  rewrite Hd2, Hs2, Hf2, Hi2, Hi1, app_assoc. auto.
Qed.

Lemma frame_log (ev : event) (s : state) : frame s (log ev s) [ev].
Proof.
  unfold frame, log. simpl. auto.
Qed.

Ltac run_splits := split; [| split; [| split]].

Section Runs.
Variable P : event -> Prop.
Variable I : list (string * ndarray) -> Prop.

Lemma run_ret {A : Type} (Q : A -> Prop) (a : A) : Q a -> run P I Q (ret a).
Proof.
  intros Ha s Hi. exists []. simpl. run_splits; auto using frame_refl.
  intros a' H. inversion H; subst. exact Ha.
Qed.

Lemma run_raise {A : Type} (Q : A -> Prop) (e : error) : run P I Q (raise e).
Proof.
  intros s Hi. exists []. simpl. run_splits; auto using frame_refl.
  intros a' H. discriminate H.
Qed.

Lemma run_lift {A : Type} (Q : A -> Prop) (r : result A) :
  (forall a, r = Ok a -> Q a) -> run P I Q (lift r).
Proof.
  intros Hr s Hi. exists []. simpl. run_splits; auto using frame_refl.
Qed.

Lemma run_gets_output : run P I I (gets st_output).
Proof.
  intros s Hi. exists []. simpl. run_splits; auto using frame_refl.
  intros a H. inversion H; subst. exact Hi.
Qed.

Lemma run_set_output (o : list (string * ndarray)) :
  I o -> run P I (fun _ => True) (set_output o).
Proof.
  intros Ho s Hi. exists []. simpl. run_splits; auto.
  unfold frame. simpl. rewrite app_nil_r. auto.
Qed.

Lemma run_bind {A B : Type} (Q : A -> Prop) (R : B -> Prop) (m : M A) (k : A -> M B) :
  run P I Q m -> (forall a, Q a -> run P I R (k a)) -> run P I R (bind m k).
Proof.
  intros Hm Hk s Hi. unfold bind.
  destruct (Hm s Hi) as (n1 & Hf1 & Hp1 & Hi1 & Hq1).
  destruct (m s) as [s1 [e | a]]; simpl in *.
  - exists n1. run_splits; auto. intros b H. discriminate H.
  - destruct (Hk a (Hq1 a eq_refl) s1 Hi1) as (n2 & Hf2 & Hp2 & Hi2 & Hq2).
    exists (n1 ++ n2). run_splits; auto.
    + eapply frame_trans; eauto.
    + apply Forall_app. auto.
Qed.

Lemma run_weaken {A : Type} (P' : event -> Prop) (Q Q' : A -> Prop) (m : M A) :
  (forall ev, P' ev -> P ev) -> (forall a, Q' a -> Q a) ->
  run P' I Q' m -> run P I Q m.
Proof.
  intros HP HQ Hm s Hi. destruct (Hm s Hi) as (new & Hf & Hp & Ho & Hq).
  exists new. run_splits; auto.
  eapply Forall_impl; eauto.
Qed.

Lemma run_forM {A : Type} (l : list A) (body : A -> M unit) :
  (forall a, In a l -> run P I (fun _ => True) (body a)) ->
  run P I (fun _ => True) (forM_ l body).
Proof.
  induction l as [| a l IH]; simpl; intros Hb.
  - apply run_ret. exact Logic.I.
  - eapply run_bind; [apply Hb; auto |].
    intros _ _. apply IH. intros; apply Hb; auto.
Qed.

Lemma run_foldM {A S : Type} (J : S -> Prop) (body : S -> A -> M S)
    (l : list A) (acc : S) :
  (forall acc' a, In a l -> J acc' -> run P I J (body acc' a)) ->
  J acc -> run P I J (foldM body l acc).
Proof.
  revert acc. induction l as [| a l IH]; simpl; intros acc Hb Hacc.
  - apply run_ret. exact Hacc.
  - eapply run_bind; [apply Hb; auto |].
    intros acc' Hacc'. apply IH; [| exact Hacc']. intros; apply Hb; auto.
Qed.

(** Starting afresh with an empty [output]. *)
Lemma run_reset {A : Type} (Q : A -> Prop) (m : M A) :
  I [] -> run P I Q m -> run P (fun _ => True) Q (set_output [] ;; m).
Proof.
  intros Hnil Hm s _. unfold bind, set_output.
  set (s0 := mkState (st_destination s) (st_source s) (st_flows s) (st_io s) []).
  destruct (Hm s0 Hnil) as (new & Hf & Hp & _ & Hq).
  exists new. run_splits; auto.
Qed.

Variable io_fails : list event -> event -> bool.

Lemma run_perform (ev : event) :
  P ev -> run P I (fun _ => True) (perform io_fails ev).
Proof.
  intros Hev s Hi. unfold perform. destruct (io_fails (st_io s) ev); simpl.
  - exists []. run_splits; auto using frame_refl.
  - exists [ev]. run_splits; auto using frame_log.
Qed.

Lemma run_with {A : Type} (Q : A -> Prop) (enter exit : event) (body : M A) :
  P enter -> P exit -> run P I Q body -> run P I Q (with_ io_fails enter exit body).
Proof.
  intros Hen Hex Hb. unfold with_.
  eapply run_bind; [apply run_perform; exact Hen |].
  intros _ _ s Hi. destruct (Hb s Hi) as (new & Hf & Hp & Ho & Hq).
  destruct (body s) as [s' r]; simpl in *.
  exists (new ++ [exit]). run_splits; auto.
  - eapply frame_trans; [exact Hf | apply frame_log].
  - apply Forall_app. auto.
Qed.

Lemma run_read_block (stored : string -> string -> result ndarray)
    (path field : string) (lead : list nat) :
  P (ReadDataset path field) ->
  run P I (fun data => block_data stored path field lead = Ok data)
    (read_block stored io_fails path field lead).
Proof.
  intros HP. unfold read_block.
  eapply run_bind; [apply run_perform, HP |].
  intros _ _. apply run_lift. auto.
Qed.
End Runs.

(** ** The range of an array and the clip *)

Lemma fold_dmax_Finite (l : list double) (x : double) (m : Q) :
  fold_left dmax l x = Finite m ->
  exists x0, x = Finite x0 /\ (x0 <= m)%Q /\ Forall (fun y => dle y (Finite m)) l.
Proof.
  revert x. induction l as [| z l IH]; intros x; simpl; intros H.
  - exists m. split; [exact H |]. split; [apply Qle_refl | constructor].
  - destruct (IH _ H) as [w [Hw [Hle Hall]]].
    destruct x as [| x0]; [discriminate |]. destruct z as [| z0]; [discriminate |].
    simpl in Hw. inversion Hw; subst w. exists x0. split; [reflexivity |]. split.
    + eapply Qle_trans; [apply Q.le_max_l | exact Hle].
    + constructor; [| exact Hall]. simpl.
      eapply Qle_trans; [apply Q.le_max_r | exact Hle].
Qed.

Lemma fold_dmin_Finite (l : list double) (x : double) (m : Q) :
  fold_left dmin l x = Finite m ->
  exists x0, x = Finite x0 /\ (m <= x0)%Q /\ Forall (fun y => dle (Finite m) y) l.
Proof.
  revert x. induction l as [| z l IH]; intros x; simpl; intros H.
  - exists m. split; [exact H |]. split; [apply Qle_refl | constructor].
  - destruct (IH _ H) as [w [Hw [Hle Hall]]].
    destruct x as [| x0]; [discriminate |]. destruct z as [| z0]; [discriminate |].
    simpl in Hw. inversion Hw; subst w. exists x0. split; [reflexivity |]. split.
    + eapply Qle_trans; [exact Hle | apply Q.le_min_l].
    + constructor; [| exact Hall]. simpl.
      eapply Qle_trans; [exact Hle | apply Q.le_min_r].
Qed.

(** A fold over finite numbers is finite. *)
Lemma fold_finite (f : double -> double -> double) (l : list double) (x0 : Q) :
  (forall a b, exists c, f (Finite a) (Finite b) = Finite c) ->
  Forall (fun y => exists q, y = Finite q) l ->
  exists m, fold_left f l (Finite x0) = Finite m.
Proof.
  intros Hf. revert x0. induction l as [| z l IH]; intros x0 Hall; simpl.
  - exists x0. reflexivity.
  - inversion Hall as [| ? ? [q Hq] Hl]; subst.
    destruct (Hf x0 q) as [c Hc]. rewrite Hc. apply IH. exact Hl.
Qed.

Lemma dle_Finite_r (m : Q) (y : double) : dle (Finite m) y -> exists q, y = Finite q.
Proof. destruct y as [| q]; simpl; [intros [] | intros _; exists q; reflexivity]. Qed.

Lemma dle_Finite_l (m : Q) (y : double) : dle y (Finite m) -> exists q, y = Finite q.
Proof. destruct y as [| q]; simpl; [intros [] | intros _; exists q; reflexivity]. Qed.

(** [a.max()] and [a.min()], when not NaN, bound every element of the
    array. *)
Lemma array_max_upper (a : ndarray) (vmax : Q) :
  array_max a = Ok (Finite vmax) -> Forall (fun y => dle y (Finite vmax)) (flatten a).
Proof.
  unfold array_max. destruct (flatten a) as [| x l]; intros H; inversion H as [Hf].
  destruct (fold_dmax_Finite _ _ _ Hf) as [x0 [Hx [Hle Hall]]]. subst x.
  rewrite Hf. constructor; [exact Hle | exact Hall].
Qed.

Lemma array_min_lower (a : ndarray) (vmin : Q) :
  array_min a = Ok (Finite vmin) -> Forall (fun y => dle (Finite vmin) y) (flatten a).
Proof.
  unfold array_min. destruct (flatten a) as [| x l]; intros H; inversion H as [Hf].
  destruct (fold_dmin_Finite _ _ _ Hf) as [x0 [Hx [Hle Hall]]]. subst x.
  rewrite Hf. constructor; [exact Hle | exact Hall].
Qed.

Lemma array_min_le_max (a : ndarray) (vmin vmax : Q) :
  array_min a = Ok (Finite vmin) -> array_max a = Ok (Finite vmax) -> (vmin <= vmax)%Q.
Proof.
  unfold array_min, array_max. destruct (flatten a) as [| x l]; intros H1 H2;
    inversion H1 as [Hf1]; inversion H2 as [Hf2].
  destruct (fold_dmin_Finite _ _ _ Hf1) as [x0 [Hx [Hle _]]].
  destruct (fold_dmax_Finite _ _ _ Hf2) as [x1 [Hx' [Hle' _]]].
  subst x. inversion Hx'; subst x1.
  eapply Qle_trans; [exact Hle | exact Hle'].
Qed.

(** The least value of an array is NaN exactly when the greatest is: both
    are NaN as soon as the array holds one. *)
Lemma array_min_Finite_max (a : ndarray) (lo : Q) (vmax : double) :
  array_min a = Ok (Finite lo) -> array_max a = Ok vmax -> exists hi, vmax = Finite hi.
Proof.
  unfold array_min, array_max. destruct (flatten a) as [| x l]; intros H1 H2;
    inversion H1 as [Hf1]; inversion H2 as [Hf2].
  destruct (fold_dmin_Finite _ _ _ Hf1) as [x0 [Hx [_ Hall]]]. subst x.
  apply fold_finite.
  - intros p q. eexists. reflexivity.
  - eapply Forall_impl; [| exact Hall]. intros y. apply dle_Finite_r.
Qed.

Lemma array_max_Finite_min (a : ndarray) (hi : Q) (vmin : double) :
  array_max a = Ok (Finite hi) -> array_min a = Ok vmin -> exists lo, vmin = Finite lo.
Proof.
  unfold array_min, array_max. destruct (flatten a) as [| x l]; intros H1 H2;
    inversion H1 as [Hf1]; inversion H2 as [Hf2].
  destruct (fold_dmax_Finite _ _ _ Hf1) as [x0 [Hx [_ Hall]]]. subst x.
  apply fold_finite.
  - intros p q. eexists. reflexivity.
  - eapply Forall_impl; [| exact Hall]. intros y. apply dle_Finite_l.
Qed.

Section Clip.
Variable interpolated : result ndarray.
Variable values : ndarray.

(** Whatever the interpolation routine returns, every element of the
    clipped array is NaN or lies within the range of [values]. *)
Lemma clip_bounds (data : ndarray) :
  clip interpolated values = Ok data ->
  exists vmin vmax,
    array_min values = Ok vmin /\ array_max values = Ok vmax
    /\ forall idx, clipped_value vmin vmax (item data idx).
Proof.
  unfold clip. intros H.
  apply rbind_Ok in H. destruct H as [r [_ H]].
  apply rbind_Ok in H. destruct H as [vmax [Hmax H]].
  apply rbind_Ok in H. destruct H as [vmin [Hmin H]].
  inversion H; subst data. exists vmin, vmax. split; [exact Hmin |].
  split; [exact Hmax |]. intros idx. cbn [item numpy_maximum numpy_minimum].
  destruct (item r idx) as [| x]; [left; reflexivity |].
  destruct vmax as [| hi]; [left; reflexivity |].
  destruct vmin as [| lo]; [left; reflexivity |].
  right. split; simpl.
  - apply Q.le_max_r.
  - apply Q.max_lub.
    + apply Q.le_min_r.
    + eapply array_min_le_max; eauto.
Qed.
End Clip.

(** ** The engine, step by step *)

Ltac run_lift_step :=
  eapply run_bind;
  [ apply run_lift; let a := fresh "a" in let H := fresh "H" in intros a H; exact H
  | let a := fresh "a" in let H := fresh "E" in intros a H; cbv beta in H ].

Lemma setitem_row_shape (a : ndarray) (step : nat) (v a' : ndarray) :
  setitem_row a step v = Ok a' -> shape a' = shape a.
Proof.
  unfold setitem_row. destruct (shape a) as [| n row] eqn:E; [discriminate |].
  destruct (step <? n); [| discriminate].
  destruct (broadcastable (shape v) row); [| discriminate].
  intros H. inversion H; subst. reflexivity.
Qed.

Lemma setitem_row_item (a : ndarray) (step : nat) (v a' : ndarray) (idx : list nat) :
  setitem_row a step v = Ok a' ->
  (exists rest, idx = step :: rest /\ exists idx', item a' idx = item v idx')
  \/ item a' idx = item a idx.
Proof.
  unfold setitem_row. destruct (shape a) as [| n row]; [discriminate |].
  destruct (step <? n); [| discriminate].
  destruct (broadcastable (shape v) row); [| discriminate].
  intros H. inversion H; subst. simpl.
  destruct idx as [| i rest]; [right; reflexivity |].
  destruct (Nat.eqb_spec i step) as [-> | _]; [| right; reflexivity].
  left. exists rest. split; [reflexivity |]. eexists. reflexivity.
Qed.

Lemma getitem_item (a : ndarray) (i : nat) (row : ndarray) (idx : list nat) :
  getitem a i = Ok row -> item row idx = item a (i :: idx).
Proof.
  unfold getitem. destruct (shape a) as [| n sh]; [discriminate |].
  destruct (i <? n); [| discriminate].
  intros H. inversion H; subst. reflexivity.
Qed.

Section EngineRuns.
Variables FACES_0 FACES_1 FACES_2 : string.
Variable METHOD : string.
Variable from_simple : nat -> Index.
Variable mesh_width : Index -> list nat -> list (nat * nat * nat).
Variable interpn : string -> list (list Q) -> ndarray -> list (list Q) -> result ndarray.
Variable uninit : list nat -> list nat -> double.
Variable stored : string -> string -> result ndarray.
Variable io_fails : list event -> event -> bool.

Variable P : event -> Prop.
Variable I : list (string * ndarray) -> Prop.
Hypothesis P_read : forall path field, P (ReadDataset path field).

(** The reassembly loop returns what [gather] computes from the stored
    blocks. *)
Lemma run_gather (place : ndarray -> list nat -> ndarray -> result ndarray)
    (path field : string) (lead : nat -> list nat)
    (pairs : list (list nat * nat)) (init : ndarray) :
  run P I
    (fun values =>
       gather place (fun b => block_data stored path field (lead b)) pairs init = Ok values)
    (foldM (fun values '(ijk, source_block) =>
              data <- read_block stored io_fails path field (lead source_block) ;;
              lift (place values ijk data))
           pairs init).
Proof.
  revert init. induction pairs as [| [ijk b] rest IH]; intros init; simpl.
  - apply run_ret. reflexivity.
  - eapply run_bind with
      (Q := fun values' => exists data,
              block_data stored path field (lead b) = Ok data
              /\ place init ijk data = Ok values').
    + eapply run_bind; [apply run_read_block, P_read |].
      intros data Hdata. apply run_lift. intros values' Hplace.
      exists data. split; assumption.
    + intros values' [data [Hdata Hplace]].
      eapply run_weaken; [| | apply IH]; [auto |].
      intros values Hg. rewrite Hdata. simpl. rewrite Hplace. simpl. exact Hg.
Qed.
End EngineRuns.

Lemma setitem_row_at (a : ndarray) (step : nat) (v a' : ndarray) (rest : list nat) :
  setitem_row a step v = Ok a' ->
  item a' (step :: rest) = item v (broadcast_index (shape v) rest).
Proof.
  unfold setitem_row. destruct (shape a) as [| n row]; [discriminate |].
  destruct (step <? n); [| discriminate].
  destruct (broadcastable (shape v) row); [| discriminate].
  intros H. inversion H; subst. simpl. rewrite Nat.eqb_refl. reflexivity.
Qed.

Lemma dict_item_get {V : Type} (k : string) (d : list (string * V)) (v : V) :
  dict_item k d = Ok v -> dict_get k d = Some v.
Proof.
  unfold dict_item, of_option. destruct (dict_get k d); intros H; inversion H.
  reflexivity.
Qed.

Lemma zip3_nth_error {A B C : Type} (la : list A) (lb : list B) (lc : list C)
    (n : nat) (a : A) (b : B) (c : C) :
  nth_error (zip3 la lb lc) n = Some (a, b, c) ->
  nth_error la n = Some a /\ nth_error lb n = Some b /\ nth_error lc n = Some c.
Proof.
  revert lb lc n. induction la as [| x la IH]; intros lb lc n; simpl.
  - destruct n; discriminate.
  - destruct lb as [| y lb]; [destruct n; discriminate |].
    destruct lc as [| z lc]; [destruct n; discriminate |].
    destruct n as [| n]; simpl.
    + intros H. inversion H. auto.
    + apply IH.
Qed.

Lemma take_rows_nth_error {A : Type} (a : list A) (blocks : list nat) (rows : list A)
    (n b : nat) (r : A) :
  take_rows a blocks = Ok rows ->
  nth_error blocks n = Some b -> nth_error rows n = Some r ->
  nth_error a b = Some r.
Proof.
  unfold take_rows. intros H. apply mapM_Ok_Forall2 in H.
  revert n. induction H as [| b0 r0 bs rs Hb _ IH]; intros n.
  - destruct n; discriminate.
  - destruct n as [| n]; simpl.
    + intros Hb0 Hr0. inversion Hb0; inversion Hr0; subst.
      destruct (nth_error a b) as [x |]; simpl in Hb; inversion Hb. reflexivity.
    + apply IH.
Qed.

Section EngineSpec.
Variables FACES_0 FACES_1 FACES_2 : string.
Variable METHOD : string.
Variable from_simple : nat -> Index.
Variable mesh_width : Index -> list nat -> list (nat * nat * nat).
Variable interpn : string -> list (list Q) -> ndarray -> list (list Q) -> result ndarray.
Variable uninit : list nat -> list nat -> double.
Variable stored : string -> string -> result ndarray.
Variable io_fails : list event -> event -> bool.

Variables destination source : SimulationData.
Variable flows : list flow.
Variable index : Index.

Local Abbreviation Pw :=
  (clipped_write FACES_0 FACES_1 FACES_2 uninit stored destination source flows).
Local Abbreviation Io :=
  (clipped_output FACES_0 FACES_1 FACES_2 uninit stored index destination source flows).
Local Abbreviation any := (fun _ : unit => True).

Lemma Pw_other (ev : event) : ~ is_write ev -> Pw ev.
Proof.
  destruct ev; simpl; tauto.
Qed.

Lemma run_store_block (field : string) (step block : nat) (data : ndarray)
    (vmin vmax : double) :
  ndim source = 2%Z \/ ndim source = 3%Z ->
  nth_error (index_range index) step = Some block ->
  local_range FACES_0 FACES_1 FACES_2 uninit stored destination source flows
              field block vmin vmax ->
  (forall idx, clipped_value vmin vmax (item data idx)) ->
  run Pw Io any (store_block io_fails field step block data).
Proof.
  intros Hdim Hstep Hrange Hdata. unfold store_block.
  eapply run_bind; [apply run_gets_output |]. intros output Hout.
  run_lift_step. apply dict_item_get in E.
  run_lift_step. rename a0 into arr', E0 into Hset.
  eapply run_bind.
  { apply run_set_output. intros field' arr'' Hget idx.
    rewrite dict_get_set in Hget.
    destruct (String.eqb_spec field' field) as [-> | Hne].
    - inversion Hget; subst arr''.
      rewrite (setitem_row_shape _ _ _ _ Hset).
      destruct (setitem_row_item _ _ _ _ idx Hset) as [[rest [-> [idx' Hi]]] | Hold].
      + right. split; [exact Hdim |]. exists step, rest, block, vmin, vmax.
        rewrite Hi. auto.
      + rewrite Hold. apply (Hout field a E idx).
    - apply (Hout field' arr'' Hget idx). }
  intros _ _. run_lift_step. rename a0 into row, E0 into Hrow.
  apply run_perform. simpl. split; [exact Hdim |].
  exists vmin, vmax. split; [exact Hrange |]. intros idx.
  rewrite (getitem_item _ _ _ idx Hrow), (setitem_row_at _ _ _ _ idx Hset).
  apply Hdata.
Qed.

Lemma run_interp_field (step block : nat) (width : nat * nat * nat) (box : bbox)
    (index_uniq index_flat : list (list nat)) (fl : flow) :
  nth_error (bndboxes destination) block = Some box ->
  nth_error (index_range index) step = Some block ->
  index_unique source (blocks_from_bbox source box) = Ok index_uniq ->
  In fl flows ->
  run Pw Io any
    (interp_field FACES_0 FACES_1 FACES_2 METHOD interpn uninit stored io_fails
       destination source step block width (blocks_from_bbox source box)
       index_uniq index_flat fl).
Proof.
  intros Hbox Hstep Huniq Hin.
  destruct fl as [field [[face source_field] source_face]].
  destruct width as [[w0 w1] w2].
  assert (Hlocal : forall values data r,
             local_array FACES_0 FACES_1 FACES_2 uninit stored source box
                         source_field source_face = Ok values ->
             clip r values = Ok data ->
             exists vmin vmax,
               local_range FACES_0 FACES_1 FACES_2 uninit stored destination source flows
                           field block vmin vmax
               /\ forall idx, clipped_value vmin vmax (item data idx)).
  { intros values data r Hvalues Hclip.
    destruct (clip_bounds _ _ _ Hclip) as (vmin & vmax & Hmin & Hmax & Hb).
    exists vmin, vmax. split; [| exact Hb].
    exists box, face, source_field, source_face, values. auto. }
  unfold interp_field.
  run_lift_step. rename a into source_shape, E into Hshape.
  destruct (ndim source =? 3)%Z eqn:E3; [| destruct (ndim source =? 2)%Z eqn:E2].
  - apply Z.eqb_eq in E3.
    do 6 run_lift_step.
    eapply run_bind; [apply run_gather; intros; exact Logic.I |].
    intros values Hvalues. cbv beta in Hvalues.
    assert (Hloc : local_array FACES_0 FACES_1 FACES_2 uninit stored source box
                               source_field source_face = Ok values).
    { unfold local_array. rewrite Huniq, Hshape. simpl.
      rewrite E3. simpl. exact Hvalues. }
    do 4 run_lift_step.
    match goal with
    | Hc : clip _ values = Ok ?d |- _ =>
        destruct (Hlocal values d _ Hloc Hc) as (vmin & vmax & Hrange & Hb)
    end.
    eapply run_store_block; eauto.
  - apply Z.eqb_eq in E2.
    do 4 run_lift_step.
    eapply run_bind; [apply run_gather; intros; exact Logic.I |].
    intros values Hvalues. cbv beta in Hvalues.
    assert (Hloc : local_array FACES_0 FACES_1 FACES_2 uninit stored source box
                               source_field source_face = Ok values).
    { unfold local_array. rewrite Huniq, Hshape. simpl.
      rewrite E3. exact Hvalues. }
    do 3 run_lift_step.
    match goal with
    | Hc : clip _ values = Ok ?d |- _ =>
        destruct (Hlocal values d _ Hloc Hc) as (vmin & vmax & Hrange & Hb)
    end.
    eapply run_store_block; eauto.
    intros idx. simpl. apply Hb.
  - apply run_ret. exact Logic.I.
Qed.
Lemma run_create_field (fl : flow) :
  run Pw Io any (create_field uninit io_fails destination index fl).
Proof.
  destruct fl as [field [[location sf] sface]]. unfold create_field.
  run_lift_step.
  eapply run_bind; [apply run_perform; exact Logic.I |]. intros _ _.
  eapply run_bind; [apply run_gets_output |]. intros output Hout.
  apply run_set_output. intros field' arr Hget idx.
  rewrite dict_get_set in Hget.
  destruct (String.eqb field' field).
  - inversion Hget; subst arr. left. reflexivity.
  - apply (Hout field' arr Hget idx).
Qed.

Lemma run_interp_block (widths : list (nat * nat * nat)) (boxes : list bbox)
    (it : nat * (nat * (nat * nat * nat) * bbox)) :
  take_rows (bndboxes destination) (index_range index) = Ok boxes ->
  In it (enumerate (zip3 (index_range index) widths boxes)) ->
  run Pw Io any
    (interp_block FACES_0 FACES_1 FACES_2 METHOD interpn uninit stored io_fails
       destination source flows it).
Proof.
  intros Hboxes Hin. destruct it as [step [[block width] box]].
  apply in_enumerate_from in Hin. rewrite Nat.sub_0_r in Hin. destruct Hin as [_ Hnth].
  apply zip3_nth_error in Hnth. destruct Hnth as (Hstep & _ & Hbox).
  pose proof (take_rows_nth_error _ _ _ _ _ _ Hboxes Hstep Hbox) as Hdest.
  unfold interp_block.
  run_lift_step. rename a into index_uniq, E into Huniq.
  run_lift_step.
  eapply run_bind.
  - apply run_forM. intros fl Hfl. eapply run_interp_field; eauto.
  - intros _ _. apply run_perform. exact Logic.I.
Qed.

(** The body of [interp_blocks]: the operations it logs are reads, dataset
    creations, progress notifications and clipped writes, and the arrays it
    returns hold clipped values only. *)
Lemma run_interp_blocks_body (nofile : bool) :
  index = from_simple (numProcs destination) ->
  run Pw (fun _ => True) Io
    (interp_blocks_body FACES_0 FACES_1 FACES_2 METHOD from_simple mesh_width interpn
       uninit stored io_fails destination source flows nofile).
Proof.
  intros Hindex. unfold interp_blocks_body. rewrite <- Hindex.
  destruct (negb (ndim destination =? ndim source)%Z); [apply run_raise |].
  do 3 (apply run_with; [exact Logic.I | exact Logic.I |]).
  apply run_reset with (I := Io).
  { intros field arr Hget. discriminate Hget. }
  eapply run_bind; [apply run_forM; intros fl _; apply run_create_field |].
  intros _ _. run_lift_step. rename a into boxes, E into Hboxes.
  eapply run_bind.
  - apply run_forM. intros it Hit. eapply run_interp_block; eauto.
  - intros _ _. apply run_gets_output.
Qed.
End EngineSpec.

(** ** Runs that do not raise *)

Lemma returns_ret {A : Type} (a : A) : returns (ret a).
Proof.
  intros s. exists a. reflexivity.
Qed.

Lemma returns_lift {A : Type} (r : result A) (a : A) : r = Ok a -> returns (lift r).
Proof.
  intros -> s. exists a. reflexivity.
Qed.

Lemma returns_gets {A : Type} (f : state -> A) : returns (gets f).
Proof.
  intros s. exists (f s). reflexivity.
Qed.

Lemma returns_set_output (o : list (string * ndarray)) : returns (set_output o).
Proof.
  intros s. exists tt. reflexivity.
Qed.

Lemma returns_bind {A B : Type} (m : M A) (k : A -> M B) :
  returns m -> (forall a, returns (k a)) -> returns (bind m k).
Proof.
  intros Hm Hk s. unfold bind. destruct (Hm s) as [a Ha].
  destruct (m s) as [s1 r]. simpl in Ha. subst r. apply Hk.
Qed.

Lemma returns_forM {A : Type} (l : list A) (body : A -> M unit) :
  (forall a, In a l -> returns (body a)) -> returns (forM_ l body).
Proof.
  induction l as [| a l IH]; simpl; intros Hb.
  - apply returns_ret.
  - apply returns_bind; [apply Hb; auto |].
    intros _. apply IH. intros; apply Hb; auto.
Qed.

Section ReturnsIO.
Variable io_fails : list event -> event -> bool.
Hypothesis io_works : forall history ev, io_fails history ev = false.

Lemma returns_perform (ev : event) : returns (perform io_fails ev).
Proof.
  intros s. unfold perform. rewrite io_works. exists tt. reflexivity.
Qed.

Lemma returns_with {A : Type} (enter exit : event) (body : M A) :
  returns body -> returns (with_ io_fails enter exit body).
Proof.
  intros Hb. unfold with_. apply returns_bind; [apply returns_perform |].
  intros _ s. destruct (Hb s) as [a Ha]. exists a.
  destruct (body s) as [s' r]. exact Ha.
Qed.
End ReturnsIO.

(** ** The index mapping does not raise on valid blocks *)

Lemma where_first_InA (l : list Q) (x : Q) :
  InA Qeq x l -> exists i, where_first l x = Some i /\ i < length l.
Proof.
  induction l as [| y l IH]; intros Hin.
  - inversion Hin.
  - simpl. destruct (Qeq_bool y x) eqn:E.
    + exists 0. split; [reflexivity | simpl; lia].
    + inversion Hin as [? ? Heq | ? ? Hin']; subst.
      * apply Qeq_sym, Qeq_bool_iff in Heq. congruence.
      * destruct (IH Hin') as [i [Hi Hlt]]. exists (S i). rewrite Hi.
        split; [reflexivity | simpl; lia].
Qed.

Lemma where_first_lt (l : list Q) (x : Q) (i : nat) :
  where_first l x = Some i -> i < length l.
Proof.
  revert i. induction l as [| y l IH]; simpl; intros i H; [discriminate |].
  destruct (Qeq_bool y x).
  - inversion H. lia.
  - destruct (where_first l x) as [j |]; simpl in H; inversion H.
    specialize (IH j eq_refl). lia.
Qed.

Lemma take_rows_total {A : Type} (a : list A) (blocks : list nat) :
  Forall (fun b => b < length a) blocks -> exists rows, take_rows a blocks = Ok rows.
Proof.
  intros H. apply mapM_total. eapply Forall_impl; [| exact H].
  intros b Hb. simpl in Hb. apply nth_error_Some in Hb.
  destruct (nth_error a b) as [x |]; [| congruence]. exists x. reflexivity.
Qed.

Lemma take_rows_In {A : Type} (a : list A) (blocks : list nat) (rows : list A) (r : A) :
  take_rows a blocks = Ok rows -> In r rows -> In r a.
Proof.
  unfold take_rows. intros H. apply mapM_Ok_Forall2 in H.
  induction H as [| b r0 bs rs Hb _ IH]; simpl; [tauto |].
  intros [<- | Hin]; [| auto].
  destruct (nth_error a b) as [x |] eqn:E; simpl in Hb; inversion Hb; subst.
  eapply nth_error_In; eauto.
Qed.

Lemma In_InA_axis (rows : list center) (c : center) (axis : nat) :
  In c rows -> InA Qeq (center_axis c axis) (map (fun c' => center_axis c' axis) rows).
Proof.
  intros Hin. apply In_InA; [exact Q_Setoid |].
  apply in_map_iff. exists c. auto.
Qed.

Section IndexTotal.
Variable self : SimulationData.
Variable blocks : list nat.
Hypothesis blocks_valid : Forall (fun b => b < length (centers self)) blocks.

Lemma index_unique_total : exists index_uniq, index_unique self blocks = Ok index_uniq.
Proof.
  destruct (take_rows_total _ _ blocks_valid) as [rows Hrows].
  unfold index_unique, centers_unique, sliced_rows. rewrite Hrows. cbn [rbind Ok].
  apply mapM_total. apply Forall_forall. intros c Hc.
  apply mapM_total. apply Forall_forall. intros axis Haxis.
  apply in_seq in Haxis.
  assert (Hnth : nth axis
                   (map (fun ax => numpy_unique (map (fun c' => center_axis c' ax) rows))
                        (seq 0 3)) []
                 = numpy_unique (map (fun c' => center_axis c' axis) rows)).
  { destruct axis as [| [| [| axis]]]; try reflexivity. lia. }
  rewrite Hnth.
  destruct (where_first_InA (numpy_unique (map (fun c' => center_axis c' axis) rows))
                            (center_axis c axis)) as [i [Hi _]].
  - apply numpy_unique_InA, In_InA_axis, Hc.
  - exists i. rewrite Hi. reflexivity.
Qed.

Lemma index_flatten_total :
  exists index_flat, index_flatten self (Some blocks) = Ok index_flat.
Proof.
  destruct (take_rows_total _ _ blocks_valid) as [rows Hrows].
  unfold index_flatten, sliced_rows. rewrite Hrows. cbn [rbind Ok].
  apply mapM_total. apply Forall_forall. intros axis Haxis.
  apply in_seq in Haxis.
  assert (Hall : exists idx,
             mapM (fun coord =>
                     rbind (centers_unique self None) (fun u =>
                     of_option IndexError
                       (where_first (nth axis u []) (center_axis coord axis)))) rows
             = Ok idx).
  { apply mapM_total. apply Forall_forall. intros c Hc.
    unfold centers_unique, sliced_rows. cbn [rbind Ok].
    assert (Hnth : nth axis
                     (map (fun ax =>
                             numpy_unique (map (fun c' => center_axis c' ax) (centers self)))
                          (seq 0 3)) []
                   = numpy_unique (map (fun c' => center_axis c' axis) (centers self))).
    { destruct axis as [| [| [| axis]]]; try reflexivity. lia. }
    rewrite Hnth.
    destruct (where_first_InA
                (numpy_unique (map (fun c' => center_axis c' axis) (centers self)))
                (center_axis c axis)) as [i [Hi _]].
    - apply numpy_unique_InA, In_InA_axis. eapply take_rows_In; eauto.
    - exists i. rewrite Hi. reflexivity. }
  destruct Hall as [idx Hidx]. rewrite Hidx. simpl. eexists. reflexivity.
Qed.

Lemma face_flat_shape_total (FACES_0 FACES_1 FACES_2 face : string) :
  exists shp, face_flat_shape FACES_0 FACES_1 FACES_2 self (Some blocks) face = Ok shp.
Proof.
  destruct (take_rows_total _ _ blocks_valid) as [rows Hrows].
  unfold face_flat_shape, extent_unique, centers_unique, sliced_rows.
  rewrite Hrows. simpl. eexists. reflexivity.
Qed.
End IndexTotal.

(** ** [interp_blocks] *)

Section Interp.
Variables FACES_0 FACES_1 FACES_2 : string.
Variable METHOD : string.
Variable from_simple : nat -> Index.
Variable mesh_width : Index -> list nat -> list (nat * nat * nat).
Variable interpn : string -> list (list Q) -> ndarray -> list (list Q) -> result ndarray.
Variable uninit : list nat -> list nat -> double.
Variable stored : string -> string -> result ndarray.
Variable io_fails : list event -> event -> bool.

Local Abbreviation interp :=
  (interp_blocks FACES_0 FACES_1 FACES_2 METHOD from_simple mesh_width interpn uninit
                 stored io_fails).

Lemma interp_blocks_unfold (nofile : bool) (s : state) :
  interp nofile s =
    interp_blocks_body FACES_0 FACES_1 FACES_2 METHOD from_simple mesh_width interpn uninit
      stored io_fails (st_destination s) (st_source s) (st_flows s) nofile s.
Proof.
  reflexivity.
Qed.

Lemma interp_blocks_run (nofile : bool) (s : state) :
  exists new,
    frame s (fst (interp nofile s)) new
    /\ Forall (clipped_write FACES_0 FACES_1 FACES_2 uninit stored
                 (st_destination s) (st_source s) (st_flows s)) new
    /\ forall output,
         snd (interp nofile s) = Ok output ->
         clipped_output FACES_0 FACES_1 FACES_2 uninit stored
           (from_simple (numProcs (st_destination s)))
           (st_destination s) (st_source s) (st_flows s) output.
Proof.
  rewrite interp_blocks_unfold.
  destruct (run_interp_blocks_body FACES_0 FACES_1 FACES_2 METHOD from_simple mesh_width
              interpn uninit stored io_fails (st_destination s) (st_source s) (st_flows s)
              _ nofile eq_refl s Logic.I) as (new & Hf & Hp & _ & Hq).
  exists new. auto.
Qed.


(** C3. When the dimensionalities of destination and source differ,
    [interp_blocks] raises the library error for incompatible grids and the
    state is left as it was: no file is opened or created, no dataset is
    declared, nothing is read or written. *)
Theorem interp_blocks_incompatible (nofile : bool) (s : state) :
  ndim (st_destination s) <> ndim (st_source s) ->
  interp nofile s =
    (s, Raise (LibraryError "Incompatible source and destination grids for interpolation!")).
Proof.
  intros Hne. rewrite interp_blocks_unfold. unfold interp_blocks_body.
  apply Z.eqb_neq in Hne. rewrite Hne. reflexivity.
Qed.

(** C8. [interp_blocks] leaves [flows] and the source and destination
    topologies as they were, whether it returns or raises. *)
Theorem interp_blocks_preserves_inputs (nofile : bool) (s : state) :
  st_flows (fst (interp nofile s)) = st_flows s
  /\ st_source (fst (interp nofile s)) = st_source s
  /\ st_destination (fst (interp nofile s)) = st_destination s.
Proof.
  destruct (interp_blocks_run nofile s) as (new & (Hd & Hs & Hf & _) & _).
  auto.
Qed.
End Interp.

Section OtherDimension.
Variables FACES_0 FACES_1 FACES_2 : string.
Variable METHOD : string.
Variable from_simple : nat -> Index.
Variable mesh_width : Index -> list nat -> list (nat * nat * nat).
Variable interpn : string -> list (list Q) -> ndarray -> list (list Q) -> result ndarray.
Variable uninit : list nat -> list nat -> double.
Variable stored : string -> string -> result ndarray.
Variable io_fails : list event -> event -> bool.
Hypothesis io_works : forall history ev, io_fails history ev = false.

Variables destination source : SimulationData.
Variable flows : list flow.
Hypothesis not_2d : ndim source <> 2%Z.
Hypothesis not_3d : ndim source <> 3%Z.
Hypothesis one_center_per_box : length (centers source) = length (bndboxes source).

Lemma returns_interp_field_other (step block : nat) (width : nat * nat * nat)
    (box : bbox) (index_uniq index_flat : list (list nat)) (fl : flow) :
  returns (interp_field FACES_0 FACES_1 FACES_2 METHOD interpn uninit stored io_fails
             destination source step block width (blocks_from_bbox source box)
             index_uniq index_flat fl).
Proof.
  destruct fl as [field [[face source_field] source_face]]. unfold interp_field.
  assert (Hvalid : Forall (fun b => b < length (centers source))
                          (blocks_from_bbox source box)).
  { rewrite one_center_per_box. apply blocks_from_bbox_lt. }
  destruct (face_flat_shape_total source _ Hvalid FACES_0 FACES_1 FACES_2 source_face)
    as [shp Hshp].
  apply returns_bind; [eapply returns_lift; exact Hshp |]. intros shp'.
  rewrite (proj2 (Z.eqb_neq _ _) not_3d), (proj2 (Z.eqb_neq _ _) not_2d).
  apply returns_ret.
Qed.

Lemma returns_interp_block_other (it : nat * (nat * (nat * nat * nat) * bbox)) :
  returns (interp_block FACES_0 FACES_1 FACES_2 METHOD interpn uninit stored io_fails
             destination source flows it).
Proof.
  destruct it as [step [[block width] box]]. unfold interp_block.
  assert (Hvalid : Forall (fun b => b < length (centers source))
                          (blocks_from_bbox source box)).
  { rewrite one_center_per_box. apply blocks_from_bbox_lt. }
  destruct (index_unique_total source _ Hvalid) as [index_uniq Huniq].
  destruct (index_flatten_total source _ Hvalid) as [index_flat Hflat].
  apply returns_bind; [eapply returns_lift; exact Huniq |]. intros index_uniq'.
  apply returns_bind; [eapply returns_lift; exact Hflat |]. intros index_flat'.
  apply returns_bind.
  - apply returns_forM. intros fl _. apply returns_interp_field_other.
  - intros _. apply returns_perform. exact io_works.
Qed.

Lemma returns_create_field (index : Index) (fl : flow) :
  (exists shp, dict_get (fst (fst (snd fl))) (shapes destination) = Some shp) ->
  returns (create_field uninit io_fails destination index fl).
Proof.
  destruct fl as [field [[location sf] sface]]. simpl. intros [shp Hshp].
  unfold create_field.
  apply returns_bind.
  { eapply returns_lift. unfold dict_item. rewrite Hshp. reflexivity. }
  intros shp'. apply returns_bind; [apply returns_perform; exact io_works |].
  intros _. apply returns_bind; [apply returns_gets |].
  intros output. apply returns_set_output.
Qed.

Lemma returns_interp_blocks_body_other (nofile : bool) :
  ndim destination = ndim source ->
  (forall fl, In fl flows ->
     exists shp, dict_get (fst (fst (snd fl))) (shapes destination) = Some shp) ->
  Forall (fun b => b < length (bndboxes destination))
         (index_range (from_simple (numProcs destination))) ->
  returns (interp_blocks_body FACES_0 FACES_1 FACES_2 METHOD from_simple mesh_width
             interpn uninit stored io_fails destination source flows nofile).
Proof.
  intros Hdim Hshapes Hrange. unfold interp_blocks_body.
  rewrite Hdim, Z.eqb_refl. simpl negb. cbv iota.
  do 3 (apply returns_with; [exact io_works |]).
  apply returns_bind; [apply returns_set_output |]. intros _.
  apply returns_bind.
  { apply returns_forM. intros fl Hfl. apply returns_create_field. auto. }
  intros _. destruct (take_rows_total _ _ Hrange) as [boxes Hboxes].
  apply returns_bind; [eapply returns_lift; exact Hboxes |]. intros boxes'.
  apply returns_bind.
  - apply returns_forM. intros it _. apply returns_interp_block_other.
  - intros _. apply returns_gets.
Qed.
End OtherDimension.

(** ** Reassembly of the local source array *)

Lemma setitem_slices_spec (a : ndarray) (slices : list (nat * nat)) (v a' : ndarray) :
  setitem_slices a slices v = Ok a' ->
  shape a' = shape a
  /\ forall idx,
       item a' idx =
         if in_slices (shape a) idx slices
         then item v (broadcast_index (shape v) (slice_offset idx slices))
         else item a idx.
Proof.
  unfold setitem_slices.
  destruct (length (shape a) <? length slices); [discriminate |].
  destruct (broadcastable (shape v) (slice_shape (shape a) slices)); [| discriminate].
  intros H. inversion H; subst. simpl. auto.
Qed.

Section Gather.
(** One turn of the loop assigns to the slices [slices_of ijk]. *)
Variable place : ndarray -> list nat -> ndarray -> result ndarray.
Variable slices_of : list nat -> list (nat * nat).
Hypothesis place_slices :
  forall values ijk data values',
    place values ijk data = Ok values' ->
    setitem_slices values (slices_of ijk) data = Ok values'.

Variable read : nat -> result ndarray.

(** After the loop an element of the array holds what the last block whose
    slices contain it put there, and what it held before if there is none. *)
Lemma gather_cells (pairs : list (list nat * nat)) (init values : ndarray) :
  gather place read pairs init = Ok values ->
  shape values = shape init
  /\ forall idx,
       ((forall ijk b, In (ijk, b) pairs ->
           in_slices (shape init) idx (slices_of ijk) = false) ->
        item values idx = item init idx)
       /\ forall p ijk b,
            nth_error pairs p = Some (ijk, b) ->
            in_slices (shape init) idx (slices_of ijk) = true ->
            (forall ijk' b', In (ijk', b') (skipn (S p) pairs) ->
               in_slices (shape init) idx (slices_of ijk') = false) ->
            exists data,
              read b = Ok data
              /\ item values idx =
                   item data (broadcast_index (shape data) (slice_offset idx (slices_of ijk))).
Proof.
  revert init. induction pairs as [| [ijk0 b0] rest IH]; intros init; simpl.
  - intros H. inversion H; subst. split; [reflexivity |]. intros idx. split; [auto |].
    intros p ijk b Hp. destruct p; discriminate Hp.
  - intros H. apply rbind_Ok in H. destruct H as [data0 [Hread H]].
    apply rbind_Ok in H. destruct H as [v1 [Hplace H]].
    apply place_slices, setitem_slices_spec in Hplace. destruct Hplace as [Hsh1 Hit1].
    destruct (IH v1 H) as [Hsh Hcells]. rewrite Hsh1 in Hsh.
    split; [exact Hsh |]. intros idx. destruct (Hcells idx) as [Hnone Hlast].
    rewrite Hsh1 in Hnone, Hlast. split.
    + intros Hout. rewrite Hnone by (intros; eapply Hout; eauto).
      rewrite Hit1, (Hout ijk0 b0) by auto. reflexivity.
    + intros p ijk b Hp Hin Hlater. destruct p as [| p]; simpl in Hp, Hlater.
      * inversion Hp; subst. exists data0. split; [exact Hread |].
        rewrite Hnone by exact Hlater. rewrite Hit1, Hin. reflexivity.
      * eapply Hlast; eauto.
Qed.
End Gather.

Lemma place3_slices (sz sh : nat * nat * nat) (values : ndarray) (ijk : list nat)
    (data values' : ndarray) :
  place3 sz sh values ijk data = Ok values' ->
  setitem_slices values (slices_of3 sz sh ijk) data = Ok values'.
Proof.
  unfold place3, slices_of3.
  destruct ijk as [| i [| j [| k [| ? ?]]]]; try discriminate. auto.
Qed.

Lemma place2_slices (sz sh : nat * nat * nat) (values : ndarray) (ijk : list nat)
    (data values' : ndarray) :
  place2 sz sh values ijk data = Ok values' ->
  setitem_slices values (slices_of2 sz sh ijk) data = Ok values'.
Proof.
  unfold place2, slices_of2.
  destruct ijk as [| i [| j [| k [| ? ?]]]]; try discriminate. auto.
Qed.

Lemma skipn_combine {A B : Type} (n : nat) (la : list A) (lb : list B) :
  skipn n (combine la lb) = combine (skipn n la) (skipn n lb).
Proof.
  revert la lb. induction n as [| n IH]; intros la lb; [reflexivity |].
  destruct la as [| a la]; [reflexivity |].
  destruct lb as [| b lb]; simpl.
  - destruct (skipn n la); reflexivity.
  - apply IH.
Qed.

Lemma combine_nth_error {A B : Type} (la : list A) (lb : list B) (n : nat) (a : A) (b : B) :
  nth_error la n = Some a -> nth_error lb n = Some b ->
  nth_error (combine la lb) n = Some (a, b).
Proof.
  revert lb n. induction la as [| x la IH]; intros lb n; [destruct n; discriminate |].
  destruct lb as [| y lb]; [destruct n; discriminate |].
  destruct n as [| n]; simpl.
  - intros Ha Hb. inversion Ha; inversion Hb. reflexivity.
  - apply IH.
Qed.

(** The logical indices are triples below the extents that make the
    flattened shape. *)
Lemma index_unique_bounds (FACES_0 FACES_1 FACES_2 : string) (self : SimulationData)
    (blocks : list nat) (face : string) (index_uniq : list (list nat)) (shp : list nat)
    (sz0 sz1 sz2 sh0 sh1 sh2 : nat) :
  sizes self = (sz0, sz1, sz2) ->
  face_shift FACES_0 FACES_1 FACES_2 face = (sh0, sh1, sh2) ->
  index_unique self blocks = Ok index_uniq ->
  face_flat_shape FACES_0 FACES_1 FACES_2 self (Some blocks) face = Ok shp ->
  length index_uniq = length blocks
  /\ exists e0 e1 e2,
       shp = [e0 * sz0 + sh0; e1 * sz1 + sh1; e2 * sz2 + sh2]
       /\ Forall (fun ijk => exists i j k, ijk = [i; j; k] /\ i < e0 /\ j < e1 /\ k < e2)
                 index_uniq.
Proof.
  intros Hsz Hsh Huniq Hshape.
  unfold index_unique in Huniq.
  apply rbind_Ok in Huniq. destruct Huniq as [unique [Hcu Huniq]].
  apply rbind_Ok in Huniq. destruct Huniq as [rows [Hrows Huniq]].
  unfold face_flat_shape, extent_unique in Hshape. rewrite Hcu in Hshape.
  cbn [rbind Ok] in Hshape. rewrite Hsz, Hsh in Hshape.
  unfold centers_unique in Hcu. apply rbind_Ok in Hcu. destruct Hcu as [rows' [_ Hcu]].
  inversion Hcu; subst unique; clear Hcu.
  simpl in Hshape. inversion Hshape; subst shp; clear Hshape.
  split.
  - apply mapM_length in Huniq. unfold take_rows in Hrows. apply mapM_length in Hrows.
    congruence.
  - do 3 eexists. split; [reflexivity |].
    apply mapM_Ok_Forall2 in Huniq.
    clear Hrows. induction Huniq as [| c ijk cs ijks Hc _ IH]; constructor; [| exact IH].
    simpl in Hc.
    apply rbind_Ok in Hc. destruct Hc as [i [Hi Hc]].
    apply rbind_Ok in Hc. destruct Hc as [t1 [Hc1 Hc]].
    apply rbind_Ok in Hc1. destruct Hc1 as [j [Hj Hc1]].
    apply rbind_Ok in Hc1. destruct Hc1 as [t2 [Hc2 Hc1]].
    apply rbind_Ok in Hc2. destruct Hc2 as [k [Hk Hc2]].
    inversion Hc2; subst t2. inversion Hc1; subst t1. inversion Hc; subst ijk.
    exists i, j, k. split; [reflexivity |].
    unfold of_option in Hi, Hj, Hk.
    destruct (where_first _ (center_axis c 0)) as [i' |] eqn:Ei; inversion Hi; subst i'.
    destruct (where_first _ (center_axis c 1)) as [j' |] eqn:Ej; inversion Hj; subst j'.
    destruct (where_first _ (center_axis c 2)) as [k' |] eqn:Ek; inversion Hk; subst k'.
    apply where_first_lt in Ei, Ej, Ek. auto.
Qed.

Lemma gather_reads (place : ndarray -> list nat -> ndarray -> result ndarray)
    (read : nat -> result ndarray) (pairs : list (list nat * nat)) (init values : ndarray) :
  gather place read pairs init = Ok values ->
  forall ijk b, In (ijk, b) pairs -> exists data, read b = Ok data.
Proof.
  revert init. induction pairs as [| [ijk0 b0] rest IH]; intros init; simpl; [tauto |].
  intros H. apply rbind_Ok in H. destruct H as [data0 [Hread H]].
  apply rbind_Ok in H. destruct H as [v1 [_ H]].
  intros ijk b [Heq | Hin].
  - inversion Heq; subst. eauto.
  - eapply IH; eauto.
Qed.

Lemma within3 (off : list nat) (e0 e1 e2 : nat) :
  within off [e0; e1; e2] ->
  exists c r a, off = [c; r; a] /\ c < e0 /\ r < e1 /\ a < e2.
Proof.
  intros H. inversion H as [| c ? l1 ? Hc H1]; subst.
  inversion H1 as [| r ? l2 ? Hr H2]; subst.
  inversion H2 as [| a ? l3 ? Ha H3]; subst.
  inversion H3; subst. exists c, r, a. auto.
Qed.

Lemma within2 (off : list nat) (e0 e1 : nat) :
  within off [e0; e1] -> exists r a, off = [r; a] /\ r < e0 /\ a < e1.
Proof.
  intros H. inversion H as [| r ? l1 ? Hr H1]; subst.
  inversion H1 as [| a ? l2 ? Ha H2]; subst.
  inversion H2; subst. exists r, a. auto.
Qed.

Lemma offset_back (o d : nat) : o + d - o = d.
Proof.
  lia.
Qed.

Lemma slice_hit (o d e dim : nat) :
  d < e -> o + d < dim -> (o <=? o + d) && (o + d <? o + e) && (o + d <? dim) = true.
Proof.
  intros Hd Hdim. rewrite !andb_true_iff, Nat.leb_le, !Nat.ltb_lt. lia.
Qed.

Section Layout.
Variables FACES_0 FACES_1 FACES_2 : string.
Variable uninit : list nat -> list nat -> double.
Variable stored : string -> string -> result ndarray.
Variable source : SimulationData.
Variables source_field source_face : string.
Variable blocks : list nat.
Variable index_uniq : list (list nat).
Variable source_shape : list nat.

Hypothesis index_uniq_ok : index_unique source blocks = Ok index_uniq.
Hypothesis source_shape_ok :
  face_flat_shape FACES_0 FACES_1 FACES_2 source (Some blocks) source_face = Ok source_shape.

Local Abbreviation shift := (face_shift FACES_0 FACES_1 FACES_2 source_face).

Lemma gather3_reassembled (values : ndarray) :
  gather (place3 (sizes source) shift)
         (fun b => block_data stored (blkPath source) source_field [b])
         (combine index_uniq blocks)
         (numpy_empty uninit (rev source_shape)) = Ok values ->
  reassembled values (rev source_shape) blocks index_uniq
    (fun b => block_data stored (blkPath source) source_field [b])
    (slices_of3 (sizes source) shift) (offset3 (sizes source))
    (extent3 (sizes source) shift).
Proof.
  intros Hg.
  destruct (sizes source) as [[sz0 sz1] sz2] eqn:Hsz.
  destruct shift as [[sh0 sh1] sh2] eqn:Hsh.
  destruct (index_unique_bounds _ _ _ _ _ _ _ _ _ _ _ _ _ _ Hsz Hsh index_uniq_ok
              source_shape_ok) as [Hlen (e0 & e1 & e2 & Hshp & Hall)].
  pose proof (gather_reads _ _ _ _ _ Hg) as Hreads.
  destruct (gather_cells _ _ (place3_slices (sz0, sz1, sz2) (sh0, sh1, sh2)) _ _ _ _ Hg)
    as [Hshape Hcells].
  simpl in Hshape. split; [exact Hshape |].
  intros p b Hb.
  destruct (nth_error index_uniq p) as [ijk |] eqn:Hijk.
  2: { apply nth_error_None in Hijk. assert (p < length blocks) by
         (apply nth_error_Some; congruence). lia. }
  rewrite Forall_forall in Hall.
  destruct (Hall ijk (nth_error_In _ _ Hijk)) as (i & j & k & -> & Hi & Hj & Hk).
  pose proof (combine_nth_error _ _ _ _ _ Hijk Hb) as Hpair.
  destruct (Hreads _ _ (nth_error_In _ _ Hpair)) as [data Hdata].
  exists [i; j; k], data. split; [reflexivity |]. split; [reflexivity |].
  split; [exact Hdata |].
  intros off Hoff. apply within3 in Hoff.
  destruct Hoff as (c & r & a & -> & Hc & Hr & Ha).
  rewrite Hshape, Hshp. cbn [rev app offset3 add_offsets combine map].
  assert (Hin : k * sz2 + c < e2 * sz2 + sh2 /\ j * sz1 + r < e1 * sz1 + sh1
                /\ i * sz0 + a < e0 * sz0 + sh0) by nia.
  destruct Hin as (Hkc & Hjr & Hia).
  split; [repeat constructor; assumption |].
  intros Hlater.
  destruct (proj2 (Hcells [k * sz2 + c; j * sz1 + r; i * sz0 + a]) p [i; j; k] b Hpair)
    as [data' [Hdata' Hval]].
  - cbn [numpy_empty shape]. rewrite Hshp.
    cbn [rev app slices_of3 slices3 in_slices].
    replace ((k + 1) * sz2 + sh2) with (k * sz2 + (sz2 + sh2)) by lia.
    replace ((j + 1) * sz1 + sh1) with (j * sz1 + (sz1 + sh1)) by lia.
    replace ((i + 1) * sz0 + sh0) with (i * sz0 + (sz0 + sh0)) by lia.
    rewrite !slice_hit by assumption. reflexivity.
  - intros ijk' b' Hin'. rewrite skipn_combine in Hin'. apply in_combine_l in Hin'.
    cbn [numpy_empty shape]. rewrite Hshp. cbn [rev app].
    apply Hlater. apply in_map. exact Hin'.
  - rewrite Hval. cbn [slices_of3 slices3 slice_offset].
    rewrite !offset_back. cbv beta in Hdata, Hdata'.
    rewrite Hdata in Hdata'. inversion Hdata'; subst data'. reflexivity.
Qed.
Lemma gather2_reassembled (values : ndarray) :
  gather (place2 (sizes source) shift)
         (fun b => block_data stored (blkPath source) source_field [b; 0])
         (combine index_uniq blocks)
         (numpy_empty uninit (rev (firstn 2 source_shape))) = Ok values ->
  reassembled values (rev (firstn 2 source_shape)) blocks index_uniq
    (fun b => block_data stored (blkPath source) source_field [b; 0])
    (slices_of2 (sizes source) shift) (offset2 (sizes source))
    (extent2 (sizes source) shift).
Proof.
  intros Hg.
  destruct (sizes source) as [[sz0 sz1] sz2] eqn:Hsz.
  destruct shift as [[sh0 sh1] sh2] eqn:Hsh.
  destruct (index_unique_bounds _ _ _ _ _ _ _ _ _ _ _ _ _ _ Hsz Hsh index_uniq_ok
              source_shape_ok) as [Hlen (e0 & e1 & e2 & Hshp & Hall)].
  pose proof (gather_reads _ _ _ _ _ Hg) as Hreads.
  destruct (gather_cells _ _ (place2_slices (sz0, sz1, sz2) (sh0, sh1, sh2)) _ _ _ _ Hg)
    as [Hshape Hcells].
  simpl in Hshape. split; [exact Hshape |].
  intros p b Hb.
  destruct (nth_error index_uniq p) as [ijk |] eqn:Hijk.
  2: { apply nth_error_None in Hijk. assert (p < length blocks) by
         (apply nth_error_Some; congruence). lia. }
  rewrite Forall_forall in Hall.
  destruct (Hall ijk (nth_error_In _ _ Hijk)) as (i & j & k & -> & Hi & Hj & Hk).
  pose proof (combine_nth_error _ _ _ _ _ Hijk Hb) as Hpair.
  destruct (Hreads _ _ (nth_error_In _ _ Hpair)) as [data Hdata].
  exists [i; j; k], data. split; [reflexivity |]. split; [reflexivity |].
  split; [exact Hdata |].
  intros off Hoff. apply within2 in Hoff.
  destruct Hoff as (r & a & -> & Hr & Ha).
  rewrite Hshape, Hshp. cbn [firstn rev app offset2 add_offsets combine map].
  assert (Hin : j * sz1 + r < e1 * sz1 + sh1 /\ i * sz0 + a < e0 * sz0 + sh0) by nia.
  destruct Hin as (Hjr & Hia).
  split; [repeat constructor; assumption |].
  intros Hlater.
  destruct (proj2 (Hcells [j * sz1 + r; i * sz0 + a]) p [i; j; k] b Hpair)
    as [data' [Hdata' Hval]].
  - cbn [numpy_empty shape]. rewrite Hshp.
    cbn [firstn rev app slices_of2 slices2 in_slices].
    replace ((j + 1) * sz1 + sh1) with (j * sz1 + (sz1 + sh1)) by lia.
    replace ((i + 1) * sz0 + sh0) with (i * sz0 + (sz0 + sh0)) by lia.
    rewrite !slice_hit by assumption. reflexivity.
  - intros ijk' b' Hin'. rewrite skipn_combine in Hin'. apply in_combine_l in Hin'.
    cbn [numpy_empty shape]. rewrite Hshp. cbn [firstn rev app].
    apply Hlater. apply in_map. exact Hin'.
  - rewrite Hval. cbn [slices_of2 slices2 slice_offset].
    rewrite !offset_back. cbv beta in Hdata, Hdata'.
    rewrite Hdata in Hdata'. inversion Hdata'; subst data'. reflexivity.
Qed.

Variable io_fails : list event -> event -> bool.

(** C5. The local source array has the flattened shape (its axes reversed,
    and only the first two in two dimensions), and each overlapping source
    block, with logical index (i, j, k) among the unique centers of the
    overlap, occupies the slice that starts at the offset (i, j, k) times the
    block size and extends over one block size plus the face shift along
    each axis: the slice lies inside the array and holds the block's stored
    array, except where the slice of a block placed later covers it. *)
Theorem local_values_reassembled (s : state) :
  (forall values,
      snd (local_values3 uninit stored io_fails source source_field shift source_shape
             index_uniq blocks s) = Ok values ->
      reassembled values (rev source_shape) blocks index_uniq
        (fun b => block_data stored (blkPath source) source_field [b])
        (slices_of3 (sizes source) shift) (offset3 (sizes source))
        (extent3 (sizes source) shift))
  /\ (forall values,
        snd (local_values2 uninit stored io_fails source source_field shift source_shape
               index_uniq blocks s) = Ok values ->
        reassembled values (rev (firstn 2 source_shape)) blocks index_uniq
          (fun b => block_data stored (blkPath source) source_field [b; 0])
          (slices_of2 (sizes source) shift) (offset2 (sizes source))
          (extent2 (sizes source) shift)).
Proof.
  split; intros values Hv.
  - apply gather3_reassembled.
    destruct (run_gather stored io_fails (fun _ => True) (fun _ => True)
                (fun _ _ => Logic.I) (place3 (sizes source) shift) (blkPath source)
                source_field (fun b => [b]) (combine index_uniq blocks)
                (numpy_empty uninit (rev source_shape)) s Logic.I)
      as (new & _ & _ & _ & Hq).
    apply Hq. exact Hv.
  - apply gather2_reassembled.
    destruct (run_gather stored io_fails (fun _ => True) (fun _ => True)
                (fun _ _ => Logic.I) (place2 (sizes source) shift) (blkPath source)
                source_field (fun b => [b; 0]) (combine index_uniq blocks)
                (numpy_empty uninit (rev (firstn 2 source_shape))) s Logic.I)
      as (new & _ & _ & _ & Hq).
    apply Hq. exact Hv.
Qed.
End Layout.

Section Unsupported.
Variables FACES_0 FACES_1 FACES_2 : string.
Variable METHOD : string.
Variable from_simple : nat -> Index.
Variable mesh_width : Index -> list nat -> list (nat * nat * nat).
Variable interpn : string -> list (list Q) -> ndarray -> list (list Q) -> result ndarray.
Variable uninit : list nat -> list nat -> double.
Variable stored : string -> string -> result ndarray.
Variable io_fails : list event -> event -> bool.

Local Abbreviation interp :=
  (interp_blocks FACES_0 FACES_1 FACES_2 METHOD from_simple mesh_width interpn uninit
                 stored io_fails).

(** C7. When source and destination have the same dimensionality and it is
    neither 2 nor 3, [interp_blocks] returns without raising and writes no
    field data: no write reaches the output storage and the returned arrays
    are as [numpy.empty] left them.  This is for a run in which the storage
    operations succeed, on topologies with one center per bounding box, a
    dataset shape for each destination location of [flows], and a worker
    range within the destination blocks. *)
Theorem interp_blocks_other_dimension (nofile : bool) (s : state) :
  (forall history ev, io_fails history ev = false) ->
  ndim (st_destination s) = ndim (st_source s) ->
  ndim (st_source s) <> 2%Z ->
  ndim (st_source s) <> 3%Z ->
  length (centers (st_source s)) = length (bndboxes (st_source s)) ->
  (forall fl, In fl (st_flows s) ->
     exists shp, dict_get (fst (fst (snd fl))) (shapes (st_destination s)) = Some shp) ->
  Forall (fun b => b < length (bndboxes (st_destination s)))
         (index_range (from_simple (numProcs (st_destination s)))) ->
  exists output new,
    snd (interp nofile s) = Ok output
    /\ st_io (fst (interp nofile s)) = st_io s ++ new
    /\ Forall (fun ev => ~ is_write ev) new
    /\ forall field arr idx,
         dict_get field output = Some arr -> item arr idx = uninit (shape arr) idx.
Proof.
  intros Hio Hdim H2 H3 Hcenters Hshapes Hrange.
  destruct (interp_blocks_run FACES_0 FACES_1 FACES_2 METHOD from_simple mesh_width
              interpn uninit stored io_fails nofile s) as (new & Hf & Hp & Hq).
  destruct (returns_interp_blocks_body_other FACES_0 FACES_1 FACES_2 METHOD from_simple
              mesh_width interpn uninit stored io_fails Hio
              (st_destination s) (st_source s) (st_flows s) H2 H3 Hcenters nofile
              Hdim Hshapes Hrange s) as [output Hout].
  rewrite <- interp_blocks_unfold in Hout.
  exists output, new. split; [exact Hout |]. split; [apply Hf |]. split.
  - eapply Forall_impl; [| exact Hp].
    intros ev Hev Hw. destruct ev; simpl in Hw; try contradiction.
    simpl in Hev. destruct Hev as [[Hd | Hd] _]; contradiction.
  - intros field arr idx Hget.
    destruct (Hq output Hout field arr Hget idx) as [Hu | [[Hd | Hd] _]];
      [exact Hu | contradiction | contradiction].
Qed.
End Unsupported.

Lemma interp_blocks_other_dimension_witness :
  exists output new,
    snd (example_run (mkState (set_ndim 1 fine) (set_ndim 1 coarse) example_flows [] []))
    = Ok output
    /\ st_io (fst (example_run
                     (mkState (set_ndim 1 fine) (set_ndim 1 coarse) example_flows [] [])))
       = [] ++ new
    /\ Forall (fun ev => ~ is_write ev) new
    /\ forall field arr idx,
         dict_get field output = Some arr -> item arr idx = example_uninit (shape arr) idx.
Proof.
  apply (interp_blocks_other_dimension "facex" "facey" "facez" "linear"
           example_from_simple example_mesh_width example_interpn example_uninit
           example_stored example_io false
           (mkState (set_ndim 1 fine) (set_ndim 1 coarse) example_flows [] [])).
  - reflexivity.
  - reflexivity.
  - simpl. discriminate.
  - simpl. discriminate.
  - reflexivity.
  - simpl. intros fl [<- | []]. eexists. reflexivity.
  - simpl. repeat constructor.
Defined.

Lemma interp_blocks_incompatible_witness :
  example_run (mkState (set_ndim 2 fine) coarse example_flows [] []) =
    (mkState (set_ndim 2 fine) coarse example_flows [] [],
     Raise (LibraryError "Incompatible source and destination grids for interpolation!")).
Proof.
  apply (interp_blocks_incompatible "facex" "facey" "facez" "linear"
           example_from_simple example_mesh_width example_interpn example_uninit
           example_stored example_io false
           (mkState (set_ndim 2 fine) coarse example_flows [] [])).
  simpl. discriminate.
Defined.

Lemma local_values_reassembled_witness :
  exists values,
    snd (local_values3 example_uninit example_stored example_io coarse "dens"
           (face_shift "facex" "facey" "facez" "center") [4; 1; 1]
           [[0; 0; 0]; [1; 0; 0]] [0; 1]
           (mkState fine coarse example_flows [] [])) = Ok values
    /\ reassembled values [1; 1; 4] [0; 1] [[0; 0; 0]; [1; 0; 0]]
         (fun b => block_data example_stored "coarse" "dens" [b])
         (slices_of3 (2, 1, 1) (face_shift "facex" "facey" "facez" "center"))
         (offset3 (2, 1, 1))
         (extent3 (2, 1, 1) (face_shift "facex" "facey" "facez" "center")).
Proof.
  eexists. split; [vm_compute; reflexivity |].
  apply (proj1 (local_values_reassembled "facex" "facey" "facez" example_uninit
                  example_stored coarse "dens" "center" [0; 1] [[0; 0; 0]; [1; 0; 0]]
                  [4; 1; 1] eq_refl eq_refl example_io
                  (mkState fine coarse example_flows [] []))).
  vm_compute. reflexivity.
Defined.

(** The scenario in three dimensions: the values -5, 5, 15, 25 that the
    interpolation routine returns are written as 1, 4, 4, 4, within the
    range [1, 4] of the stored values. *)
Example example_run_clipped :
  exists data,
    nth_error (st_io (fst (example_run (mkState fine coarse example_flows [] [])))) 6
    = Some (WritePartial "dens" data 0)
    /\ flatten data = [Finite 1; Finite 4; Finite 4; Finite 4].
Proof.
  eexists. split; vm_compute; reflexivity.
Qed.



(** * Further properties of the topology queries *)

(** ** The overlap query *)

Lemma in_blocks_from_bbox (self : SimulationData) (box : bbox) (blk : nat) :
  In blk (blocks_from_bbox self box)
  <-> exists bb, nth_error (bndboxes self) blk = Some bb /\ axes_overlap bb box.
Proof.
  unfold blocks_from_bbox, enumerate. rewrite in_map_iff. split.
  - intros [[n bb] [Hn Hin]]. simpl in Hn. subst n.
    apply filter_In in Hin. destruct Hin as [Hin Hf].
    apply in_enumerate_from in Hin. rewrite Nat.sub_0_r in Hin.
    exists bb. split; [tauto |]. apply forallb_combine_overlap. exact Hf.
  - intros [bb [Hnth Hov]]. exists (blk, bb). split; [reflexivity |].
    apply filter_In. split.
    + apply in_enumerate_from. rewrite Nat.sub_0_r. split; [lia | exact Hnth].
    + apply forallb_combine_overlap. exact Hov.
Qed.

(** X1. Enlarging the query box never loses a block: if, on every axis, the
    interval of [box'] contains the interval of [box], every block returned
    for [box] is returned for [box']. *)
Theorem blocks_from_bbox_monotone (self : SimulationData) (box box' : bbox) (blk : nat) :
  length box' = length box ->
  (forall axis l h l' h',
      nth_error box axis = Some (l, h) ->
      nth_error box' axis = Some (l', h') ->
      (l' <= l /\ h <= h')%Q) ->
  In blk (blocks_from_bbox self box) ->
  In blk (blocks_from_bbox self box').
Proof.
  intros Hlen Hsub Hin. apply in_blocks_from_bbox in Hin.
  destruct Hin as [bb [Hnth Hov]]. apply in_blocks_from_bbox.
  exists bb. split; [exact Hnth |].
  intros axis l1 h1 l2' h2' Hbb Hbox'.
  assert (Hlt : axis < length box).
  { rewrite <- Hlen. apply nth_error_Some. congruence. }
  apply nth_error_Some in Hlt.
  destruct (nth_error box axis) as [[l2 h2] |] eqn:Hbox; [| congruence].
  destruct (Hsub axis l2 h2 l2' h2' Hbox Hbox') as [Hl Hh].
  specialize (Hov axis l1 h1 l2 h2 Hbb Hbox).
  intros [H | H]; apply Hov.
  - left. eapply Qle_lt_trans; eauto.
  - right. eapply Qlt_le_trans; eauto.
Qed.

Lemma blocks_from_bbox_monotone_witness :
  In 3 (blocks_from_bbox grid_2x3x1 [(0, 1); (0, 1); (0, 1)]%Q).
Proof.
  apply (blocks_from_bbox_monotone grid_2x3x1
           [(3#4, 1); (1#2, 1#2); (0, 1)]%Q [(0, 1); (0, 1); (0, 1)]%Q 3).
  - reflexivity.
  - intros [| [| [| axis]]] l h l' h' H H';
      simpl in H, H'; inversion H; inversion H'; subst;
      try (split; vm_compute; discriminate).
    destruct axis; discriminate.
  - vm_compute. auto.
Defined.

(** X2. A block is found by its own bounding box: querying with the stored
    box of block [blk], whose intervals are not reversed, returns [blk]. *)
Theorem blocks_from_bbox_self (self : SimulationData) (blk : nat) (bb : bbox) :
  nth_error (bndboxes self) blk = Some bb ->
  Forall (fun '(l, h) => (l <= h)%Q) bb ->
  In blk (blocks_from_bbox self bb).
Proof.
  intros Hnth Hwf. apply in_blocks_from_bbox. exists bb. split; [exact Hnth |].
  intros axis l1 h1 l2 h2 H1 H2. rewrite H1 in H2. inversion H2; subst l2 h2.
  rewrite Forall_forall in Hwf. specialize (Hwf _ (nth_error_In _ _ H1)).
  simpl in Hwf. intros [H | H]; exact (Qlt_not_le _ _ H Hwf).
Qed.

Lemma blocks_from_bbox_self_witness :
  In 4 (blocks_from_bbox grid_2x3x1 [(0, 1#2); (2#3, 1); (0, 1)]%Q).
Proof.
  apply (blocks_from_bbox_self grid_2x3x1 4 [(0, 1#2); (2#3, 1); (0, 1)]%Q).
  - reflexivity.
  - repeat constructor; vm_compute; discriminate.
Defined.

(** ** Unique centers and logical indices *)

Lemma take_rows_out_of_range {A : Type} (a : list A) (blocks : list nat) :
  Exists (fun b => length a <= b) blocks -> take_rows a blocks = Raise IndexError.
Proof.
  unfold take_rows. induction blocks as [| b bs IH]; intros H.
  - inversion H.
  - simpl. destruct (nth_error a b) as [x |] eqn:E; simpl.
    + inversion H as [? ? Hb | ? ? Hbs]; subst.
      * apply nth_error_None in Hb. congruence.
      * rewrite (IH Hbs). reflexivity.
    + reflexivity.
Qed.

Lemma insert_unique_length {A : Type} (cmp : A -> A -> comparison) (x : A) (l : list A) :
  1 <= length (insert_unique cmp x l) <= S (length l).
Proof.
  induction l as [| y l IH]; simpl; [lia |].
  destruct (cmp x y); simpl; lia.
Qed.

Lemma unique_by_length {A : Type} (cmp : A -> A -> comparison) (l : list A) :
  length (unique_by cmp l) <= length l /\ (l <> [] -> 1 <= length (unique_by cmp l)).
Proof.
  unfold unique_by. induction l as [| x l [IH _]]; simpl.
  - split; [lia | congruence].
  - pose proof (insert_unique_length cmp x (fold_right (insert_unique cmp) [] l)).
    split; [lia | intros _; lia].
Qed.

Lemma numpy_unique_of (l : list Q) : unique_of (numpy_unique l) l.
Proof.
  split; [apply numpy_unique_sorted | intros v; apply numpy_unique_InA].
Qed.

Lemma where_first_nth (l : list Q) (x : Q) (i : nat) :
  where_first l x = Some i -> exists y, nth_error l i = Some y /\ (y == x)%Q.
Proof.
  revert i. induction l as [| z l IH]; simpl; intros i H; [discriminate |].
  destruct (Qeq_bool z x) eqn:E.
  - inversion H; subst. exists z. split; [reflexivity |]. apply Qeq_bool_iff. exact E.
  - destruct (where_first l x) as [j |]; simpl in H; inversion H; subst.
    apply (IH j eq_refl).
Qed.

Lemma where_first_Qeq (l : list Q) (x x' : Q) :
  (x == x')%Q -> where_first l x = where_first l x'.
Proof.
  intros Hx. induction l as [| z l IH]; simpl; [reflexivity |].
  assert (E : Qeq_bool z x = Qeq_bool z x').
  { apply eq_true_iff_eq. rewrite !Qeq_bool_iff, Hx. reflexivity. }
  rewrite E, IH. reflexivity.
Qed.

Lemma centers_unique_rows (self : SimulationData) (blocks : option (list nat))
    (rows : list center) :
  sliced_rows (centers self) blocks = Ok rows ->
  centers_unique self blocks =
    Ok [numpy_unique (map (fun c => center_axis c 0) rows);
        numpy_unique (map (fun c => center_axis c 1) rows);
        numpy_unique (map (fun c => center_axis c 2) rows)].
Proof.
  intros H. unfold centers_unique. rewrite H. reflexivity.
Qed.

(** X3. [centers_unique] returns, for each of the three axes, the center
    coordinates of the selected blocks along that axis, in strictly
    increasing order and without repetition. *)
Theorem centers_unique_sorted (self : SimulationData) (blocks : option (list nat))
    (rows : list center) :
  sliced_rows (centers self) blocks = Ok rows ->
  exists ux uy uz,
    centers_unique self blocks = Ok [ux; uy; uz]
    /\ unique_of ux (map (fun c => center_axis c 0) rows)
    /\ unique_of uy (map (fun c => center_axis c 1) rows)
    /\ unique_of uz (map (fun c => center_axis c 2) rows).
Proof.
  intros H. do 3 eexists. split; [apply centers_unique_rows; exact H |].
  repeat split; try apply numpy_unique_sorted; apply numpy_unique_InA.
Qed.

Lemma centers_unique_sorted_witness :
  exists ux uy uz,
    centers_unique grid_2x3x1 (Some [5; 0; 1]) = Ok [ux; uy; uz]
    /\ unique_of ux [3#4; 1#4; 3#4]%Q
    /\ unique_of uy [5#6; 1#6; 1#6]%Q
    /\ unique_of uz [1#2; 1#2; 1#2]%Q.
Proof.
  apply (centers_unique_sorted grid_2x3x1 (Some [5; 0; 1])
           [(3#4, 5#6, 1#2); (1#4, 1#6, 1#2); (3#4, 1#6, 1#2)]%Q).
  reflexivity.
Defined.

(** X4. A block index that is not an index of [centers] makes every query on
    the subset raise [IndexError]. *)
Theorem subset_out_of_range (FACES_0 FACES_1 FACES_2 : string) (self : SimulationData)
    (blocks : list nat) (face : string) :
  Exists (fun b => length (centers self) <= b) blocks ->
  centers_unique self (Some blocks) = Raise IndexError
  /\ extent_unique self (Some blocks) = Raise IndexError
  /\ index_unique self blocks = Raise IndexError
  /\ index_flatten self (Some blocks) = Raise IndexError
  /\ face_flat_shape FACES_0 FACES_1 FACES_2 self (Some blocks) face = Raise IndexError.
Proof.
  intros H. apply take_rows_out_of_range in H.
  assert (Hcu : centers_unique self (Some blocks) = Raise IndexError).
  { unfold centers_unique, sliced_rows. rewrite H. reflexivity. }
  assert (Heu : extent_unique self (Some blocks) = Raise IndexError).
  { unfold extent_unique. rewrite Hcu. reflexivity. }
  split; [exact Hcu |]. split; [exact Heu |]. split; [| split].
  - unfold index_unique. rewrite Hcu. reflexivity.
  - unfold index_flatten, sliced_rows. rewrite H. reflexivity.
  - unfold face_flat_shape. rewrite Heu. reflexivity.
Qed.

Lemma subset_out_of_range_witness :
  centers_unique grid_2x3x1 (Some [0; 6]) = Raise IndexError
  /\ extent_unique grid_2x3x1 (Some [0; 6]) = Raise IndexError
  /\ index_unique grid_2x3x1 [0; 6] = Raise IndexError
  /\ index_flatten grid_2x3x1 (Some [0; 6]) = Raise IndexError
  /\ face_flat_shape "facex" "facey" "facez" grid_2x3x1 (Some [0; 6]) "center"
     = Raise IndexError.
Proof.
  apply (subset_out_of_range "facex" "facey" "facez" grid_2x3x1 [0; 6] "center").
  right. left. simpl. lia.
Defined.

(** X5. Each extent that [extent_unique] returns is at most the number of
    selected blocks, and at least one when a block is selected. *)
Theorem extent_unique_bounds (self : SimulationData) (blocks : option (list nat))
    (rows : list center) :
  sliced_rows (centers self) blocks = Ok rows ->
  exists ex ey ez,
    extent_unique self blocks = Ok [ex; ey; ez]
    /\ Forall (fun e => e <= length rows /\ (rows <> [] -> 1 <= e)) [ex; ey; ez].
Proof.
  intros H. unfold extent_unique. rewrite (centers_unique_rows _ _ _ H).
  do 3 eexists. split; [reflexivity |].
  assert (Hb : forall axis,
             length (numpy_unique (map (fun c => center_axis c axis) rows)) <= length rows
             /\ (rows <> [] ->
                 1 <= length (numpy_unique (map (fun c => center_axis c axis) rows)))).
  { intros axis.
    destruct (unique_by_length Qcompare (map (fun c => center_axis c axis) rows))
      as [Hle Hge].
    rewrite length_map in Hle. split; [exact Hle |].
    intros Hne. apply Hge. destruct rows; [congruence | discriminate]. }
  repeat constructor; apply Hb.
Qed.

Lemma extent_unique_bounds_witness :
  exists ex ey ez,
    extent_unique grid_2x3x1 (Some [5; 0; 1]) = Ok [ex; ey; ez]
    /\ Forall (fun e => e <= 3 /\ ([(3#4, 5#6, 1#2); (1#4, 1#6, 1#2); (3#4, 1#6, 1#2)]%Q <> []
                                  -> 1 <= e)) [ex; ey; ez].
Proof.
  apply (extent_unique_bounds grid_2x3x1 (Some [5; 0; 1])
           [(3#4, 5#6, 1#2); (1#4, 1#6, 1#2); (3#4, 1#6, 1#2)]%Q).
  reflexivity.
Defined.

Lemma take_rows_Forall2 {A : Type} (a : list A) (blocks : list nat) (rows : list A) :
  take_rows a blocks = Ok rows ->
  Forall2 (fun b r => nth_error a b = Some r) blocks rows.
Proof.
  unfold take_rows. intros H. apply mapM_Ok_Forall2 in H.
  eapply Forall2_impl; [| exact H]. intros b r Hb. simpl in Hb.
  destruct (nth_error a b); inversion Hb. reflexivity.
Qed.

Lemma Forall2_nth_error_l {A B : Type} (R : A -> B -> Prop) (la : list A) (lb : list B)
    (n : nat) (a : A) :
  Forall2 R la lb -> nth_error la n = Some a ->
  exists b, nth_error lb n = Some b /\ R a b.
Proof.
  intros H. revert n. induction H as [| x y la lb Hxy _ IH]; intros n Hn.
  - destruct n; discriminate.
  - destruct n as [| n]; simpl in *.
    + inversion Hn; subst. eauto.
    + apply IH. exact Hn.
Qed.

(** What [index_unique] computes for each selected block. *)
Lemma index_unique_rows (self : SimulationData) (blocks : list nat)
    (index_uniq : list (list nat)) :
  index_unique self blocks = Ok index_uniq ->
  exists rows,
    take_rows (centers self) blocks = Ok rows
    /\ Forall2 (fun c ijk =>
                  exists i j k,
                    ijk = [i; j; k]
                    /\ where_first (numpy_unique (map (fun c' => center_axis c' 0) rows))
                                   (center_axis c 0) = Some i
                    /\ where_first (numpy_unique (map (fun c' => center_axis c' 1) rows))
                                   (center_axis c 1) = Some j
                    /\ where_first (numpy_unique (map (fun c' => center_axis c' 2) rows))
                                   (center_axis c 2) = Some k)
               rows index_uniq.
Proof.
  intros H. unfold index_unique in H.
  apply rbind_Ok in H. destruct H as [unique [Hcu H]].
  apply rbind_Ok in H. destruct H as [rows [Hrows H]].
  exists rows. split; [exact Hrows |].
  rewrite (centers_unique_rows self (Some blocks) rows Hrows) in Hcu.
  inversion Hcu; subst unique; clear Hcu.
  apply mapM_Ok_Forall2 in H. eapply Forall2_impl; [| exact H].
  intros c ijk Hc. simpl in Hc.
  apply rbind_Ok in Hc. destruct Hc as [i [Hi Hc]].
  apply rbind_Ok in Hc. destruct Hc as [t1 [Hc1 Hc]].
  apply rbind_Ok in Hc1. destruct Hc1 as [j [Hj Hc1]].
  apply rbind_Ok in Hc1. destruct Hc1 as [t2 [Hc2 Hc1]].
  apply rbind_Ok in Hc2. destruct Hc2 as [k [Hk Hc2]].
  inversion Hc2; subst t2. inversion Hc1; subst t1. inversion Hc; subst ijk.
  exists i, j, k. split; [reflexivity |].
  unfold of_option in Hi, Hj, Hk.
  destruct (where_first _ (center_axis c 0)) as [i' |]; inversion Hi; subst i'.
  destruct (where_first _ (center_axis c 1)) as [j' |]; inversion Hj; subst j'.
  destruct (where_first _ (center_axis c 2)) as [k' |]; inversion Hk; subst k'.
  auto.
Qed.

(** X6. The logical index that [index_unique] gives a block leads back to
    the block's center: there is one index triple per selected block, in the
    order of the selection, and the unique centers of [centers_unique] hold,
    at the positions (i, j, k), the three coordinates of the block's center. *)
Theorem index_unique_lookup (self : SimulationData) (blocks : list nat)
    (index_uniq : list (list nat)) :
  index_unique self blocks = Ok index_uniq ->
  exists ux uy uz,
    centers_unique self (Some blocks) = Ok [ux; uy; uz]
    /\ length index_uniq = length blocks
    /\ forall p b,
         nth_error blocks p = Some b ->
         exists c i j k,
           nth_error (centers self) b = Some c
           /\ nth_error index_uniq p = Some [i; j; k]
           /\ holds_at ux i (center_axis c 0)
           /\ holds_at uy j (center_axis c 1)
           /\ holds_at uz k (center_axis c 2).
Proof.
  intros H. destruct (index_unique_rows _ _ _ H) as [rows [Hrows Hall]].
  do 3 eexists. split; [apply centers_unique_rows; exact Hrows |].
  pose proof (take_rows_Forall2 _ _ _ Hrows) as Hsel.
  split.
  - rewrite <- (Forall2_length Hall). symmetry. apply (Forall2_length Hsel).
  - intros p b Hb.
    destruct (Forall2_nth_error_l _ _ _ _ _ Hsel Hb) as [c [Hc Hbc]].
    destruct (Forall2_nth_error_l _ _ _ _ _ Hall Hc)
      as [ijk [Hijk (i & j & k & -> & Hi & Hj & Hk)]].
    exists c, i, j, k. split; [exact Hbc |]. split; [exact Hijk |].
    unfold holds_at. auto using where_first_nth.
Qed.

Lemma index_unique_lookup_witness :
  exists ux uy uz,
    centers_unique grid_2x3x1 (Some [5; 0; 1]) = Ok [ux; uy; uz]
    /\ length [[1; 1; 0]; [0; 0; 0]; [1; 0; 0]] = length [5; 0; 1]
    /\ forall p b,
         nth_error [5; 0; 1] p = Some b ->
         exists c i j k,
           nth_error (centers grid_2x3x1) b = Some c
           /\ nth_error [[1; 1; 0]; [0; 0; 0]; [1; 0; 0]] p = Some [i; j; k]
           /\ holds_at ux i (center_axis c 0)
           /\ holds_at uy j (center_axis c 1)
           /\ holds_at uz k (center_axis c 2).
Proof.
  apply (index_unique_lookup grid_2x3x1 [5; 0; 1] [[1; 1; 0]; [0; 0; 0]; [1; 0; 0]]).
  reflexivity.
Defined.

Lemma sorted_where_first_inj (u : list Q) (x x' : Q) (i : nat) :
  where_first u x = Some i -> where_first u x' = Some i -> (x == x')%Q.
Proof.
  intros H H'. apply where_first_nth in H, H'.
  destruct H as [y [Hy Hx]]. destruct H' as [y' [Hy' Hx']].
  rewrite Hy in Hy'. inversion Hy'; subst y'.
  rewrite <- Hx, <- Hx'. reflexivity.
Qed.

(** X7. Two selected blocks get the same logical index exactly when their
    centers are the same point, so blocks with different centers are placed
    at different offsets of the local array. *)
Theorem index_unique_same_center (self : SimulationData) (blocks : list nat)
    (index_uniq : list (list nat)) (p q b b' : nat) (c c' : center)
    (ijk ijk' : list nat) :
  index_unique self blocks = Ok index_uniq ->
  nth_error blocks p = Some b -> nth_error (centers self) b = Some c ->
  nth_error blocks q = Some b' -> nth_error (centers self) b' = Some c' ->
  nth_error index_uniq p = Some ijk -> nth_error index_uniq q = Some ijk' ->
  (ijk = ijk' <-> same_center c c').
Proof.
  intros H Hb Hc Hb' Hc' Hp Hq.
  destruct (index_unique_rows _ _ _ H) as [rows [Hrows Hall]].
  pose proof (take_rows_Forall2 _ _ _ Hrows) as Hsel.
  destruct (Forall2_nth_error_l _ _ _ _ _ Hsel Hb) as [c0 [Hc0 Hbc]].
  destruct (Forall2_nth_error_l _ _ _ _ _ Hsel Hb') as [c0' [Hc0' Hbc']].
  assert (c0 = c) by congruence. assert (c0' = c') by congruence. subst c0 c0'.
  destruct (Forall2_nth_error_l _ _ _ _ _ Hall Hc0)
    as [t [Ht (i & j & k & -> & Hi & Hj & Hk)]].
  destruct (Forall2_nth_error_l _ _ _ _ _ Hall Hc0')
    as [t' [Ht' (i' & j' & k' & -> & Hi' & Hj' & Hk')]].
  assert (ijk = [i; j; k]) by congruence.
  assert (ijk' = [i'; j'; k']) by congruence. subst ijk ijk'.
  unfold same_center. split.
  - intros Heq. inversion Heq; subst i' j' k'.
    repeat split; eapply sorted_where_first_inj; eassumption.
  - intros (Hx & Hy & Hz).
    rewrite (where_first_Qeq _ _ _ Hx) in Hi.
    rewrite (where_first_Qeq _ _ _ Hy) in Hj.
    rewrite (where_first_Qeq _ _ _ Hz) in Hk.
    congruence.
Qed.

Lemma index_unique_same_center_witness :
  [1; 1; 0] = [1; 0; 0]
  <-> same_center (3#4, 5#6, 1#2)%Q (3#4, 1#6, 1#2)%Q.
Proof.
  apply (index_unique_same_center grid_2x3x1 [5; 0; 1]
           [[1; 1; 0]; [0; 0; 0]; [1; 0; 0]] 0 2 5 1); reflexivity.
Defined.

(** ** Face shifts for any configuration of the face names *)

(** X8. Whatever the three face names are, even if two of them coincide,
    [face_shift] adds a point along at most one axis: a later name of the
    configuration takes precedence over an earlier one that is the same. *)
Theorem face_shift_one_axis (FACES_0 FACES_1 FACES_2 face : string) :
  (let '(sx, sy, sz) := face_shift FACES_0 FACES_1 FACES_2 face in sx + sy + sz <= 1)
  /\ (face = FACES_2 -> face_shift FACES_0 FACES_1 FACES_2 face = (0, 0, 1))
  /\ (face = FACES_1 -> face <> FACES_2 ->
      face_shift FACES_0 FACES_1 FACES_2 face = (0, 1, 0))
  /\ (face = FACES_0 -> face <> FACES_1 -> face <> FACES_2 ->
      face_shift FACES_0 FACES_1 FACES_2 face = (1, 0, 0)).
Proof.
  rewrite face_shift_cases.
  destruct (String.eqb_spec face FACES_2) as [E2 | N2];
    [| destruct (String.eqb_spec face FACES_1) as [E1 | N1];
       [| destruct (String.eqb_spec face FACES_0) as [E0 | N0]]];
    simpl; repeat split; intros; try reflexivity; try lia; congruence.
Qed.

(** ** The clip *)

Lemma Qmax_min_inside (x lo hi : Q) :
  (lo <= x)%Q -> (x <= hi)%Q -> (Qmax (Qmin x hi) lo == x)%Q.
Proof.
  intros Hlo Hhi. apply Qle_antisym.
  - apply Q.max_lub; [apply Q.le_min_l | exact Hlo].
  - eapply Qle_trans; [| apply Q.le_max_l].
    apply Q.min_glb; [apply Qle_refl | exact Hhi].
Qed.

Lemma Qmax_min_below (x lo hi : Q) :
  (lo <= hi)%Q -> (x < lo)%Q -> (Qmax (Qmin x hi) lo == lo)%Q.
Proof.
  intros Hlh Hx. apply Qle_antisym.
  - apply Q.max_lub; [| apply Qle_refl].
    eapply Qle_trans; [apply Q.le_min_l | apply Qlt_le_weak; exact Hx].
  - apply Q.le_max_r.
Qed.

Lemma Qmax_min_above (x lo hi : Q) :
  (lo <= hi)%Q -> (hi < x)%Q -> (Qmax (Qmin x hi) lo == hi)%Q.
Proof.
  intros Hlh Hx. apply Qle_antisym.
  - apply Q.max_lub; [apply Q.le_min_r | exact Hlh].
  - eapply Qle_trans; [| apply Q.le_max_l].
    apply Q.min_glb; [apply Qlt_le_weak; exact Hx | apply Qle_refl].
Qed.

(** The least and the greatest value of an array are both finite, in that
    order, or both NaN. *)
Lemma array_range_cases (a : ndarray) (vmin vmax : double) :
  array_min a = Ok vmin -> array_max a = Ok vmax ->
  (exists lo hi, vmin = Finite lo /\ vmax = Finite hi /\ (lo <= hi)%Q)
  \/ (vmin = NaN /\ vmax = NaN).
Proof.
  intros Hmin Hmax. destruct vmin as [| lo].
  - right. split; [reflexivity |]. destruct vmax as [| hi]; [reflexivity |].
    destruct (array_max_Finite_min _ _ _ Hmax Hmin) as [lo Hlo]. discriminate.
  - left. destruct (array_min_Finite_max _ _ _ Hmin Hmax) as [hi ->].
    exists lo, hi. split; [reflexivity |]. split; [reflexivity |].
    eapply array_min_le_max; eauto.
Qed.

(** X9. The clip keeps the shape of the interpolated array, leaves every
    value that is within the range of the local array as it is, and moves a
    value below (above) the range to the least (greatest) local value; where
    the interpolated value is NaN, and everywhere when the local array holds
    a NaN, the result is NaN. *)
Theorem clip_nearest (r values data : ndarray) :
  clip (Ok r) values = Ok data ->
  shape data = shape r
  /\ exists vmin vmax,
       array_min values = Ok vmin /\ array_max values = Ok vmax
       /\ forall idx,
            (dle vmin (item r idx) -> dle (item r idx) vmax ->
             deq (item data idx) (item r idx))
            /\ (dlt (item r idx) vmin -> deq (item data idx) vmin)
            /\ (dlt vmax (item r idx) -> deq (item data idx) vmax)
            /\ (item r idx = NaN \/ vmin = NaN \/ vmax = NaN -> item data idx = NaN).
Proof.
  unfold clip. cbn [rbind Ok]. intros H.
  apply rbind_Ok in H. destruct H as [vmax [Hmax H]].
  apply rbind_Ok in H. destruct H as [vmin [Hmin H]].
  inversion H; subst data. split; [reflexivity |].
  exists vmin, vmax. split; [exact Hmin |]. split; [exact Hmax |].
  intros idx. cbn [item numpy_maximum numpy_minimum].
  destruct (array_range_cases _ _ _ Hmin Hmax) as [(lo & hi & -> & -> & Hle) | [-> ->]].
  - destruct (item r idx) as [| x]; simpl.
    + repeat split; tauto.
    + split; [apply Qmax_min_inside |].
      split; [apply Qmax_min_below; exact Hle |].
      split; [apply Qmax_min_above; exact Hle |].
      intros [Hn | [Hn | Hn]]; discriminate Hn.
  - destruct (item r idx) as [| x]; simpl; repeat split; tauto.
Qed.

Lemma clip_nearest_witness :
  exists data,
    clip (Ok (mkArray [3] (fun idx => Finite (inject_Z (Z.of_nat (hd 0 idx))))))
         (mkArray [2] (fun _ => Finite 1)) = Ok data
    /\ shape data = [3].
Proof.
  eexists. split; [reflexivity |].
  apply (clip_nearest (mkArray [3] (fun idx => Finite (inject_Z (Z.of_nat (hd 0 idx)))))
           (mkArray [2] (fun _ => Finite 1))).
  reflexivity.
Defined.

(** ** Construction from a requested grid: the third axis *)

(** X10. With coordinates given for x and y and none for z, [from_options]
    builds a two-dimensional topology without looking at the third axis and
    without calling [read_coords], and raises [TypeError] for any other
    dimensionality. *)
Theorem from_options_missing_third_axis (BNAME : string)
    (path_join : string -> string -> string)
    (Mesh : Type) (axisMesh : nat -> nat -> nat -> list nat * Mesh)
    (read_coords : string -> Z -> result Coords)
    (get_shapes : Z -> nat * nat * nat -> nat * nat * nat -> list (string * list nat))
    (get_grids : Coords -> Z -> nat * nat * nat -> nat * nat * nat -> list (string * axis_grids))
    (get_blocks : Coords -> Z -> nat * nat * nat -> nat * nat * nat -> list center * list bbox)
    (block : option string) (x0 y0 : Q) (xs ys : list Q) (ndim : Z) (path : string)
    (procs sizes : nat * nat * nat) :
  (ndim = 2%Z ->
   exists sim,
     from_options BNAME path_join Mesh axisMesh read_coords get_shapes get_grids get_blocks
       block (Some (Some (x0 :: xs), Some (y0 :: ys), None)) ndim path procs sizes = Ok sim
     /\ ranges sim = [(x0, last xs x0); (y0, last ys y0); (0, 1)%Q])
  /\ (ndim <> 2%Z ->
      from_options BNAME path_join Mesh axisMesh read_coords get_shapes get_grids get_blocks
        block (Some (Some (x0 :: xs), Some (y0 :: ys), None)) ndim path procs sizes
      = Raise TypeError).
Proof.
  assert (Hlast : forall (a : Q) (l : list Q),
             coord_last (Some (a :: l)) = Ok (last l a)).
  { intros a l. unfold coord_last. destruct l as [| z l'] using rev_ind.
    - reflexivity.
    - simpl rev. rewrite rev_app_distr, last_last. reflexivity. }
  unfold from_options. destruct procs as [[p0 p1] p2].
  destruct (axisMesh p0 p1 p2) as [counts mesh].
  cbn [rbind Ok]. rewrite !Hlast. unfold coord_first. cbn [hd_error of_option rbind Ok].
  split.
  - intros ->. simpl.
    destruct (get_blocks _ _ _ _) as [cs bs]. eexists. split; reflexivity.
  - intros Hne. apply Z.eqb_neq in Hne. rewrite Hne. reflexivity.
Qed.

Lemma from_options_missing_third_axis_witness :
  (exists sim,
      from_options "block" String.append unit axisMesh_requested
        (fun _ _ => Raise IOError) (fun _ _ _ => []) (fun _ _ _ _ => [])
        (fun _ _ _ _ => ([], []))
        None (Some (Some [0; 1#2; 1], Some [0; 1], None)%Q) 2 "." (2, 1, 1) (8, 8, 1)
      = Ok sim
      /\ ranges sim = [(0, 1); (0, 1); (0, 1)]%Q)
  /\ from_options "block" String.append unit axisMesh_requested
       (fun _ _ => Raise IOError) (fun _ _ _ => []) (fun _ _ _ _ => [])
       (fun _ _ _ _ => ([], []))
       None (Some (Some [0; 1#2; 1], Some [0; 1], None)%Q) 3 "." (2, 1, 1) (8, 8, 1)
     = Raise TypeError.
Proof.
  split.
  - apply (from_options_missing_third_axis "block" String.append unit axisMesh_requested
             (fun _ _ => Raise IOError) (fun _ _ _ => []) (fun _ _ _ _ => [])
             (fun _ _ _ _ => ([], [])) None 0%Q 0%Q [1#2; 1]%Q [1%Q] 2 "."
             (2, 1, 1) (8, 8, 1)).
    reflexivity.
  - apply (from_options_missing_third_axis "block" String.append unit axisMesh_requested
             (fun _ _ => Raise IOError) (fun _ _ _ => []) (fun _ _ _ _ => [])
             (fun _ _ _ _ => ([], [])) None 0%Q 0%Q [1#2; 1]%Q [1%Q] 3 "."
             (2, 1, 1) (8, 8, 1)).
    discriminate.
Defined.

(** * Further properties of the engine *)

(** ** A destination block that no source block overlaps *)

Lemma bind_lift_Ok {A B : Type} (a : A) (k : A -> M B) (s : state) :
  bind (lift (Ok a)) k s = k a s.
Proof.
  reflexivity.
Qed.

Lemma bind_lift_Raise {A B : Type} (e : error) (k : A -> M B) (s : state) :
  bind (lift (Raise e)) k s = (s, Raise e).
Proof.
  reflexivity.
Qed.

Lemma bind_raised {A B : Type} (m : M A) (k : A -> M B) (s s' : state) (e : error) :
  m s = (s', Raise e) -> bind m k s = (s', Raise e).
Proof.
  intros H. unfold bind. rewrite H. reflexivity.
Qed.

(** [grids[face][axis][rows]] for the empty array of floats. *)
Lemma source_coords_empty (sim : SimulationData) (face : string) (axis : nat) :
  source_coords sim face axis []
  = Raise (match dict_get face (grids sim) with
           | Some _ => IndexError
           | None => KeyError face
           end).
Proof.
  unfold source_coords, dict_item.
  destruct (dict_get face (grids sim)) as [g |]; [| reflexivity].
  cbn [of_option rbind Ok]. destruct (nth_error g axis); reflexivity.
Qed.

Lemma face_flat_shape_nil (FACES_0 FACES_1 FACES_2 : string) (self : SimulationData)
    (face : string) :
  face_flat_shape FACES_0 FACES_1 FACES_2 self (Some []) face =
    Ok (tuple3 (face_shift FACES_0 FACES_1 FACES_2 face)).
Proof.
  unfold face_flat_shape, extent_unique, centers_unique, sliced_rows, take_rows.
  cbn [mapM rbind Ok map seq length numpy_unique unique_by fold_right].
  destruct (face_shift FACES_0 FACES_1 FACES_2 face) as [[sx sy] sz].
  destruct (sizes self) as [[s0 s1] s2]. reflexivity.
Qed.

Section NoOverlap.
Variables FACES_0 FACES_1 FACES_2 : string.
Variable METHOD : string.
Variable interpn : string -> list (list Q) -> ndarray -> list (list Q) -> result ndarray.
Variable uninit : list nat -> list nat -> double.
Variable stored : string -> string -> result ndarray.
Variable io_fails : list event -> event -> bool.
Variables destination source : SimulationData.

Lemma interp_field_no_overlap (step block : nat) (width : nat * nat * nat)
    (field face source_field source_face : string) (s : state) :
  ndim source = 2%Z \/ ndim source = 3%Z ->
  interp_field FACES_0 FACES_1 FACES_2 METHOD interpn uninit stored io_fails
    destination source step block width [] [] [[]; []; []]
    (field, (face, source_field, source_face)) s
  = (s, Raise (match dict_get source_face (grids source) with
               | Some _ => IndexError
               | None => KeyError source_face
               end)).
Proof.
  intros Hdim. destruct width as [[w0 w1] w2]. unfold interp_field.
  rewrite face_flat_shape_nil, bind_lift_Ok.
  destruct Hdim as [Hd | Hd]; rewrite Hd; cbn [Z.eqb Pos.eqb nth_error of_option];
    rewrite bind_lift_Ok, source_coords_empty; apply bind_lift_Raise.
Qed.

(** X11. In two and three dimensions, a destination block whose bounding box
    no source block overlaps cannot be interpolated: with at least one field
    to map, its turn of the loop raises [IndexError] for the first field, at
    the subscript of the source coordinates by the empty array of floats that
    [index_flatten] gives ([KeyError] when the source grids lack the field's
    source location), and leaves the state as it is -- nothing is read,
    written or reported for it. *)
Theorem interp_block_no_overlap (field face source_field source_face : string)
    (rest : list flow) (step block : nat) (width : nat * nat * nat) (box : bbox)
    (s : state) :
  blocks_from_bbox source box = [] ->
  ndim source = 2%Z \/ ndim source = 3%Z ->
  interp_block FACES_0 FACES_1 FACES_2 METHOD interpn uninit stored io_fails
    destination source ((field, (face, source_field, source_face)) :: rest)
    (step, (block, width, box)) s
  = (s, Raise (match dict_get source_face (grids source) with
               | Some _ => IndexError
               | None => KeyError source_face
               end)).
Proof.
  intros Hnone Hdim. unfold interp_block. rewrite Hnone.
  replace (index_unique source []) with (@Ok (list (list nat)) []) by reflexivity.
  replace (index_flatten source (Some [])) with (@Ok (list (list nat)) [[]; []; []])
    by reflexivity.
  rewrite !bind_lift_Ok. cbn [forM_].
  do 2 (apply bind_raised).
  apply (interp_field_no_overlap step block width field face source_field source_face s Hdim).
Qed.
End NoOverlap.

Lemma interp_block_no_overlap_witness :
  interp_block "facex" "facey" "facez" "linear" example_interpn example_uninit
    example_stored example_io fine coarse example_flows
    (0, (0, (0, 0, 0), [(5, 6); (0, 1); (0, 1)]%Q))
    (mkState fine coarse example_flows [] [])
  = (mkState fine coarse example_flows [] [], Raise IndexError).
Proof.
  apply (interp_block_no_overlap "facex" "facey" "facez" "linear" example_interpn
           example_uninit example_stored example_io fine coarse
           "dens" "center" "dens" "center" [] 0 0
           (0, 0, 0) [(5, 6); (0, 1); (0, 1)]%Q (mkState fine coarse example_flows [] [])).
  - vm_compute. reflexivity.
  - right. reflexivity.
Defined.

(** ** The order and the provenance of the logged operations *)

Lemma getitem_shape (a : ndarray) (i : nat) (row : ndarray) :
  getitem a i = Ok row -> shape row = tl (shape a).
Proof.
  unfold getitem. destruct (shape a) as [| n sh]; [discriminate |].
  destruct (i <? n); [| discriminate].
  intros H. inversion H; subst. reflexivity.
Qed.

Section Provenance.
Variables FACES_0 FACES_1 FACES_2 : string.
Variable METHOD : string.
Variable from_simple : nat -> Index.
Variable mesh_width : Index -> list nat -> list (nat * nat * nat).
Variable interpn : string -> list (list Q) -> ndarray -> list (list Q) -> result ndarray.
Variable uninit : list nat -> list nat -> double.
Variable stored : string -> string -> result ndarray.
Variable io_fails : list event -> event -> bool.

Variables destination source : SimulationData.
Variable flows : list flow.
Variable index : Index.

Local Abbreviation Pc := (created destination flows).
Local Abbreviation Pk := (worked index destination source flows).
Local Abbreviation Is := (shaped_output index destination flows).
Local Abbreviation Ik :=
  (fun output => shaped_output index destination flows output /\ has_fields flows output).
Local Abbreviation any := (fun _ : unit => True).

Lemma run_gather_at (P : event -> Prop) (I : list (string * ndarray) -> Prop)
    (place : ndarray -> list nat -> ndarray -> result ndarray)
    (path field : string) (lead : nat -> list nat)
    (pairs : list (list nat * nat)) (init : ndarray) :
  P (ReadDataset path field) ->
  run P I (fun _ : ndarray => True)
    (foldM (fun values '(ijk, source_block) =>
              data <- read_block stored io_fails path field (lead source_block) ;;
              lift (place values ijk data))
           pairs init).
Proof.
  intros HP. apply run_foldM; [| exact Logic.I].
  intros values [ijk b] _ _.
  eapply run_bind; [apply run_read_block; exact HP |].
  intros data _. apply run_lift. auto.
Qed.

Lemma run_create_field_shaped (fl : flow) :
  In fl flows -> run Pc Is any (create_field uninit io_fails destination index fl).
Proof.
  destruct fl as [field [[location sf] sface]]. intros Hin. unfold create_field.
  run_lift_step. apply dict_item_get in E.
  eapply run_bind.
  { apply run_perform. simpl. exists location, sf, sface. auto. }
  intros _ _. eapply run_bind; [apply run_gets_output |]. intros output Hout.
  apply run_set_output. intros field' arr Hget.
  rewrite dict_get_set in Hget.
  destruct (String.eqb_spec field' field) as [-> | _].
  - inversion Hget; subst arr. exists location, sf, sface, a. auto.
  - apply (Hout field' arr Hget).
Qed.

Lemma run_store_block_shaped (field : string) (step block : nat) (data : ndarray) :
  nth_error (index_range index) step = Some block ->
  run Pk Ik any (store_block io_fails field step block data).
Proof.
  intros Hstep. unfold store_block.
  eapply run_bind; [apply run_gets_output |]. intros output [Hout Hkeys].
  run_lift_step. apply dict_item_get in E.
  run_lift_step. rename a0 into arr', E0 into Hset.
  pose proof (setitem_row_shape _ _ _ _ Hset) as Hshape.
  destruct (Hout field a E) as (location & sf & sface & shp & Hin & Hloc & Hsh).
  eapply run_bind.
  { apply run_set_output. split.
    - intros field' arr'' Hget.
      rewrite dict_get_set in Hget.
      destruct (String.eqb_spec field' field) as [-> | _].
      + inversion Hget; subst arr''. exists location, sf, sface, shp.
        rewrite Hshape. auto.
      + apply (Hout field' arr'' Hget).
    - intros field' Hf. rewrite dict_get_set.
      destruct (String.eqb field' field); [discriminate | apply Hkeys, Hf]. }
  intros _ _. run_lift_step. rename a0 into row, E0 into Hrow.
  apply run_perform. simpl. split; [eapply nth_error_In; eauto |].
  exists location, sf, sface, shp. split; [exact Hin |]. split; [exact Hloc |].
  rewrite (getitem_shape _ _ _ Hrow), Hshape, Hsh. reflexivity.
Qed.

Lemma run_interp_field_shaped (step block : nat) (width : nat * nat * nat)
    (blocks : list nat) (index_uniq index_flat : list (list nat)) (fl : flow) :
  nth_error (index_range index) step = Some block ->
  In fl flows ->
  run Pk Ik any
    (interp_field FACES_0 FACES_1 FACES_2 METHOD interpn uninit stored io_fails
       destination source step block width blocks index_uniq index_flat fl).
Proof.
  intros Hstep Hin.
  destruct fl as [field [[face source_field] source_face]].
  destruct width as [[w0 w1] w2].
  assert (Hread : Pk (ReadDataset (blkPath source) source_field)).
  { simpl. split; [reflexivity |]. exists field, face, source_face. exact Hin. }
  unfold interp_field. run_lift_step.
  destruct (ndim source =? 3)%Z; [| destruct (ndim source =? 2)%Z].
  - do 6 run_lift_step.
    eapply run_bind; [apply run_gather_at; exact Hread |]. intros values _.
    do 4 run_lift_step. apply run_store_block_shaped. exact Hstep.
  - do 4 run_lift_step.
    eapply run_bind; [apply run_gather_at; exact Hread |]. intros values _.
    do 3 run_lift_step. apply run_store_block_shaped. exact Hstep.
  - apply run_ret. exact Logic.I.
Qed.

Lemma run_interp_block_shaped (widths : list (nat * nat * nat)) (boxes : list bbox)
    (it : nat * (nat * (nat * nat * nat) * bbox)) :
  In it (enumerate (zip3 (index_range index) widths boxes)) ->
  run Pk Ik any
    (interp_block FACES_0 FACES_1 FACES_2 METHOD interpn uninit stored io_fails
       destination source flows it).
Proof.
  intros Hin. destruct it as [step [[block width] box]].
  apply in_enumerate_from in Hin. rewrite Nat.sub_0_r in Hin. destruct Hin as [_ Hnth].
  apply zip3_nth_error in Hnth. destruct Hnth as (Hstep & _ & _).
  unfold interp_block. do 2 run_lift_step.
  eapply run_bind.
  - apply run_forM. intros fl Hfl. apply run_interp_field_shaped; assumption.
  - intros _ _. apply run_perform. exact Logic.I.
Qed.
Lemma create_field_output (fl : flow) (s : state) :
  snd (create_field uninit io_fails destination index fl s) = Ok tt ->
  exists arr,
    st_output (fst (create_field uninit io_fails destination index fl s))
    = dict_set (fst fl) arr (st_output s).
Proof.
  destruct fl as [field [[location sf] sface]].
  unfold create_field, bind, lift, perform, gets, set_output.
  destruct (dict_item location (shapes destination)) as [e | shp]; [discriminate |].
  destruct (io_fails (st_io s) (CreateDataset field shp)); [discriminate |].
  intros _. eexists. reflexivity.
Qed.

Lemma create_fields_keys (l : list flow) (s : state) :
  snd (forM_ l (create_field uninit io_fails destination index) s) = Ok tt ->
  (forall k, dict_get k (st_output s) <> None ->
     dict_get k (st_output
                   (fst (forM_ l (create_field uninit io_fails destination index) s)))
     <> None)
  /\ (forall fl, In fl l ->
        dict_get (fst fl)
          (st_output (fst (forM_ l (create_field uninit io_fails destination index) s)))
        <> None).
Proof.
  revert s. induction l as [| fl l IH]; intros s; cbn [forM_].
  - intros _. split; [auto | intros fl []].
  - unfold bind. pose proof (create_field_output fl s) as Hfl.
    destruct (create_field uninit io_fails destination index fl s) as [s1 [e | []]];
      [discriminate |].
    cbn [fst snd] in Hfl. destruct (Hfl eq_refl) as [arr Hout].
    intros Hrest. destruct (IH s1 Hrest) as [Hkeep Hnew].
    split.
    + intros k Hk. apply Hkeep. rewrite Hout, dict_get_set.
      destruct (String.eqb k (fst fl)); [discriminate | exact Hk].
    + intros fl' [<- | Hin]; [| apply Hnew, Hin].
      apply Hkeep. rewrite Hout, dict_get_set, String.eqb_refl. discriminate.
Qed.

Lemma log_with {A : Type} (L : list event -> Prop) (Q : A -> Prop)
    (enter exit : event) (body : M A) :
  (forall s, exists new,
      frame s (fst (body s)) new /\ L new /\ (forall a, snd (body s) = Ok a -> Q a)) ->
  forall s, exists new,
    frame s (fst (with_ io_fails enter exit body s)) new
    /\ bracketed enter exit L new
    /\ (forall a, snd (with_ io_fails enter exit body s) = Ok a -> Q a).
Proof.
  intros Hb s. unfold with_, bind, perform.
  destruct (io_fails (st_io s) enter); simpl.
  - exists []. split; [apply frame_refl |]. split; [left; reflexivity |].
    intros a H. discriminate H.
  - destruct (Hb (log enter s)) as (mid & Hf & HL & HQ).
    destruct (body (log enter s)) as [s' r]; simpl in *.
    exists (enter :: mid ++ [exit]). split; [| split; [| exact HQ]].
    + change (enter :: mid ++ [exit]) with ([enter] ++ (mid ++ [exit])).
      eapply frame_trans; [apply frame_log |].
      eapply frame_trans; [exact Hf | apply frame_log].
    + right. exists mid. auto.
Qed.

Lemma log_schema_then_work (widths : list (nat * nat * nat)) (s : state) :
  exists new,
    frame s
      (fst ((set_output [] ;;
             forM_ flows (create_field uninit io_fails destination index) ;;
             boxes <- lift (take_rows (bndboxes destination) (index_range index)) ;;
             forM_ (enumerate (zip3 (index_range index) widths boxes))
                   (interp_block FACES_0 FACES_1 FACES_2 METHOD interpn uninit stored
                      io_fails destination source flows) ;;
             gets st_output) s))
      new
    /\ schema_then_work Pc Pk new
    /\ (forall output,
          snd ((set_output [] ;;
                forM_ flows (create_field uninit io_fails destination index) ;;
                boxes <- lift (take_rows (bndboxes destination) (index_range index)) ;;
                forM_ (enumerate (zip3 (index_range index) widths boxes))
                      (interp_block FACES_0 FACES_1 FACES_2 METHOD interpn uninit stored
                         io_fails destination source flows) ;;
                gets st_output) s) = Ok output ->
          Ik output).
Proof.
  assert (R1 : run Pc Is any (forM_ flows (create_field uninit io_fails destination index))).
  { apply run_forM. intros fl Hfl. apply run_create_field_shaped. exact Hfl. }
  assert (R2 : run Pk Ik Ik
                 (boxes <- lift (take_rows (bndboxes destination) (index_range index)) ;;
                  forM_ (enumerate (zip3 (index_range index) widths boxes))
                        (interp_block FACES_0 FACES_1 FACES_2 METHOD interpn uninit stored
                           io_fails destination source flows) ;;
                  gets st_output)).
  { run_lift_step. eapply run_bind.
    - apply run_forM. intros it Hit. eapply run_interp_block_shaped; eauto.
    - intros _ _. apply run_gets_output. }
  set (rest := (boxes <- lift (take_rows (bndboxes destination) (index_range index)) ;;
                forM_ (enumerate (zip3 (index_range index) widths boxes))
                      (interp_block FACES_0 FACES_1 FACES_2 METHOD interpn uninit stored
                         io_fails destination source flows) ;;
                gets st_output)) in *.
  set (s0 := mkState (st_destination s) (st_source s) (st_flows s) (st_io s) []).
  assert (Hnil : Is (st_output s0)).
  { intros field arr Hget. discriminate Hget. }
  assert (Heq : (set_output [] ;;
                 forM_ flows (create_field uninit io_fails destination index) ;; rest) s
                = match forM_ flows (create_field uninit io_fails destination index) s0 with
                  | (s1, inl e) => (s1, inl e)
                  | (s1, inr _) => rest s1
                  end) by reflexivity.
  rewrite Heq. clear Heq.
  destruct (R1 s0 Hnil) as (n1 & F1 & P1 & I1 & _).
  pose proof (create_fields_keys flows s0) as Hkeys.
  destruct (forM_ flows (create_field uninit io_fails destination index) s0)
    as [s1 [e | []]]; cbn [fst snd] in *.
  - exists n1. split; [exact F1 |]. split.
    + exists n1, []. rewrite app_nil_r. auto.
    + intros output H. discriminate H.
  - assert (I1k : Ik (st_output s1)).
    { split; [exact I1 |]. intros field Hf. apply in_map_iff in Hf.
      destruct Hf as [fl [<- Hfl]]. apply (proj2 (Hkeys eq_refl)). exact Hfl. }
    destruct (R2 s1 I1k) as (n2 & F2 & P2 & _ & Q2).
    exists (n1 ++ n2). split; [| split].
    + eapply frame_trans; [exact F1 | exact F2].
    + exists n1, n2. auto.
    + exact Q2.
Qed.

Lemma log_interp_blocks_body (nofile : bool) (s : state) :
  index = from_simple (numProcs destination) ->
  exists new,
    frame s (fst (interp_blocks_body FACES_0 FACES_1 FACES_2 METHOD from_simple mesh_width
                    interpn uninit stored io_fails destination source flows nofile s)) new
    /\ interp_log index destination source nofile Pc Pk new
    /\ (forall output,
          snd (interp_blocks_body FACES_0 FACES_1 FACES_2 METHOD from_simple mesh_width
                 interpn uninit stored io_fails destination source flows nofile s)
          = Ok output ->
          Ik output).
Proof.
  intros Hindex. unfold interp_blocks_body. rewrite <- Hindex.
  destruct (negb (ndim destination =? ndim source)%Z).
  { exists []. split; [apply frame_refl |]. split; [left; reflexivity |].
    intros output H. discriminate H. }
  unfold interp_log.
  apply log_with. apply log_with. apply log_with.
  apply log_schema_then_work.
Qed.
End Provenance.

Lemma bracketed_impl (enter exit : event) (L L' : list event -> Prop) (new : list event) :
  (forall mid, L mid -> L' mid) -> bracketed enter exit L new -> bracketed enter exit L' new.
Proof.
  intros HL [-> | [mid [-> Hmid]]]; [left; reflexivity |].
  right. exists mid. auto.
Qed.

Lemma bracketed_Forall (P : event -> Prop) (enter exit : event)
    (L : list event -> Prop) (new : list event) :
  P enter -> P exit -> (forall mid, L mid -> Forall P mid) ->
  bracketed enter exit L new -> Forall P new.
Proof.
  intros Hen Hex HL [-> | [mid [-> Hmid]]]; [constructor |].
  constructor; [exact Hen |]. apply Forall_app. split; [apply HL, Hmid |].
  constructor; [exact Hex | constructor].
Qed.

Lemma schema_then_work_impl (Pc Pk Pc' Pk' : event -> Prop) (mid : list event) :
  (forall ev, Pc ev -> Pc' ev) -> (forall ev, Pk ev -> Pk' ev) ->
  schema_then_work Pc Pk mid -> schema_then_work Pc' Pk' mid.
Proof.
  intros Hc Hk (creates & work & -> & H1 & H2).
  exists creates, work. split; [reflexivity |].
  split; eapply Forall_impl; eauto.
Qed.

Section Logged.
Variables FACES_0 FACES_1 FACES_2 : string.
Variable METHOD : string.
Variable from_simple : nat -> Index.
Variable mesh_width : Index -> list nat -> list (nat * nat * nat).
Variable interpn : string -> list (list Q) -> ndarray -> list (list Q) -> result ndarray.
Variable uninit : list nat -> list nat -> double.
Variable stored : string -> string -> result ndarray.
Variable io_fails : list event -> event -> bool.

Local Abbreviation interp :=
  (interp_blocks FACES_0 FACES_1 FACES_2 METHOD from_simple mesh_width interpn uninit
                 stored io_fails).

Lemma interp_blocks_logged (nofile : bool) (s : state) :
  exists new,
    frame s (fst (interp nofile s)) new
    /\ interp_log (from_simple (numProcs (st_destination s))) (st_destination s)
         (st_source s) nofile
         (created (st_destination s) (st_flows s))
         (worked (from_simple (numProcs (st_destination s))) (st_destination s)
                 (st_source s) (st_flows s))
         new
    /\ (forall output,
          snd (interp nofile s) = Ok output ->
          shaped_output (from_simple (numProcs (st_destination s))) (st_destination s)
                        (st_flows s) output
          /\ has_fields (st_flows s) output).
Proof.
  apply (log_interp_blocks_body FACES_0 FACES_1 FACES_2 METHOD from_simple mesh_width
           interpn uninit stored io_fails (st_destination s) (st_source s) (st_flows s)
           (from_simple (numProcs (st_destination s))) nofile s eq_refl).
Qed.

(** X12. On every run, whether it returns or raises, the log is balanced
    and ordered: nothing is logged, or the source file is opened first and
    closed last; inside, the destination file is opened and closed; inside
    that, the progress bar is entered and left; and inside the bar all the
    dataset creations come before any read, write or progress notification. *)
Theorem interp_blocks_bracketed (nofile : bool) (s : state) :
  exists new,
    st_io (fst (interp nofile s)) = st_io s ++ new
    /\ interp_log (from_simple (numProcs (st_destination s))) (st_destination s)
         (st_source s) nofile is_create is_work new.
Proof.
  destruct (interp_blocks_logged nofile s) as (new & Hf & Hlog & _).
  exists new. split; [apply Hf |].
  unfold interp_log in *.
  repeat (eapply bracketed_impl; [| eassumption]; intros ? ?).
  eapply schema_then_work_impl; [| | eassumption].
  - intros ev Hev. destruct ev; simpl in *; tauto.
  - intros ev Hev. destruct ev; simpl in *; tauto.
Qed.

(** X13. Every storage operation that a run logs comes from [flows]: a
    dataset is created for a field of [flows] with the shape the destination
    gives for its location; a read is of a source field of [flows] and from
    the source file; a write is for a field of [flows] and a block of the
    worker's range and has the shape of one block of that field's dataset.
    The arrays returned have one row of that shape per block of the worker. *)
Theorem interp_blocks_sourced (nofile : bool) (s : state) :
  exists new,
    st_io (fst (interp nofile s)) = st_io s ++ new
    /\ Forall (sourced (from_simple (numProcs (st_destination s))) (st_destination s)
                 (st_source s) (st_flows s)) new
    /\ (forall output,
          snd (interp nofile s) = Ok output ->
          shaped_output (from_simple (numProcs (st_destination s))) (st_destination s)
                        (st_flows s) output).
Proof.
  destruct (interp_blocks_logged nofile s) as (new & Hf & Hlog & Hout).
  exists new. split; [apply Hf |]. split; [| intros output Ho; apply (Hout output Ho)].
  unfold interp_log in Hlog.
  eapply bracketed_Forall; [| | | exact Hlog]; [exact Logic.I | exact Logic.I |].
  intros m1 H1.
  eapply bracketed_Forall; [| | | exact H1]; [exact Logic.I | exact Logic.I |].
  intros m2 H2.
  eapply bracketed_Forall; [| | | exact H2]; [exact Logic.I | exact Logic.I |].
  intros m3 (creates & work & -> & Hc & Hk).
  apply Forall_app. split; eapply Forall_impl; try eassumption.
  - intros ev Hev. destruct ev; simpl in *; tauto.
  - intros ev Hev. destruct ev; simpl in *; tauto.
Qed.
End Logged.

(** ** A destination location without a dataset shape *)

Section MissingLocation.
Variables FACES_0 FACES_1 FACES_2 : string.
Variable METHOD : string.
Variable from_simple : nat -> Index.
Variable mesh_width : Index -> list nat -> list (nat * nat * nat).
Variable interpn : string -> list (list Q) -> ndarray -> list (list Q) -> result ndarray.
Variable uninit : list nat -> list nat -> double.
Variable stored : string -> string -> result ndarray.
Variable io_fails : list event -> event -> bool.
Hypothesis io_works : forall history ev, io_fails history ev = false.

Lemma with_io {A : Type} (enter exit : event) (body : M A) (s : state) :
  st_io (fst (with_ io_fails enter exit body s))
  = st_io (fst (body (log enter s))) ++ [exit]
  /\ snd (with_ io_fails enter exit body s) = snd (body (log enter s)).
Proof.
  unfold with_, bind, perform. rewrite io_works.
  destruct (body (log enter s)) as [s' r]. split; reflexivity.
Qed.

Lemma bind_raised_io {A B : Type} (m : M A) (k : A -> M B) (s : state) (e : error) :
  snd (m s) = Raise e ->
  st_io (fst (bind m k s)) = st_io (fst (m s)) /\ snd (bind m k s) = Raise e.
Proof.
  unfold bind. destruct (m s) as [s' [e' | a]]; simpl; intros H; inversion H.
  split; reflexivity.
Qed.

Lemma create_field_io (destination : SimulationData) (index : Index) (fl : flow)
    (s : state) :
  match dict_get (flow_location fl) (shapes destination) with
  | Some shp =>
      st_io (fst (create_field uninit io_fails destination index fl s))
      = st_io s ++ declared destination fl
      /\ snd (create_field uninit io_fails destination index fl s) = Ok tt
  | None =>
      create_field uninit io_fails destination index fl s
      = (s, Raise (KeyError (flow_location fl)))
  end.
Proof.
  destruct fl as [field [[location sf] sface]].
  unfold create_field, declared, flow_location, dict_item. cbn [fst snd].
  destruct (dict_get location (shapes destination)) as [shp |]; [| reflexivity].
  unfold bind, lift, perform, of_option. cbn. rewrite io_works. cbn. auto.
Qed.

Lemma create_fields_missing (destination : SimulationData) (index : Index)
    (pre post : list flow) (bad : flow) (s : state) :
  Forall (fun fl => dict_get (flow_location fl) (shapes destination) <> None) pre ->
  dict_get (flow_location bad) (shapes destination) = None ->
  st_io (fst (forM_ (pre ++ bad :: post) (create_field uninit io_fails destination index) s))
  = st_io s ++ flat_map (declared destination) pre
  /\ snd (forM_ (pre ++ bad :: post) (create_field uninit io_fails destination index) s)
     = Raise (KeyError (flow_location bad)).
Proof.
  intros Hpre Hbad. revert s. induction Hpre as [| fl pre Hfl _ IH]; intros s.
  - cbn [app forM_ flat_map]. unfold bind.
    pose proof (create_field_io destination index bad s) as H. rewrite Hbad in H.
    rewrite H. rewrite app_nil_r. split; reflexivity.
  - cbn [app forM_ flat_map]. unfold bind.
    pose proof (create_field_io destination index fl s) as H.
    destruct (dict_get (flow_location fl) (shapes destination)) as [shp |];
      [| congruence].
    destruct H as [Hio Hok].
    destruct (create_field uninit io_fails destination index fl s) as [s1 r].
    cbn [fst snd] in Hio, Hok. subst r. unfold Ok. cbv beta iota.
    destruct (IH s1) as [IHio IHr]. rewrite IHio, IHr, Hio, app_assoc.
    split; reflexivity.
Qed.

(** X14. When the destination has no dataset shape for the location of a
    field of [flows], a run whose storage operations succeed raises
    [KeyError] for the first such location.  Both files and the progress bar
    were entered by then and are left again, the datasets of the fields
    before it stay declared, and no block is worked on. *)
Theorem interp_blocks_missing_location (nofile : bool) (s : state)
    (pre post : list flow) (bad : flow) :
  ndim (st_destination s) = ndim (st_source s) ->
  st_flows s = pre ++ bad :: post ->
  Forall (fun fl => dict_get (flow_location fl) (shapes (st_destination s)) <> None) pre ->
  dict_get (flow_location bad) (shapes (st_destination s)) = None ->
  snd (interp_blocks FACES_0 FACES_1 FACES_2 METHOD from_simple mesh_width interpn uninit
         stored io_fails nofile s) = Raise (KeyError (flow_location bad))
  /\ st_io (fst (interp_blocks FACES_0 FACES_1 FACES_2 METHOD from_simple mesh_width
                   interpn uninit stored io_fails nofile s))
     = st_io s
       ++ [OpenFile (blkPath (st_source s)) "r" [("force", true)];
           OpenFile (blkPath (st_destination s)) "w-" [("clean", true); ("nofile", nofile)];
           BarEnter (index_size (from_simple (numProcs (st_destination s))))]
       ++ flat_map (declared (st_destination s)) pre
       ++ [BarExit; CloseFile (blkPath (st_destination s)); CloseFile (blkPath (st_source s))].
Proof.
  intros Hdim Hflows Hpre Hbad.
  rewrite interp_blocks_unfold. unfold interp_blocks_body.
  rewrite Hdim, Z.eqb_refl. cbn [negb]. rewrite Hflows.
  match goal with
  | |- context [with_ _ ?en ?ex ?body s] =>
      destruct (with_io en ex body s) as [Hio1 Hr1]
  end.
  rewrite Hio1, Hr1. clear Hio1 Hr1.
  match goal with
  | |- context [with_ _ ?en ?ex ?body ?s1] =>
      destruct (with_io en ex body s1) as [Hio2 Hr2]
  end.
  rewrite Hio2, Hr2. clear Hio2 Hr2.
  match goal with
  | |- context [with_ _ ?en ?ex ?body ?s2] =>
      destruct (with_io en ex body s2) as [Hio3 Hr3]
  end.
  rewrite Hio3, Hr3. clear Hio3 Hr3.
  match goal with
  | |- context [bind (set_output []) ?k ?s3] =>
      change (bind (set_output []) k s3)
        with (k tt (mkState (st_destination s3) (st_source s3) (st_flows s3) (st_io s3) []))
  end.
  cbv beta.
  match goal with
  | |- context [bind (forM_ ?l ?f) ?k ?s4] =>
      destruct (create_fields_missing (st_destination s)
                  (from_simple (numProcs (st_destination s))) pre post bad s4 Hpre Hbad)
        as [Hio Hr];
      destruct (bind_raised_io (forM_ l f) k s4 _ Hr) as [Hio' Hr']
  end.
  rewrite Hio', Hr', Hio. split; [reflexivity |].
  cbn [st_io log]. rewrite <- !app_assoc. reflexivity.
Qed.
End MissingLocation.

Lemma interp_blocks_missing_location_witness :
  snd (example_run (mkState fine coarse example_flows2 [] []))
  = Raise (KeyError "facex")
  /\ st_io (fst (example_run (mkState fine coarse example_flows2 [] [])))
     = [] ++ [OpenFile "coarse" "r" [("force", true)];
              OpenFile "fine" "w-" [("clean", true); ("nofile", false)];
              BarEnter 1]
          ++ [CreateDataset "dens" [1; 1; 1; 4]]
          ++ [BarExit; CloseFile "fine"; CloseFile "coarse"].
Proof.
  apply (interp_blocks_missing_location "facex" "facey" "facez" "linear"
           example_from_simple example_mesh_width example_interpn example_uninit
           example_stored example_io (fun _ _ => eq_refl) false
           (mkState fine coarse example_flows2 [] [])
           [("dens", ("center", "dens", "center"))] []
           ("velx", ("facex", "velx", "facex"))).
  - reflexivity.
  - reflexivity.
  - repeat constructor. simpl. discriminate.
  - reflexivity.
Defined.

(** ** How many operations a run that returns has logged *)

Lemma count_if_app (f : event -> bool) (l1 l2 : list event) :
  count_if f (l1 ++ l2) = count_if f l1 + count_if f l2.
Proof.
  unfold count_if. rewrite filter_app, length_app. reflexivity.
Qed.

Section Tally.
Variable f : event -> bool.

Lemma tally_ret {A : Type} (a : A) : tally f 0 (ret a).
Proof.
  intros s a' _. exists []. rewrite app_nil_r. auto.
Qed.

Lemma tally_lift {A : Type} (r : result A) : tally f 0 (lift r).
Proof.
  intros s a' _. exists []. rewrite app_nil_r. auto.
Qed.

Lemma tally_gets {A : Type} (g : state -> A) : tally f 0 (gets g).
Proof.
  intros s a' _. exists []. rewrite app_nil_r. auto.
Qed.

Lemma tally_set_output (o : list (string * ndarray)) : tally f 0 (set_output o).
Proof.
  intros s a' _. exists []. simpl. rewrite app_nil_r. auto.
Qed.

Lemma tally_raise {A : Type} (n : nat) (e : error) : tally f n (@raise A e).
Proof.
  intros s a H. discriminate H.
Qed.

Lemma tally_bind {A B : Type} (n1 n2 : nat) (m : M A) (k : A -> M B) :
  tally f n1 m ->
  (forall s a, snd (m s) = Ok a -> tally f n2 (k a)) ->
  tally f (n1 + n2) (bind m k).
Proof.
  intros Hm Hk s b. unfold bind.
  specialize (Hm s). specialize (Hk s).
  destruct (m s) as [s1 [e | a]]; simpl in *; [discriminate |].
  intros Hb. destruct (Hm a eq_refl) as (l1 & H1 & C1).
  destruct (Hk a eq_refl s1 b Hb) as (l2 & H2 & C2).
  exists (l1 ++ l2). rewrite H2, H1, app_assoc, count_if_app. auto.
Qed.

Lemma tally_forM {A : Type} (n : nat) (l : list A) (body : A -> M unit) :
  (forall a, In a l -> tally f n (body a)) -> tally f (length l * n) (forM_ l body).
Proof.
  induction l as [| a l IH]; intros Hb; simpl.
  - apply tally_ret.
  - apply tally_bind; [apply Hb; left; reflexivity |].
    intros _ _ _. apply IH. intros; apply Hb; right; assumption.
Qed.

Lemma tally_foldM {A S : Type} (body : S -> A -> M S) (l : list A) (acc : S) :
  (forall acc' a, tally f 0 (body acc' a)) -> tally f 0 (foldM body l acc).
Proof.
  intros Hb. revert acc. induction l as [| a l IH]; intros acc; simpl.
  - apply tally_ret.
  - change 0 with (0 + 0). apply tally_bind; [apply Hb |].
    intros _ acc' _. apply IH.
Qed.

Variable io_fails : list event -> event -> bool.

Lemma tally_perform (ev : event) :
  tally f (if f ev then 1 else 0) (perform io_fails ev).
Proof.
  intros s a. unfold perform. destruct (io_fails (st_io s) ev); simpl; [discriminate |].
  intros _. exists [ev]. split; [reflexivity |].
  unfold count_if. simpl. destruct (f ev); reflexivity.
Qed.

Lemma tally_with {A : Type} (n : nat) (enter exit : event) (body : M A) :
  f enter = false -> f exit = false ->
  tally f n body -> tally f n (with_ io_fails enter exit body).
Proof.
  intros Hen Hex Hb s a. unfold with_, bind, perform.
  destruct (io_fails (st_io s) enter); simpl; [discriminate |].
  specialize (Hb (log enter s)).
  destruct (body (log enter s)) as [s' r]. simpl in *. intros Hr.
  destruct (Hb a Hr) as (mid & Hio & Hc).
  exists ([enter] ++ mid ++ [exit]). split.
  - rewrite Hio. rewrite <- !app_assoc. reflexivity.
  - rewrite !count_if_app, Hc. unfold count_if. simpl. rewrite Hen, Hex. simpl. lia.
Qed.
End Tally.

Lemma enumerate_from_length {A : Type} (l : list A) (start : nat) :
  length (enumerate_from start l) = length l.
Proof.
  revert start. induction l as [| a l IH]; intros start; simpl; [| rewrite IH]; reflexivity.
Qed.

Lemma zip3_length {A B C : Type} (la : list A) (lb : list B) (lc : list C) :
  length (zip3 la lb lc) = Nat.min (Nat.min (length la) (length lb)) (length lc).
Proof.
  revert lb lc. induction la as [| a la IH]; intros lb lc; [reflexivity |].
  destruct lb as [| b lb]; [reflexivity |].
  destruct lc as [| c lc]; simpl.
  - destruct (Nat.min (length la) (length lb)); reflexivity.
  - rewrite IH. reflexivity.
Qed.

Section EngineTally.
Variables FACES_0 FACES_1 FACES_2 : string.
Variable METHOD : string.
Variable from_simple : nat -> Index.
Variable mesh_width : Index -> list nat -> list (nat * nat * nat).
Variable interpn : string -> list (list Q) -> ndarray -> list (list Q) -> result ndarray.
Variable uninit : list nat -> list nat -> double.
Variable stored : string -> string -> result ndarray.
Variable io_fails : list event -> event -> bool.

Variable f : event -> bool.
Variables nc nw np : nat.
Hypothesis f_open : forall path mode keywords, f (OpenFile path mode keywords) = false.
Hypothesis f_close : forall path, f (CloseFile path) = false.
Hypothesis f_enter : forall size, f (BarEnter size) = false.
Hypothesis f_exit : f BarExit = false.
Hypothesis f_read : forall path field, f (ReadDataset path field) = false.
Hypothesis f_create : forall field shp, (if f (CreateDataset field shp) then 1 else 0) = nc.
Hypothesis f_write :
  forall field data block, (if f (WritePartial field data block) then 1 else 0) = nw.
Hypothesis f_progress : (if f Progress then 1 else 0) = np.

Variables destination source : SimulationData.
Variable flows : list flow.

Lemma tally_eq {A : Type} (n n' : nat) (m : M A) :
  n = n' -> tally f n m -> tally f n' m.
Proof.
  intros ->. auto.
Qed.

Lemma tally_step {A B : Type} (n : nat) (m : M A) (k : A -> M B) :
  tally f 0 m ->
  (forall s a, snd (m s) = Ok a -> tally f n (k a)) ->
  tally f n (bind m k).
Proof.
  intros Hm Hk. change n with (0 + n). apply tally_bind; assumption.
Qed.

Ltac tally_lifts :=
  repeat match goal with
         | |- tally _ _ (bind (lift _) _) =>
             apply tally_step; [apply tally_lift | intros ? ? ?]
         end.

Lemma tally_store_block (field : string) (step block : nat) (data : ndarray) :
  tally f nw (store_block io_fails field step block data).
Proof.
  unfold store_block.
  apply tally_step; [apply tally_gets | intros ? ? ?].
  tally_lifts.
  apply tally_step; [apply tally_set_output | intros ? ? ?].
  tally_lifts.
  rewrite <- (f_write field a3 block). apply tally_perform.
Qed.

Lemma tally_local_values (place : ndarray -> list nat -> ndarray -> result ndarray)
    (path field : string) (lead : nat -> list nat)
    (pairs : list (list nat * nat)) (init : ndarray) :
  tally f 0
    (foldM (fun values '(ijk, source_block) =>
              data <- read_block stored io_fails path field (lead source_block) ;;
              lift (place values ijk data))
           pairs init).
Proof.
  apply tally_foldM. intros values [ijk b].
  apply tally_step; [| intros ? ? ?; apply tally_lift].
  unfold read_block. apply tally_step; [| intros ? ? ?; apply tally_lift].
  pose proof (tally_perform f io_fails (ReadDataset path field)) as H.
  rewrite f_read in H. exact H.
Qed.

Lemma tally_interp_field (step block : nat) (width : nat * nat * nat)
    (blocks : list nat) (index_uniq index_flat : list (list nat)) (fl : flow) :
  tally f (interpolates (ndim source) * nw)
    (interp_field FACES_0 FACES_1 FACES_2 METHOD interpn uninit stored io_fails
       destination source step block width blocks index_uniq index_flat fl).
Proof.
  destruct fl as [field [[face source_field] source_face]].
  destruct width as [[w0 w1] w2]. unfold interp_field, interpolates.
  apply tally_step; [apply tally_lift | intros ? ? ?].
  destruct (ndim source =? 3)%Z; [| destruct (ndim source =? 2)%Z].
  - rewrite Nat.mul_1_l. tally_lifts.
    apply tally_step; [apply tally_local_values | intros ? ? ?].
    tally_lifts. apply tally_store_block.
  - rewrite Nat.mul_1_l. tally_lifts.
    apply tally_step; [apply tally_local_values | intros ? ? ?].
    tally_lifts. apply tally_store_block.
  - apply tally_ret.
Qed.

Lemma tally_interp_block (it : nat * (nat * (nat * nat * nat) * bbox)) :
  tally f (length flows * (interpolates (ndim source) * nw) + np)
    (interp_block FACES_0 FACES_1 FACES_2 METHOD interpn uninit stored io_fails
       destination source flows it).
Proof.
  destruct it as [step [[block width] box]]. unfold interp_block.
  tally_lifts. apply tally_bind.
  - apply tally_forM. intros fl _. apply tally_interp_field.
  - intros _ _ _. rewrite <- f_progress. apply tally_perform.
Qed.

Lemma tally_create_field (index : Index) (fl : flow) :
  tally f nc (create_field uninit io_fails destination index fl).
Proof.
  destruct fl as [field [[location sf] sface]]. unfold create_field.
  tally_lifts. replace nc with (nc + 0) by lia. apply tally_bind.
  - rewrite <- (f_create field a). apply tally_perform.
  - intros _ _ _. apply tally_step; [apply tally_gets | intros ? ? ?].
    apply tally_set_output.
Qed.

Lemma tally_interp_blocks_body (nofile : bool) :
  tally f
    (length flows * nc
     + Nat.min (length (index_range (from_simple (numProcs destination))))
               (length (mesh_width (from_simple (numProcs destination))
                                   (axisNumProcs destination)))
       * (length flows * (interpolates (ndim source) * nw) + np))
    (interp_blocks_body FACES_0 FACES_1 FACES_2 METHOD from_simple mesh_width interpn
       uninit stored io_fails destination source flows nofile).
Proof.
  unfold interp_blocks_body.
  destruct (negb (ndim destination =? ndim source)%Z); [apply tally_raise |].
  do 3 (apply tally_with; [auto | auto |]).
  apply tally_step; [apply tally_set_output | intros ? ? ?].
  apply tally_bind.
  - apply tally_forM. intros fl _. apply tally_create_field.
  - intros _ _ _. apply tally_step; [apply tally_lift | intros s' boxes Hboxes].
    simpl in Hboxes. unfold take_rows in Hboxes. apply mapM_length in Hboxes.
    eapply tally_eq; [| apply tally_bind;
                        [apply tally_forM; intros it _; apply tally_interp_block
                        | intros _ _ _; apply tally_gets]].
    unfold enumerate. rewrite enumerate_from_length, zip3_length, Hboxes.
    rewrite Nat.add_0_r. f_equal. lia.
Qed.
End EngineTally.

Section Counts.
Variables FACES_0 FACES_1 FACES_2 : string.
Variable METHOD : string.
Variable from_simple : nat -> Index.
Variable mesh_width : Index -> list nat -> list (nat * nat * nat).
Variable interpn : string -> list (list Q) -> ndarray -> list (list Q) -> result ndarray.
Variable uninit : list nat -> list nat -> double.
Variable stored : string -> string -> result ndarray.
Variable io_fails : list event -> event -> bool.

Local Abbreviation interp :=
  (interp_blocks FACES_0 FACES_1 FACES_2 METHOD from_simple mesh_width interpn uninit
                 stored io_fails).

(** X15. A run that returns has declared one dataset per field mapping, has
    notified the progress once per block it worked on, and has written one
    block per block worked on and field mapping in two and three dimensions
    (none in any other).  The blocks worked on are as many as the shorter of
    the worker's range and the list of mesh widths. *)
Theorem interp_blocks_counts (nofile : bool) (s : state)
    (output : list (string * ndarray)) :
  snd (interp nofile s) = Ok output ->
  let index := from_simple (numProcs (st_destination s)) in
  let steps := Nat.min (length (index_range index))
                       (length (mesh_width index (axisNumProcs (st_destination s)))) in
  exists new,
    st_io (fst (interp nofile s)) = st_io s ++ new
    /\ count_if is_createb new = length (st_flows s)
    /\ count_if is_progressb new = steps
    /\ count_if is_writeb new
       = steps * (length (st_flows s) * interpolates (ndim (st_source s))).
Proof.
  intros Hout index steps. rewrite interp_blocks_unfold in *.
  destruct (tally_interp_blocks_body FACES_0 FACES_1 FACES_2 METHOD from_simple
              mesh_width interpn uninit stored io_fails is_createb 1 0 0
              (fun _ _ _ => eq_refl) (fun _ => eq_refl) (fun _ => eq_refl) eq_refl
              (fun _ _ => eq_refl) (fun _ _ => eq_refl) (fun _ _ _ => eq_refl) eq_refl
              (st_destination s) (st_source s) (st_flows s) nofile s output Hout)
    as (new & Hio & Hc).
  destruct (tally_interp_blocks_body FACES_0 FACES_1 FACES_2 METHOD from_simple
              mesh_width interpn uninit stored io_fails is_progressb 0 0 1
              (fun _ _ _ => eq_refl) (fun _ => eq_refl) (fun _ => eq_refl) eq_refl
              (fun _ _ => eq_refl) (fun _ _ => eq_refl) (fun _ _ _ => eq_refl) eq_refl
              (st_destination s) (st_source s) (st_flows s) nofile s output Hout)
    as (new' & Hio' & Hp).
  destruct (tally_interp_blocks_body FACES_0 FACES_1 FACES_2 METHOD from_simple
              mesh_width interpn uninit stored io_fails is_writeb 0 1 0
              (fun _ _ _ => eq_refl) (fun _ => eq_refl) (fun _ => eq_refl) eq_refl
              (fun _ _ => eq_refl) (fun _ _ => eq_refl) (fun _ _ _ => eq_refl) eq_refl
              (st_destination s) (st_source s) (st_flows s) nofile s output Hout)
    as (new'' & Hio'' & Hw).
  rewrite Hio in Hio', Hio''.
  apply app_inv_head in Hio', Hio''. subst new' new''.
  exists new. split; [exact Hio |].
  fold index in Hc, Hp, Hw. fold steps in Hc, Hp, Hw.
  split; [| split].
  - rewrite Hc. nia.
  - rewrite Hp. nia.
  - rewrite Hw. nia.
Qed.
End Counts.

Lemma interp_blocks_counts_witness :
  exists new,
    st_io (fst (example_run (mkState fine coarse example_flows [] []))) = [] ++ new
    /\ count_if is_createb new = 1
    /\ count_if is_progressb new = 1
    /\ count_if is_writeb new = 1 * (1 * 1).
Proof.
  destruct (snd (example_run (mkState fine coarse example_flows [] [])))
    as [e | output] eqn:Hrun; [vm_compute in Hrun; discriminate Hrun |].
  exact (interp_blocks_counts "facex" "facey" "facez" "linear" example_from_simple
           example_mesh_width example_interpn example_uninit example_stored example_io
           false (mkState fine coarse example_flows [] []) output Hrun).
Defined.

Section OutputFields.
Variables FACES_0 FACES_1 FACES_2 : string.
Variable METHOD : string.
Variable from_simple : nat -> Index.
Variable mesh_width : Index -> list nat -> list (nat * nat * nat).
Variable interpn : string -> list (list Q) -> ndarray -> list (list Q) -> result ndarray.
Variable uninit : list nat -> list nat -> double.
Variable stored : string -> string -> result ndarray.
Variable io_fails : list event -> event -> bool.

(** X16. The dictionary that a run returns has an array for exactly the
    fields of [flows]. *)
Theorem interp_blocks_output_fields (nofile : bool) (s : state)
    (output : list (string * ndarray)) (field : string) :
  snd (interp_blocks FACES_0 FACES_1 FACES_2 METHOD from_simple mesh_width interpn uninit
         stored io_fails nofile s) = Ok output ->
  (In field (map fst (st_flows s)) <-> exists arr, dict_get field output = Some arr).
Proof.
  intros Hout.
  destruct (interp_blocks_logged FACES_0 FACES_1 FACES_2 METHOD from_simple mesh_width
              interpn uninit stored io_fails nofile s) as (new & _ & _ & Hpost).
  destruct (Hpost output Hout) as [Hshaped Hkeys]. split.
  - intros Hin. specialize (Hkeys field Hin).
    destruct (dict_get field output) as [arr |]; [eauto | congruence].
  - intros [arr Hget].
    destruct (Hshaped field arr Hget) as (location & sf & sface & shp & Hin & _).
    apply in_map_iff. exists (field, (location, sf, sface)). auto.
Qed.
End OutputFields.

Lemma interp_blocks_output_fields_witness :
  exists output,
    snd (example_run (mkState fine coarse example_flows [] [])) = Ok output
    /\ (In "dens" (map fst example_flows) <-> exists arr, dict_get "dens" output = Some arr).
Proof.
  destruct (snd (example_run (mkState fine coarse example_flows [] [])))
    as [e | output] eqn:Hrun; [vm_compute in Hrun; discriminate Hrun |].
  exists output. split; [reflexivity |].
  exact (interp_blocks_output_fields "facex" "facey" "facez" "linear" example_from_simple
           example_mesh_width example_interpn example_uninit example_stored example_io
           false (mkState fine coarse example_flows [] []) output "dens" Hrun).
Defined.

(** ** The flattened indices *)

Lemma insert_unique_nat_In (x y : nat) (l : list nat) :
  In y (insert_unique Nat.compare x l) <-> y = x \/ In y l.
Proof.
  induction l as [| z l IH]; simpl.
  - split; intros [H | H]; auto.
  - destruct (Nat.compare_spec x z) as [-> | Hlt | Hgt]; simpl.
    + split; [tauto |]. intros [-> | H]; auto.
    + split; intros [H | H]; auto.
    + rewrite IH. split; intros H; repeat destruct H as [H | H]; auto.
Qed.

Lemma insert_unique_nat_sorted (x : nat) (l : list nat) :
  StronglySorted lt l -> StronglySorted lt (insert_unique Nat.compare x l).
Proof.
  induction 1 as [| z l Hs IH Hall]; simpl.
  - constructor; constructor.
  - destruct (Nat.compare_spec x z) as [-> | Hlt | Hgt].
    + constructor; assumption.
    + constructor; [constructor; assumption |].
      constructor; [exact Hlt |].
      eapply Forall_impl; [| exact Hall]. intros a Ha. lia.
    + constructor; [exact IH |]. apply insert_unique_Forall; assumption.
Qed.

Lemma numpy_unique_int_spec (l : list nat) :
  StronglySorted lt (numpy_unique_int l)
  /\ forall i, In i (numpy_unique_int l) <-> In i l.
Proof.
  unfold numpy_unique_int, unique_by. induction l as [| x l [IHs IHi]]; simpl.
  - split; [constructor | tauto].
  - split; [apply insert_unique_nat_sorted; exact IHs |].
    intros i. rewrite insert_unique_nat_In, IHi. split; intros [H | H]; auto.
Qed.

(** Inserting related elements into related lists, when the two comparisons
    agree on related elements. *)
Lemma insert_unique_Forall2 {A B : Type} (ca : A -> A -> comparison)
    (cb : B -> B -> comparison) (R : A -> B -> Prop) (x : A) (y : B)
    (la : list A) (lb : list B) :
  (forall a b a' b', R a b -> R a' b' -> ca a a' = cb b b') ->
  R x y -> Forall2 R la lb ->
  Forall2 R (insert_unique ca x la) (insert_unique cb y lb).
Proof.
  intros Hagree Hxy Hl. induction Hl as [| a b la lb Hab Hl IH]; simpl.
  - constructor; [exact Hxy | constructor].
  - rewrite <- (Hagree x y a b Hxy Hab).
    destruct (ca x a); repeat constructor; assumption.
Qed.

Lemma unique_by_Forall2 {A B : Type} (ca : A -> A -> comparison)
    (cb : B -> B -> comparison) (R : A -> B -> Prop) (la : list A) (lb : list B) :
  (forall a b a' b', R a b -> R a' b' -> ca a a' = cb b b') ->
  Forall2 R la lb -> Forall2 R (unique_by ca la) (unique_by cb lb).
Proof.
  intros Hagree Hl. unfold unique_by. induction Hl as [| a b la lb Hab Hl IH]; simpl.
  - constructor.
  - apply insert_unique_Forall2; assumption.
Qed.

Lemma sorted_nth_lt (u : list Q) (i j : nat) (a b : Q) :
  StronglySorted Qlt u ->
  nth_error u i = Some a -> nth_error u j = Some b -> i < j -> (a < b)%Q.
Proof.
  intros Hs. revert i j. induction Hs as [| z u Hs IH Hall]; intros i j Hi Hj Hlt.
  - destruct i; discriminate.
  - destruct j as [| j]; [lia |]. simpl in Hj. destruct i as [| i]; simpl in Hi.
    + inversion Hi; subst. rewrite Forall_forall in Hall.
      apply Hall. eapply nth_error_In; eauto.
    + apply (IH i j); auto. lia.
Qed.

(** Positions in a strictly increasing list compare like the values. *)
Lemma where_first_compare (u : list Q) (x y : Q) (i j : nat) :
  StronglySorted Qlt u ->
  where_first u x = Some i -> where_first u y = Some j ->
  Qcompare x y = Nat.compare i j.
Proof.
  intros Hs Hx Hy. apply where_first_nth in Hx, Hy.
  destruct Hx as [a [Ha Hax]]. destruct Hy as [b [Hb Hby]].
  destruct (Nat.compare_spec i j) as [-> | Hlt | Hgt].
  - rewrite Ha in Hb. inversion Hb; subst b.
    apply Qeq_alt. rewrite <- Hax, <- Hby. reflexivity.
  - apply Qlt_alt. rewrite <- Hax, <- Hby. eapply sorted_nth_lt; eauto.
  - apply Qgt_alt. rewrite <- Hax, <- Hby. eapply sorted_nth_lt; eauto.
Qed.

Section Flatten.
Variable self : SimulationData.
Variable rows : list center.
Variable axis : nat.

Local Abbreviation global :=
  (numpy_unique (map (fun c' => center_axis c' axis) (centers self))).

Lemma flat_axis_unique (idx : list nat) :
  Forall2 (fun c i => where_first global (center_axis c axis) = Some i) rows idx ->
  flat_axis self rows axis (numpy_unique_int idx)
    (length (numpy_unique (map (fun c => center_axis c axis) rows))).
Proof.
  intros Hidx. destruct (numpy_unique_int_spec idx) as [Hs Hin].
  split; [exact Hs |]. split.
  - symmetry.
    apply (Forall2_length
             (R := fun x i => where_first global x = Some i)).
    apply unique_by_Forall2.
    + intros a b a' b' Ha Ha'.
      apply (where_first_compare global); auto using numpy_unique_sorted.
    + clear Hs Hin. induction Hidx; simpl; constructor; assumption.
  - intros i. rewrite Hin. split.
    + intros Hi. clear Hs Hin. induction Hidx as [| c j rs js Hcj _ IH].
      * inversion Hi.
      * destruct Hi as [-> | Hi].
        -- exists c. split; [left; reflexivity | exact Hcj].
        -- destruct (IH Hi) as [c' [Hc' Hw]]. exists c'. split; [right |]; assumption.
    + intros [c [Hc Hw]]. clear Hs Hin. induction Hidx as [| c' j rs js Hcj _ IH].
      * inversion Hc.
      * destruct Hc as [-> | Hc].
        -- left. congruence.
        -- right. apply IH. exact Hc.
Qed.
End Flatten.

(** X17. [index_flatten] returns, for each axis, the strictly increasing list
    of the positions that the centers of the selected blocks have among the
    unique centers of all the blocks; each list is as long as the extent
    that [extent_unique] gives for the selection, so the coordinates picked
    with it fit the flattened shape. *)
Theorem index_flatten_extent (self : SimulationData) (blocks : option (list nat))
    (flat : list (list nat)) :
  index_flatten self blocks = Ok flat ->
  exists rows fx fy fz ex ey ez,
    sliced_rows (centers self) blocks = Ok rows
    /\ flat = [fx; fy; fz]
    /\ extent_unique self blocks = Ok [ex; ey; ez]
    /\ flat_axis self rows 0 fx ex
    /\ flat_axis self rows 1 fy ey
    /\ flat_axis self rows 2 fz ez.
Proof.
  intros H. unfold index_flatten in H.
  apply rbind_Ok in H. destruct H as [rows [Hrows H]].
  exists rows.
  assert (Haxis : forall axis f,
             axis < 3 ->
             rbind (mapM (fun coord =>
                            rbind (centers_unique self None) (fun u =>
                            of_option IndexError
                              (where_first (nth axis u []) (center_axis coord axis))))
                         rows)
                   (fun idx => Ok (numpy_unique_int idx)) = Ok f ->
             flat_axis self rows axis f
               (length (numpy_unique (map (fun c => center_axis c axis) rows)))).
  { intros axis f Hax Hf. apply rbind_Ok in Hf. destruct Hf as [idx [Hidx Hf]].
    inversion Hf; subst f. apply flat_axis_unique.
    apply mapM_Ok_Forall2 in Hidx. eapply Forall2_impl; [| exact Hidx].
    intros c i Hci. cbv beta in Hci.
    rewrite (centers_unique_rows self None (centers self) eq_refl) in Hci.
    cbn [rbind Ok] in Hci.
    destruct axis as [| [| [| axis]]]; [| | | lia]; cbn [nth] in Hci;
      unfold of_option in Hci;
      destruct (where_first _ _) as [i' |]; inversion Hci; reflexivity. }
  cbn [seq mapM] in H.
  apply rbind_Ok in H. destruct H as [fx [Hx H]].
  apply rbind_Ok in H. destruct H as [t1 [H1 H]].
  apply rbind_Ok in H1. destruct H1 as [fy [Hy H1]].
  apply rbind_Ok in H1. destruct H1 as [t2 [H2 H1]].
  apply rbind_Ok in H2. destruct H2 as [fz [Hz H2]].
  inversion H2; subst t2. inversion H1; subst t1. inversion H; subst flat.
  exists fx, fy, fz. do 3 eexists. split; [exact Hrows |]. split; [reflexivity |].
  split.
  { unfold extent_unique. rewrite (centers_unique_rows _ _ _ Hrows). reflexivity. }
  split; [| split]; apply Haxis; auto.
Qed.

Lemma index_flatten_extent_witness :
  exists rows fx fy fz ex ey ez,
    sliced_rows (centers grid_2x3x1) (Some [5; 1]) = Ok rows
    /\ [[1]; [0; 2]; [0]] = [fx; fy; fz]
    /\ extent_unique grid_2x3x1 (Some [5; 1]) = Ok [ex; ey; ez]
    /\ flat_axis grid_2x3x1 rows 0 fx ex
    /\ flat_axis grid_2x3x1 rows 1 fy ey
    /\ flat_axis grid_2x3x1 rows 2 fz ez.
Proof.
  apply (index_flatten_extent grid_2x3x1 (Some [5; 1]) [[1]; [0; 2]; [0]]).
  reflexivity.
Defined.

(** ** The reassembly loop on well-shaped storage *)

Lemma broadcast_ok_refl (l : list nat) : broadcast_ok l l = true.
Proof.
  induction l as [| d l IH]; simpl; [reflexivity |].
  rewrite Nat.eqb_refl, IH. reflexivity.
Qed.

Lemma setitem_slices_fits (a : ndarray) (slices : list (nat * nat)) (v : ndarray) :
  length slices <= length (shape a) ->
  shape v = slice_shape (shape a) slices ->
  exists a', setitem_slices a slices v = Ok a' /\ shape a' = shape a.
Proof.
  intros Hlen Hsh. unfold setitem_slices.
  destruct (length (shape a) <? length slices) eqn:E.
  - apply Nat.ltb_lt in E. lia.
  - unfold broadcastable. rewrite Hsh, broadcast_ok_refl. eexists. split; reflexivity.
Qed.

Lemma slice_len (o e d : nat) : o + e <= d -> Nat.min (o + e) d - Nat.min o d = e.
Proof.
  lia.
Qed.

Lemma gather_returns (place : ndarray -> list nat -> ndarray -> result ndarray)
    (read : nat -> result ndarray) (J : ndarray -> Prop)
    (pairs : list (list nat * nat)) (init : ndarray) :
  (forall values ijk b,
      In (ijk, b) pairs -> J values ->
      exists data values',
        read b = Ok data /\ place values ijk data = Ok values' /\ J values') ->
  J init ->
  exists values, gather place read pairs init = Ok values.
Proof.
  revert init. induction pairs as [| [ijk b] rest IH]; intros init Hstep Hinit; simpl.
  - eauto.
  - destruct (Hstep init ijk b (or_introl eq_refl) Hinit) as (data & v' & Hr & Hp & Hj).
    rewrite Hr. simpl. rewrite Hp. simpl.
    apply IH; [| exact Hj]. intros; apply Hstep; auto. right. assumption.
Qed.

Lemma bind_unfold {A B : Type} (m : M A) (k : A -> M B) (s : state) :
  bind m k s = match m s with
               | (s', inl e) => (s', inl e)
               | (s', inr a) => k a s'
               end.
Proof.
  reflexivity.
Qed.

Section WellShaped.
Variables FACES_0 FACES_1 FACES_2 : string.
Variable uninit : list nat -> list nat -> double.
Variable stored : string -> string -> result ndarray.
Variable io_fails : list event -> event -> bool.
Hypothesis io_works : forall history ev, io_fails history ev = false.

Variable source : SimulationData.
Variables source_field source_face : string.
Variable blocks : list nat.
Variable index_uniq : list (list nat).
Variable source_shape : list nat.

Hypothesis index_uniq_ok : index_unique source blocks = Ok index_uniq.
Hypothesis source_shape_ok :
  face_flat_shape FACES_0 FACES_1 FACES_2 source (Some blocks) source_face = Ok source_shape.

Local Abbreviation shift := (face_shift FACES_0 FACES_1 FACES_2 source_face).

Lemma turn_io (place : ndarray -> list nat -> ndarray -> result ndarray)
    (path field : string) (lead : list nat) (values : ndarray) (ijk : list nat)
    (s : state) :
  (data <- read_block stored io_fails path field lead ;; lift (place values ijk data)) s
  = (log (ReadDataset path field) s,
     rbind (block_data stored path field lead) (place values ijk)).
Proof.
  unfold read_block, bind, perform, lift. rewrite io_works.
  destruct (block_data stored path field lead); reflexivity.
Qed.

Lemma foldM_gather (place : ndarray -> list nat -> ndarray -> result ndarray)
    (path field : string) (lead : nat -> list nat)
    (pairs : list (list nat * nat)) (init : ndarray) (s : state) :
  snd (foldM (fun values '(ijk, source_block) =>
                data <- read_block stored io_fails path field (lead source_block) ;;
                lift (place values ijk data))
             pairs init s)
  = gather place (fun b => block_data stored path field (lead b)) pairs init.
Proof.
  revert init s. induction pairs as [| [ijk b] rest IH]; intros init s.
  - reflexivity.
  - cbn [foldM gather]. rewrite bind_unfold, turn_io.
    destruct (block_data stored path field (lead b)) as [e | data]; [reflexivity |].
    cbn [rbind]. destruct (place init ijk data) as [e | values']; [reflexivity |].
    apply IH.
Qed.

Lemma gather3_returns :
  (forall b, In b blocks ->
     exists data,
       block_data stored (blkPath source) source_field [b] = Ok data
       /\ shape data = extent3 (sizes source) shift) ->
  exists values,
    gather (place3 (sizes source) shift)
           (fun b => block_data stored (blkPath source) source_field [b])
           (combine index_uniq blocks)
           (numpy_empty uninit (rev source_shape)) = Ok values.
Proof.
  intros Hdata.
  destruct (sizes source) as [[sz0 sz1] sz2] eqn:Hsz.
  destruct shift as [[sh0 sh1] sh2] eqn:Hsh.
  destruct (index_unique_bounds _ _ _ _ _ _ _ _ _ _ _ _ _ _ Hsz Hsh index_uniq_ok
              source_shape_ok) as [Hlen (e0 & e1 & e2 & Hshp & Hall)].
  apply gather_returns with (J := fun values => shape values = rev source_shape);
    [| reflexivity].
  intros values ijk b Hin Hv.
  destruct (Hdata b (in_combine_r _ _ _ _ Hin)) as [data [Hread Hshape]].
  rewrite Forall_forall in Hall.
  destruct (Hall ijk (in_combine_l _ _ _ _ Hin)) as (i & j & k & -> & Hi & Hj & Hk).
  destruct (setitem_slices_fits values (slices3 (sz0, sz1, sz2) (sh0, sh1, sh2) i j k) data)
    as [values' [Hset Hsh']].
  - rewrite Hv, Hshp. simpl. lia.
  - rewrite Hshape, Hv, Hshp. cbn [rev app extent3 slices3 slice_shape].
    replace ((k + 1) * sz2 + sh2) with (k * sz2 + (sz2 + sh2)) by lia.
    replace ((j + 1) * sz1 + sh1) with (j * sz1 + (sz1 + sh1)) by lia.
    replace ((i + 1) * sz0 + sh0) with (i * sz0 + (sz0 + sh0)) by lia.
    rewrite !slice_len by nia. reflexivity.
  - exists data, values'. split; [exact Hread |]. split; [exact Hset | congruence].
Qed.

Lemma gather2_returns :
  (forall b, In b blocks ->
     exists data,
       block_data stored (blkPath source) source_field [b; 0] = Ok data
       /\ shape data = extent2 (sizes source) shift) ->
  exists values,
    gather (place2 (sizes source) shift)
           (fun b => block_data stored (blkPath source) source_field [b; 0])
           (combine index_uniq blocks)
           (numpy_empty uninit (rev (firstn 2 source_shape))) = Ok values.
Proof.
  intros Hdata.
  destruct (sizes source) as [[sz0 sz1] sz2] eqn:Hsz.
  destruct shift as [[sh0 sh1] sh2] eqn:Hsh.
  destruct (index_unique_bounds _ _ _ _ _ _ _ _ _ _ _ _ _ _ Hsz Hsh index_uniq_ok
              source_shape_ok) as [Hlen (e0 & e1 & e2 & Hshp & Hall)].
  apply gather_returns
    with (J := fun values => shape values = rev (firstn 2 source_shape));
    [| reflexivity].
  intros values ijk b Hin Hv.
  destruct (Hdata b (in_combine_r _ _ _ _ Hin)) as [data [Hread Hshape]].
  rewrite Forall_forall in Hall.
  destruct (Hall ijk (in_combine_l _ _ _ _ Hin)) as (i & j & k & -> & Hi & Hj & Hk).
  destruct (setitem_slices_fits values (slices2 (sz0, sz1, sz2) (sh0, sh1, sh2) i j) data)
    as [values' [Hset Hsh']].
  - rewrite Hv, Hshp. simpl. lia.
  - rewrite Hshape, Hv, Hshp. cbn [firstn rev app extent2 slices2 slice_shape].
    replace ((j + 1) * sz1 + sh1) with (j * sz1 + (sz1 + sh1)) by lia.
    replace ((i + 1) * sz0 + sh0) with (i * sz0 + (sz0 + sh0)) by lia.
    rewrite !slice_len by nia. reflexivity.
  - exists data, values'. split; [exact Hread |]. split; [exact Hset | congruence].
Qed.

(** X18. When the storage operations succeed and the source file holds, for
    every overlapping block, an array of one block size plus the face shift
    along each axis, the reassembly loop returns a local array, in three
    dimensions as in two. *)
Theorem local_values_returns (s : state) :
  ((forall b, In b blocks ->
      exists data,
        block_data stored (blkPath source) source_field [b] = Ok data
        /\ shape data = extent3 (sizes source) shift) ->
   exists values,
     snd (local_values3 uninit stored io_fails source source_field shift source_shape
            index_uniq blocks s) = Ok values)
  /\ ((forall b, In b blocks ->
         exists data,
           block_data stored (blkPath source) source_field [b; 0] = Ok data
           /\ shape data = extent2 (sizes source) shift) ->
      exists values,
        snd (local_values2 uninit stored io_fails source source_field shift source_shape
               index_uniq blocks s) = Ok values).
Proof.
  split; intros Hdata.
  - unfold local_values3.
    rewrite (foldM_gather (place3 (sizes source) shift) (blkPath source) source_field
               (fun b => [b])).
    apply gather3_returns. exact Hdata.
  - unfold local_values2.
    rewrite (foldM_gather (place2 (sizes source) shift) (blkPath source) source_field
               (fun b => [b; 0])).
    apply gather2_returns. exact Hdata.
Qed.

(** X19. The reassembly loop initialises nothing but the slices of the
    blocks: an element of the local array that lies in no block's slice is
    as [numpy.empty] found it (and takes part in the range of the clip all
    the same). *)
Theorem local_values_untouched (s : state) (idx : list nat) :
  (forall values,
      snd (local_values3 uninit stored io_fails source source_field shift source_shape
             index_uniq blocks s) = Ok values ->
      (forall ijk, In ijk index_uniq ->
         in_slices (rev source_shape) idx (slices_of3 (sizes source) shift ijk) = false) ->
      item values idx = uninit (rev source_shape) idx)
  /\ (forall values,
        snd (local_values2 uninit stored io_fails source source_field shift source_shape
               index_uniq blocks s) = Ok values ->
        (forall ijk, In ijk index_uniq ->
           in_slices (rev (firstn 2 source_shape)) idx
                     (slices_of2 (sizes source) shift ijk) = false) ->
        item values idx = uninit (rev (firstn 2 source_shape)) idx).
Proof.
  split; intros values Hv Hout.
  - unfold local_values3 in Hv.
    rewrite (foldM_gather (place3 (sizes source) shift) (blkPath source) source_field
               (fun b => [b])) in Hv.
    destruct (gather_cells _ _ (place3_slices (sizes source) shift) _ _ _ _ Hv)
      as [_ Hcells].
    rewrite (proj1 (Hcells idx)); [reflexivity |].
    intros ijk b Hin. apply Hout. eapply in_combine_l; eauto.
  - unfold local_values2 in Hv.
    rewrite (foldM_gather (place2 (sizes source) shift) (blkPath source) source_field
               (fun b => [b; 0])) in Hv.
    destruct (gather_cells _ _ (place2_slices (sizes source) shift) _ _ _ _ Hv)
      as [_ Hcells].
    rewrite (proj1 (Hcells idx)); [reflexivity |].
    intros ijk b Hin. apply Hout. eapply in_combine_l; eauto.
Qed.
End WellShaped.

Lemma local_values_returns_witness :
  exists values,
    snd (local_values3 example_uninit example_stored example_io coarse "dens"
           (face_shift "facex" "facey" "facez" "center") [4; 1; 1]
           [[0; 0; 0]; [1; 0; 0]] [0; 1]
           (mkState fine coarse example_flows [] [])) = Ok values.
Proof.
  apply (proj1 (local_values_returns "facex" "facey" "facez" example_uninit
                  example_stored example_io (fun _ _ => eq_refl) coarse "dens" "center"
                  [0; 1] [[0; 0; 0]; [1; 0; 0]] [4; 1; 1] eq_refl eq_refl
                  (mkState fine coarse example_flows [] []))).
  intros b [<- | [<- | []]]; eexists; split; reflexivity.
Defined.

(** Two blocks on a diagonal of the 2 x 3 x 1 grid: the local array spans a
    2 x 2 lattice of blocks, of which two are not filled. *)
Lemma local_values_untouched_witness :
  exists values,
    snd (local_values3 example_uninit
           (fun _ _ => Ok (mkArray [6; 1; 8; 8] (fun _ => Finite 1))) example_io
           grid_2x3x1 "dens" (face_shift "facex" "facey" "facez" "center") [16; 16; 1]
           [[0; 0; 0]; [1; 1; 0]] [0; 3]
           (mkState fine grid_2x3x1 example_flows [] [])) = Ok values
    /\ item values [0; 0; 8] = example_uninit [1; 16; 16] [0; 0; 8].
Proof.
  destruct (snd (local_values3 example_uninit
                   (fun _ _ => Ok (mkArray [6; 1; 8; 8] (fun _ => Finite 1))) example_io
                   grid_2x3x1 "dens" (face_shift "facex" "facey" "facez" "center")
                   [16; 16; 1] [[0; 0; 0]; [1; 1; 0]] [0; 3]
                   (mkState fine grid_2x3x1 example_flows [] [])))
    as [e | values] eqn:Hrun; [vm_compute in Hrun; discriminate Hrun |].
  exists values. split; [reflexivity |].
  apply (proj1 (local_values_untouched "facex" "facey" "facez" example_uninit
                  (fun _ _ => Ok (mkArray [6; 1; 8; 8] (fun _ => Finite 1))) example_io
                  (fun _ _ => eq_refl) grid_2x3x1 "dens" "center" [0; 3]
                  [[0; 0; 0]; [1; 1; 0]] [16; 16; 1]
                  (mkState fine grid_2x3x1 example_flows [] []) [0; 0; 8])).
  - exact Hrun.
  - intros ijk [<- | [<- | []]]; reflexivity.
Defined.
